(** * mlat-server: the multilateration tracker (mlat/mlattrack.py)

    A shallow embedding of [mlat/mlattrack.py] and the proofs of the
    properties its specification states.

    Conventions of the embedding.
    - Python floats are modelled as exact rationals ([Q]); rounding,
      infinities and NaN are outside the model.  Python ints are [Z].
    - Python objects with identity (receivers, message groups, cohorts,
      altitude-history lists) are references ([nat]) into a store; the
      operator [is] is equality of references.
    - A statement that can raise is a computation returning an [outcome]:
      a value, or an abrupt completion ([return], an exception, or the loop
      budget of the model running out).
    - The collaborators that are not part of this file (decoder, clock
      tracker, solver, geodesy, Kalman filter, configuration constants) are
      parameters. *)

From Stdlib Require Import QArith Qabs Qround Lqa Reals Qreals Lra.
From Stdlib Require Import Sorting.Sorted.
From stdpp Require Import base option list gmap strings sorting.

Set Default Proof Using "Type".

(** ** Numbers *)

Module Num.

Local Open Scope Q_scope.

(** [a < b], [a > b] and [a >= b] on floats, as Python evaluates them. *)
Definition Qltb (a b : Q) : bool := negb (Qle_bool b a).
Definition Qgtb (a b : Q) : bool := negb (Qle_bool a b).
Definition Qgeb (a b : Q) : bool := Qle_bool b a.

(** Python's [min(a, b)]: [b] when [b < a], else [a]. *)
Definition py_min (a b : Q) : Q := if Qltb b a then b else a.

(** Python's [int(x)] on a float: truncation towards zero. *)
Definition py_int (x : Q) : Z := Z.quot (Qnum x) (Z.pos (Qden x)).

(** [int(math.sqrt(x))] for [x >= 0]: the floor of the real square root
    is the integer square root of the floor. *)
Definition int_sqrt (x : Q) : Z := Z.sqrt (Qfloor x).

End Num.
Export Num.

(** ** Abrupt completion *)

Inductive exn : Type :=
  | IndexError | KeyError | TypeError | ValueError | ZeroDivisionError
  | OtherError.

Inductive abrupt : Type :=
  | Return                (* a [return] statement *)
  | Raise (e : exn)       (* an exception that is not caught *)
  | OutOfFuel             (* the model's loop budget ran out *)
  | Dangling.             (* a reference that designates no object *)

Inductive outcome (A : Type) : Type :=
  | Ok (a : A)
  | Stop (why : abrupt).
Arguments Ok {A} a.
Arguments Stop {A} why.

Definition obind {A B} (m : outcome A) (k : A -> outcome B) : outcome B :=
  match m with
  | Ok a => k a
  | Stop w => Stop w
  end.

Declare Scope outcome_scope.
Delimit Scope outcome_scope with outcome.
Notation "'let*' p := m 'in' k" := (obind m (fun p => k))
  (at level 10, p pattern, m at level 100, k at level 200) : outcome_scope.

(** A dictionary or list lookup that raises [e] when the key is absent. *)
Definition lookup_or {A} (e : exn) (o : option A) : outcome A :=
  match o with
  | Some a => Ok a
  | None => Stop (Raise e)
  end.

(** Float division: Python raises on a zero divisor. *)
Definition py_div (a b : Q) : outcome Q :=
  if Qeq_bool b 0 then Stop (Raise ZeroDivisionError) else Ok (a / b)%Q.

(** ** Stable sorting, as [list.sort(key=...)] *)

Section Sort.
Context {A : Type} (leb : A -> A -> bool).

(** [x] goes before the first element that it does not exceed, so equal
    keys keep the order they had. *)
Fixpoint insert_sorted (x : A) (l : list A) : list A :=
  match l with
  | [] => [x]
  | y :: l' => if leb x y then x :: y :: l' else y :: insert_sorted x l'
  end.

Fixpoint py_sort (l : list A) : list A :=
  match l with
  | [] => []
  | x :: l' => insert_sorted x (py_sort l')
  end.
End Sort.

(** ** Receivers *)

(** References to objects. *)
Abbreviation rref := nat.   (* a receiver object *)

Record Receiver : Type := {
  uid : Z;
  distance : gmap Z Q;            (* metres, by the other receiver's uid *)
  position : Q * Q * Q            (* ECEF, metres *)
}.

(** ** The cluster engine: [_cluster_timestamps] *)

Module Engine.
Section Engine.
Local Open Scope Q_scope.
Local Open Scope outcome_scope.

Variable Cair : Q.                      (* constants.Cair *)
Variable obj : rref -> Receiver.    (* the receiver objects *)

(** {receiver: (variance, [(timestamp, utc), ...])}, in insertion order *)
Definition component : Type := list (rref * (Q * list (Q * Q))).
(** (receiver, timestamp, variance, utc) *)
Definition item : Type := rref * Q * Q * Q.
(** (receiver, timestamp, variance) *)
Definition member : Type := rref * Q * Q.
(** (distinct, first_seen, [member, ...]) *)
Definition cluster : Type := Z * Q * list member.

Definition item_ts (t : item) : Q := let '(_, timestamp, _, _) := t in timestamp.
Definition item_member (t : item) : member :=
  let '(receiver, timestamp, variance, _) := t in (receiver, timestamp, variance).
Definition m_recv (m : member) : rref := let '(r, _, _) := m in r.
Definition m_ts (m : member) : Q := let '(_, timestamp, _) := m in timestamp.

Definition flatten (c : component) : list item :=
  flat_map (fun '(receiver, (variance, timestamps)) =>
              map (fun '(timestamp, utc) => (receiver, timestamp, variance, utc))
                  timestamps) c.

Definition ts_leb (a b : item) : bool := Qle_bool (item_ts a) (item_ts b).

(** The rough clustering.  [groups] is [done ++ [group]] throughout: the
    list [group] is the last element of [groups] and is extended in
    place. *)
Fixpoint rough_groups (done : list (list item)) (group : list item)
    (rest : list item) : outcome (list (list item)) :=
  match rest with
  | [] => Ok (done ++ [group])
  | t :: rest' =>
      let* g :=
        lookup_or IndexError (last group) in
      if Qgtb (item_ts t - item_ts g) 0.002
      then rough_groups (done ++ [group]) [t] rest'
      else rough_groups done (group ++ [t]) rest'
  end.

(** The loop [for other_receiver, other_timestamp, other_variance in
    cluster]; the result is [(can_cluster, is_distinct)].  ([min_d] is
    assigned by the source but never read.) *)
Fixpoint check_against (receiver : rref) (timestamp : Q)
    (cluster : list member) (is_distinct : bool) : outcome (bool * bool) :=
  match cluster with
  | [] => Ok (true, is_distinct)
  | (other_receiver, other_timestamp, other_variance) :: rest =>
      if decide (other_receiver = receiver) then Ok (false, is_distinct)
      else
        let* d :=
          lookup_or KeyError
               (distance (obj receiver) !! uid (obj other_receiver)) in
        let* limit :=
          py_div (d * 1.05 + 1000) Cair in
        if Qgtb (Qabs (other_timestamp - timestamp)) limit
        then Ok (false, is_distinct)
        else check_against receiver timestamp rest
               (if Qltb d 1000 then false else is_distinct)
  end.

Record forming : Type := {
  f_cluster : list member;
  f_first_seen : Q;
  f_distinct_receivers : Z
}.

(** The loop [for i in range(len(group) - 1, -1, -1)]: [scan i] has the
    indices [i-1, ..., 0] left to visit. *)
Fixpoint scan (i : nat) (last_timestamp : Q) (group : list item)
    (st : forming) : outcome (list item * forming) :=
  match i with
  | O => Ok (group, st)
  | S i' =>
      let* (receiver, timestamp, variance, utc) :=
        lookup_or IndexError (group !! i') in
      if Qgtb (last_timestamp - timestamp) 0.002 then Ok (group, st)
      else
        let* (can_cluster, is_distinct) :=
          check_against receiver timestamp (f_cluster st) true in
        if can_cluster then
          scan i' last_timestamp (delete i' group)
            {| f_cluster := f_cluster st ++ [(receiver, timestamp, variance)];
               f_first_seen := py_min (f_first_seen st) utc;
               f_distinct_receivers :=
                 if is_distinct then (f_distinct_receivers st + 1)%Z
                 else f_distinct_receivers st |}
        else scan i' last_timestamp group st
  end.

(** The loop [while len(group) >= min_receivers]. *)
Fixpoint extract (fuel : nat) (min_receivers : Z) (group : list item)
    (clusters : list cluster) : outcome (list cluster) :=
  if (Z.of_nat (length group) <? min_receivers)%Z then Ok clusters
  else
    match fuel with
    | O => Stop OutOfFuel
    | S fuel' =>
        let* (receiver, timestamp, variance, utc) :=
          lookup_or IndexError (last group) in
        let group := removelast group in
        let* (group, st) :=
          scan (length group) timestamp group
              {| f_cluster := [(receiver, timestamp, variance)];
                 f_first_seen := utc;
                 f_distinct_receivers := 1 |} in
        let clusters :=
          if (min_receivers <=? f_distinct_receivers st)%Z
          then clusters ++ [(f_distinct_receivers st, f_first_seen st,
                             reverse (f_cluster st))]
          else clusters in
        extract fuel' min_receivers group clusters
    end.

(** The loop [for group in groups]. *)
Fixpoint extract_all (min_receivers : Z) (groups : list (list item))
    (clusters : list cluster) : outcome (list cluster) :=
  match groups with
  | [] => Ok clusters
  | group :: groups' =>
      let* clusters :=
        extract (S (length group)) min_receivers group clusters in
      extract_all min_receivers groups' clusters
  end.

Definition _cluster_timestamps (component : component) (min_receivers : Z)
    : outcome (list cluster) :=
  let flat_component := py_sort ts_leb (flatten component) in
  let* first :=
    lookup_or IndexError (flat_component !! 0%nat) in
  let* groups :=
    rough_groups [] [first] (drop 1 flat_component) in
  extract_all min_receivers groups [].

(** *** What the specification asks of an emitted cluster *)

(** The range test that candidate [a] passed against [b], a member that
    was already in the cluster: [d] is [a]'s distance to [b]. *)
Definition consistent (a b : member) : Prop :=
  exists d : Q,
    distance (obj (m_recv a)) !! uid (obj (m_recv b)) = Some d /\
    ~ Cair == 0 /\
    Qabs (m_ts b - m_ts a) <= (d * 1.05 + 1000) / Cair.

Definition cluster_ok (min_receivers : Z) (c : cluster) : Prop :=
  let '(distinct, first_seen, members) := c in
  (forall (i j : nat) (a b : member),
      (i < j)%nat -> members !! i = Some a -> members !! j = Some b ->
      consistent a b) /\
  NoDup (map m_recv members) /\
  (forall a b : member,
      a ∈ members -> b ∈ members -> m_ts a - m_ts b <= 0.002) /\
  (min_receivers <= distinct)%Z.

(** *** Invariants of the loops *)

Definition ts_le (a b : item) : Prop := item_ts a <= item_ts b.

(** The cluster being formed, in the order in which members were added:
    each member passed the range test against all members before it, no
    receiver occurs twice, and every timestamp lies within 2 ms below
    the seed's. *)
Definition forming_ok (last_timestamp : Q) (cl : list member) : Prop :=
  StronglySorted (fun a b => consistent b a) cl /\
  NoDup (m_recv <$> cl) /\
  Forall (fun m => m_ts m <= last_timestamp /\
                   last_timestamp - m_ts m <= 0.002) cl.

End Engine.
End Engine.

(** ** The cluster engine on the object heap

    [_cluster_timestamps] once more, with every list and dictionary an
    object on a heap and every [append], [sort], [pop], [del] and
    [reverse] an update of the object it is applied to.  This is the model
    in which "the function does not mutate its inputs" is a statement: the
    component and its timestamp lists are objects of the heap the function
    starts in.  (A [for] loop over a list that its body does not update
    reads the list once.) *)

Module HeapEngine.
Import Engine.

Inductive obj : Type :=
  | OItems (l : list item)               (* flat_component, a group *)
  | OMembers (l : list member)           (* a cluster *)
  | ORefs (l : list nat)                 (* groups: a list of lists *)
  | OClusters (l : list (Z * Q * nat))   (* clusters *)
  | OTimes (l : list (Q * Q))            (* [(timestamp, utc), ...] *)
  | ODict (d : list (rref * (Q * nat))). (* the component *)

Definition H (A : Type) : Type := gmap nat obj -> outcome A * gmap nat obj.

Definition hret {A} (a : A) : H A := fun h => (Ok a, h).

Definition hbind {A B} (m : H A) (k : A -> H B) : H B :=
  fun h =>
    match m h with
    | (Ok a, h') => k a h'
    | (Stop why, h') => (Stop why, h')
    end.

Declare Scope heap_scope.
Delimit Scope heap_scope with heap.
Notation "'let*' p := m 'in' k" := (hbind m (fun p => k))
  (at level 10, p pattern, m at level 100, k at level 200) : heap_scope.

Definition hlift {A} (o : outcome A) : H A := fun h => (o, h).

(** A new list or dictionary object. *)
Definition alloc (v : obj) : H nat :=
  fun h => let l := fresh (dom h) in (Ok l, <[l := v]> h).

(** An update in place of the object at [l]. *)
Definition put (l : nat) (v : obj) : H unit := fun h => (Ok tt, <[l := v]> h).

Definition get_items (l : nat) : H (list item) :=
  fun h => match h !! l with
           | Some (OItems x) => (Ok x, h)
           | _ => (Stop Dangling, h)
           end.
Definition get_members (l : nat) : H (list member) :=
  fun h => match h !! l with
           | Some (OMembers x) => (Ok x, h)
           | _ => (Stop Dangling, h)
           end.
Definition get_refs (l : nat) : H (list nat) :=
  fun h => match h !! l with
           | Some (ORefs x) => (Ok x, h)
           | _ => (Stop Dangling, h)
           end.
Definition get_clusters (l : nat) : H (list (Z * Q * nat)) :=
  fun h => match h !! l with
           | Some (OClusters x) => (Ok x, h)
           | _ => (Stop Dangling, h)
           end.
Definition get_times (l : nat) : H (list (Q * Q)) :=
  fun h => match h !! l with
           | Some (OTimes x) => (Ok x, h)
           | _ => (Stop Dangling, h)
           end.
Definition get_dict (l : nat) : H (list (rref * (Q * nat))) :=
  fun h => match h !! l with
           | Some (ODict x) => (Ok x, h)
           | _ => (Stop Dangling, h)
           end.

Section HeapEngine.
Local Open Scope Q_scope.
Local Open Scope heap_scope.

Variable Cair : Q.
Variable obj_of : rref -> Receiver.

(** l.append(x) *)
Definition items_append (l : nat) (x : item) : H unit :=
  let* v := get_items l in put l (OItems (v ++ [x])).
Definition members_append (l : nat) (x : member) : H unit :=
  let* v := get_members l in put l (OMembers (v ++ [x])).
Definition refs_append (l : nat) (x : nat) : H unit :=
  let* v := get_refs l in put l (ORefs (v ++ [x])).
Definition clusters_append (l : nat) (x : Z * Q * nat) : H unit :=
  let* v := get_clusters l in put l (OClusters (v ++ [x])).

(** for timestamp, utc in timestamps: flat_component.append(...) *)
Fixpoint h_flatten_times (flat : nat) (receiver : rref) (variance : Q)
    (timestamps : list (Q * Q)) : H unit :=
  match timestamps with
  | [] => hret tt
  | (timestamp, utc) :: rest =>
      let* _ := items_append flat (receiver, timestamp, variance, utc) in
      h_flatten_times flat receiver variance rest
  end.

(** for receiver, (variance, timestamps) in component.items(): ... *)
Fixpoint h_flatten (flat : nat) (entries : list (rref * (Q * nat)))
    : H unit :=
  match entries with
  | [] => hret tt
  | (receiver, (variance, timestamps)) :: rest =>
      let* ts := get_times timestamps in
      let* _ := h_flatten_times flat receiver variance ts in
      h_flatten flat rest
  end.

(** The rough clustering: [group] is the list that was appended to
    [groups] last. *)
Fixpoint h_rough (groups group : nat) (rest : list item) : H unit :=
  match rest with
  | [] => hret tt
  | t :: rest' =>
      let* g := get_items group in
      let* prev := hlift (lookup_or IndexError (last g)) in
      if Qgtb (item_ts t - item_ts prev) 0.002 then
        let* group' := alloc (OItems [t]) in
        let* _ := refs_append groups group' in
        h_rough groups group' rest'
      else
        let* _ := items_append group t in
        h_rough groups group rest'
  end.

(** for i in range(len(group) - 1, -1, -1): ...; the result is
    [(first_seen, distinct_receivers)]. *)
Fixpoint h_scan (i : nat) (last_timestamp : Q) (group cluster : nat)
    (first_seen : Q) (distinct_receivers : Z) : H (Q * Z) :=
  match i with
  | O => hret (first_seen, distinct_receivers)
  | S i' =>
      let* g := get_items group in
      let* (receiver, timestamp, variance, utc) :=
        hlift (lookup_or IndexError (g !! i')) in
      if Qgtb (last_timestamp - timestamp) 0.002
      then hret (first_seen, distinct_receivers)
      else
        let* members := get_members cluster in
        let* (can_cluster, is_distinct) :=
          hlift (check_against Cair obj_of receiver timestamp members true) in
        if can_cluster then
          let* _ := members_append cluster (receiver, timestamp, variance) in
          let* g := get_items group in
          let* _ := put group (OItems (delete i' g)) in
          h_scan i' last_timestamp group cluster (py_min first_seen utc)
            (if is_distinct then (distinct_receivers + 1)%Z
             else distinct_receivers)
        else
          h_scan i' last_timestamp group cluster first_seen distinct_receivers
  end.

(** while len(group) >= min_receivers: ... *)
Fixpoint h_extract (fuel : nat) (min_receivers : Z) (group clusters : nat)
    : H unit :=
  let* g := get_items group in
  if (Z.of_nat (length g) <? min_receivers)%Z then hret tt
  else
    match fuel with
    | O => hlift (Stop OutOfFuel)
    | S fuel' =>
        let* (receiver, timestamp, variance, utc) :=
          hlift (lookup_or IndexError (last g)) in
        let* _ := put group (OItems (removelast g)) in
        let* cluster := alloc (OMembers [(receiver, timestamp, variance)]) in
        let* g := get_items group in
        let* (first_seen, distinct_receivers) :=
          h_scan (length g) timestamp group cluster utc 1 in
        let* _ :=
          if (min_receivers <=? distinct_receivers)%Z then
            let* members := get_members cluster in
            let* _ := put cluster (OMembers (reverse members)) in
            clusters_append clusters (distinct_receivers, first_seen, cluster)
          else hret tt in
        h_extract fuel' min_receivers group clusters
    end.

(** for group in groups: ... *)
Fixpoint h_extract_all (min_receivers : Z) (groups : list nat)
    (clusters : nat) : H unit :=
  match groups with
  | [] => hret tt
  | group :: rest =>
      let* g := get_items group in
      let* _ := h_extract (S (length g)) min_receivers group clusters in
      h_extract_all min_receivers rest clusters
  end.

Definition h_cluster_timestamps (component : nat) (min_receivers : Z)
    : H nat :=
  let* flat_component := alloc (OItems []) in
  let* entries := get_dict component in
  let* _ := h_flatten flat_component entries in
  let* l := get_items flat_component in
  let* _ := put flat_component (OItems (py_sort ts_leb l)) in
  let* l := get_items flat_component in
  let* first := hlift (lookup_or IndexError (l !! 0%nat)) in
  let* group := alloc (OItems [first]) in
  let* groups := alloc (ORefs [group]) in
  let* l := get_items flat_component in
  let* _ := h_rough groups group (drop 1 l) in
  let* clusters := alloc (OClusters []) in
  let* gs := get_refs groups in
  let* _ := h_extract_all min_receivers gs clusters in
  hret clusters.

End HeapEngine.

(** *** Reading values off the heap *)

(** The component stored at [c]. *)
Definition entry_value (h : gmap nat obj) (e : rref * (Q * nat))
    : option (rref * (Q * list (Q * Q))) :=
  let '(receiver, (variance, timestamps)) := e in
  match h !! timestamps with
  | Some (OTimes ts) => Some (receiver, (variance, ts))
  | _ => None
  end.

Definition component_value (h : gmap nat obj) (c : nat) : option component :=
  match h !! c with
  | Some (ODict entries) => mapM (entry_value h) entries
  | _ => None
  end.

(** The list of clusters stored at [r]. *)
Definition cluster_value (h : gmap nat obj) (c : Z * Q * nat)
    : option cluster :=
  let '(distinct, first_seen, l) := c in
  match h !! l with
  | Some (OMembers ms) => Some (distinct, first_seen, ms)
  | _ => None
  end.

Definition clusters_value (h : gmap nat obj) (r : nat)
    : option (list cluster) :=
  match h !! r with
  | Some (OClusters cs) => mapM (cluster_value h) cs
  | _ => None
  end.

(** What a call returned, read off the heap it left: the clusters, or
    the exception. *)
Definition result_value (o : outcome nat) (h : gmap nat obj)
    : option (outcome (list cluster)) :=
  match o with
  | Ok r => Ok <$> clusters_value h r
  | Stop why => Some (Stop why)
  end.

(** [h'] has all the objects of [h], and those outside [M] as they were. *)
Definition frame_on (M : gset nat) (h h' : gmap nat obj) : Prop :=
  dom h ⊆ dom h' /\
  forall l, l ∈ dom h -> l ∉ M -> h' !! l = h !! l.

Definition hwp {A} (m : H A) (h : gmap nat obj)
    (Q : outcome A -> gmap nat obj -> Prop) : Prop :=
  Q (m h).1 (m h).2.

End HeapEngine.

(** ** The data model of the tracker *)

Abbreviation gref := nat.   (* a MessageGroup object *)
Abbreviation cref := nat.   (* a Cohort object *)
Abbreviation href := nat.   (* a list object holding an altitude history *)

(** A position in ECEF coordinates, metres. *)
Definition point : Type := Q * Q * Q.
Definition cov : Type := (Q * Q * Q) * (Q * Q * Q) * (Q * Q * Q).

(** The callback stored in [group.handle]: the bound method
    [self._resolve]. *)
Inductive callback : Type := Resolve.

Record MessageGroup : Type := {
  g_message : string;
  g_first_seen : Q;
  g_copies : list (rref * Q * Q);   (* (receiver, timestamp, utc) *)
  g_receivers : gset rref;
  g_handle : option callback
}.

Definition set_g_copies (v : list (rref * Q * Q)) (x : MessageGroup) : MessageGroup :=
  {| g_message := g_message x; g_first_seen := g_first_seen x; g_copies := v;
     g_receivers := g_receivers x; g_handle := g_handle x |}.

Definition set_g_receivers (v : gset rref) (x : MessageGroup) : MessageGroup :=
  {| g_message := g_message x; g_first_seen := g_first_seen x;
     g_copies := g_copies x; g_receivers := v; g_handle := g_handle x |}.

Definition set_g_handle (v : option callback) (x : MessageGroup) : MessageGroup :=
  {| g_message := g_message x; g_first_seen := g_first_seen x;
     g_copies := g_copies x; g_receivers := g_receivers x; g_handle := v |}.
Record Cohort : Type := {
  c_creationTime : Q;
  c_len : Z;
  c_groups : list gref;
  c_handle : nat   (* the timer returned by loop.call_later *)
}.

Definition set_c_len (v : Z) (x : Cohort) : Cohort :=
  {| c_creationTime := c_creationTime x; c_len := v; c_groups := c_groups x;
     c_handle := c_handle x |}.

Definition set_c_groups (v : list gref) (x : Cohort) : Cohort :=
  {| c_creationTime := c_creationTime x; c_len := c_len x; c_groups := v;
     c_handle := c_handle x |}.
Record Aircraft : Type := {
  icao : Z;
  allow_mlat : bool;
  seen : Q;
  mlat_message_count : Z;
  mlat_result_count : Z;
  mlat_kalman_count : Z;
  altitude : option Z;   (* feet *)
  last_altitude_time : option Q;
  alt_history : href;   (* a list of (time, altitude) *)
  vrate : option Z;   (* feet per minute *)
  vrate_time : Q;
  squawk : option Z;
  callsign : option string;
  last_resolve_attempt : Q;
  last_result_position : option point;
  last_result_var : Q;
  last_result_dof : Z;
  last_result_time : Q;
  kalman : nat   (* the aircraft's Kalman filter object *)
}.

Definition set_seen (v : Q) (x : Aircraft) : Aircraft :=
  {| icao := icao x; allow_mlat := allow_mlat x; seen := v;
     mlat_message_count := mlat_message_count x;
     mlat_result_count := mlat_result_count x;
     mlat_kalman_count := mlat_kalman_count x; altitude := altitude x;
     last_altitude_time := last_altitude_time x;
     alt_history := alt_history x; vrate := vrate x;
     vrate_time := vrate_time x; squawk := squawk x; callsign := callsign x;
     last_resolve_attempt := last_resolve_attempt x;
     last_result_position := last_result_position x;
     last_result_var := last_result_var x;
     last_result_dof := last_result_dof x;
     last_result_time := last_result_time x; kalman := kalman x |}.

Definition set_mlat_message_count (v : Z) (x : Aircraft) : Aircraft :=
  {| icao := icao x; allow_mlat := allow_mlat x; seen := seen x;
     mlat_message_count := v; mlat_result_count := mlat_result_count x;
     mlat_kalman_count := mlat_kalman_count x; altitude := altitude x;
     last_altitude_time := last_altitude_time x;
     alt_history := alt_history x; vrate := vrate x;
     vrate_time := vrate_time x; squawk := squawk x; callsign := callsign x;
     last_resolve_attempt := last_resolve_attempt x;
     last_result_position := last_result_position x;
     last_result_var := last_result_var x;
     last_result_dof := last_result_dof x;
     last_result_time := last_result_time x; kalman := kalman x |}.

Definition set_mlat_result_count (v : Z) (x : Aircraft) : Aircraft :=
  {| icao := icao x; allow_mlat := allow_mlat x; seen := seen x;
     mlat_message_count := mlat_message_count x; mlat_result_count := v;
     mlat_kalman_count := mlat_kalman_count x; altitude := altitude x;
     last_altitude_time := last_altitude_time x;
     alt_history := alt_history x; vrate := vrate x;
     vrate_time := vrate_time x; squawk := squawk x; callsign := callsign x;
     last_resolve_attempt := last_resolve_attempt x;
     last_result_position := last_result_position x;
     last_result_var := last_result_var x;
     last_result_dof := last_result_dof x;
     last_result_time := last_result_time x; kalman := kalman x |}.

Definition set_mlat_kalman_count (v : Z) (x : Aircraft) : Aircraft :=
  {| icao := icao x; allow_mlat := allow_mlat x; seen := seen x;
     mlat_message_count := mlat_message_count x;
     mlat_result_count := mlat_result_count x; mlat_kalman_count := v;
     altitude := altitude x; last_altitude_time := last_altitude_time x;
     alt_history := alt_history x; vrate := vrate x;
     vrate_time := vrate_time x; squawk := squawk x; callsign := callsign x;
     last_resolve_attempt := last_resolve_attempt x;
     last_result_position := last_result_position x;
     last_result_var := last_result_var x;
     last_result_dof := last_result_dof x;
     last_result_time := last_result_time x; kalman := kalman x |}.

Definition set_altitude (v : option Z) (x : Aircraft) : Aircraft :=
  {| icao := icao x; allow_mlat := allow_mlat x; seen := seen x;
     mlat_message_count := mlat_message_count x;
     mlat_result_count := mlat_result_count x;
     mlat_kalman_count := mlat_kalman_count x; altitude := v;
     last_altitude_time := last_altitude_time x;
     alt_history := alt_history x; vrate := vrate x;
     vrate_time := vrate_time x; squawk := squawk x; callsign := callsign x;
     last_resolve_attempt := last_resolve_attempt x;
     last_result_position := last_result_position x;
     last_result_var := last_result_var x;
     last_result_dof := last_result_dof x;
     last_result_time := last_result_time x; kalman := kalman x |}.

Definition set_last_altitude_time (v : option Q) (x : Aircraft) : Aircraft :=
  {| icao := icao x; allow_mlat := allow_mlat x; seen := seen x;
     mlat_message_count := mlat_message_count x;
     mlat_result_count := mlat_result_count x;
     mlat_kalman_count := mlat_kalman_count x; altitude := altitude x;
     last_altitude_time := v; alt_history := alt_history x; vrate := vrate x;
     vrate_time := vrate_time x; squawk := squawk x; callsign := callsign x;
     last_resolve_attempt := last_resolve_attempt x;
     last_result_position := last_result_position x;
     last_result_var := last_result_var x;
     last_result_dof := last_result_dof x;
     last_result_time := last_result_time x; kalman := kalman x |}.

Definition set_alt_history (v : href) (x : Aircraft) : Aircraft :=
  {| icao := icao x; allow_mlat := allow_mlat x; seen := seen x;
     mlat_message_count := mlat_message_count x;
     mlat_result_count := mlat_result_count x;
     mlat_kalman_count := mlat_kalman_count x; altitude := altitude x;
     last_altitude_time := last_altitude_time x; alt_history := v;
     vrate := vrate x; vrate_time := vrate_time x; squawk := squawk x;
     callsign := callsign x; last_resolve_attempt := last_resolve_attempt x;
     last_result_position := last_result_position x;
     last_result_var := last_result_var x;
     last_result_dof := last_result_dof x;
     last_result_time := last_result_time x; kalman := kalman x |}.

Definition set_vrate (v : option Z) (x : Aircraft) : Aircraft :=
  {| icao := icao x; allow_mlat := allow_mlat x; seen := seen x;
     mlat_message_count := mlat_message_count x;
     mlat_result_count := mlat_result_count x;
     mlat_kalman_count := mlat_kalman_count x; altitude := altitude x;
     last_altitude_time := last_altitude_time x;
     alt_history := alt_history x; vrate := v; vrate_time := vrate_time x;
     squawk := squawk x; callsign := callsign x;
     last_resolve_attempt := last_resolve_attempt x;
     last_result_position := last_result_position x;
     last_result_var := last_result_var x;
     last_result_dof := last_result_dof x;
     last_result_time := last_result_time x; kalman := kalman x |}.

Definition set_vrate_time (v : Q) (x : Aircraft) : Aircraft :=
  {| icao := icao x; allow_mlat := allow_mlat x; seen := seen x;
     mlat_message_count := mlat_message_count x;
     mlat_result_count := mlat_result_count x;
     mlat_kalman_count := mlat_kalman_count x; altitude := altitude x;
     last_altitude_time := last_altitude_time x;
     alt_history := alt_history x; vrate := vrate x; vrate_time := v;
     squawk := squawk x; callsign := callsign x;
     last_resolve_attempt := last_resolve_attempt x;
     last_result_position := last_result_position x;
     last_result_var := last_result_var x;
     last_result_dof := last_result_dof x;
     last_result_time := last_result_time x; kalman := kalman x |}.

Definition set_squawk (v : option Z) (x : Aircraft) : Aircraft :=
  {| icao := icao x; allow_mlat := allow_mlat x; seen := seen x;
     mlat_message_count := mlat_message_count x;
     mlat_result_count := mlat_result_count x;
     mlat_kalman_count := mlat_kalman_count x; altitude := altitude x;
     last_altitude_time := last_altitude_time x;
     alt_history := alt_history x; vrate := vrate x;
     vrate_time := vrate_time x; squawk := v; callsign := callsign x;
     last_resolve_attempt := last_resolve_attempt x;
     last_result_position := last_result_position x;
     last_result_var := last_result_var x;
     last_result_dof := last_result_dof x;
     last_result_time := last_result_time x; kalman := kalman x |}.

Definition set_callsign (v : option string) (x : Aircraft) : Aircraft :=
  {| icao := icao x; allow_mlat := allow_mlat x; seen := seen x;
     mlat_message_count := mlat_message_count x;
     mlat_result_count := mlat_result_count x;
     mlat_kalman_count := mlat_kalman_count x; altitude := altitude x;
     last_altitude_time := last_altitude_time x;
     alt_history := alt_history x; vrate := vrate x;
     vrate_time := vrate_time x; squawk := squawk x; callsign := v;
     last_resolve_attempt := last_resolve_attempt x;
     last_result_position := last_result_position x;
     last_result_var := last_result_var x;
     last_result_dof := last_result_dof x;
     last_result_time := last_result_time x; kalman := kalman x |}.

Definition set_last_resolve_attempt (v : Q) (x : Aircraft) : Aircraft :=
  {| icao := icao x; allow_mlat := allow_mlat x; seen := seen x;
     mlat_message_count := mlat_message_count x;
     mlat_result_count := mlat_result_count x;
     mlat_kalman_count := mlat_kalman_count x; altitude := altitude x;
     last_altitude_time := last_altitude_time x;
     alt_history := alt_history x; vrate := vrate x;
     vrate_time := vrate_time x; squawk := squawk x; callsign := callsign x;
     last_resolve_attempt := v;
     last_result_position := last_result_position x;
     last_result_var := last_result_var x;
     last_result_dof := last_result_dof x;
     last_result_time := last_result_time x; kalman := kalman x |}.

Definition set_last_result_position (v : option point) (x : Aircraft) : Aircraft :=
  {| icao := icao x; allow_mlat := allow_mlat x; seen := seen x;
     mlat_message_count := mlat_message_count x;
     mlat_result_count := mlat_result_count x;
     mlat_kalman_count := mlat_kalman_count x; altitude := altitude x;
     last_altitude_time := last_altitude_time x;
     alt_history := alt_history x; vrate := vrate x;
     vrate_time := vrate_time x; squawk := squawk x; callsign := callsign x;
     last_resolve_attempt := last_resolve_attempt x;
     last_result_position := v; last_result_var := last_result_var x;
     last_result_dof := last_result_dof x;
     last_result_time := last_result_time x; kalman := kalman x |}.

Definition set_last_result_var (v : Q) (x : Aircraft) : Aircraft :=
  {| icao := icao x; allow_mlat := allow_mlat x; seen := seen x;
     mlat_message_count := mlat_message_count x;
     mlat_result_count := mlat_result_count x;
     mlat_kalman_count := mlat_kalman_count x; altitude := altitude x;
     last_altitude_time := last_altitude_time x;
     alt_history := alt_history x; vrate := vrate x;
     vrate_time := vrate_time x; squawk := squawk x; callsign := callsign x;
     last_resolve_attempt := last_resolve_attempt x;
     last_result_position := last_result_position x; last_result_var := v;
     last_result_dof := last_result_dof x;
     last_result_time := last_result_time x; kalman := kalman x |}.

Definition set_last_result_dof (v : Z) (x : Aircraft) : Aircraft :=
  {| icao := icao x; allow_mlat := allow_mlat x; seen := seen x;
     mlat_message_count := mlat_message_count x;
     mlat_result_count := mlat_result_count x;
     mlat_kalman_count := mlat_kalman_count x; altitude := altitude x;
     last_altitude_time := last_altitude_time x;
     alt_history := alt_history x; vrate := vrate x;
     vrate_time := vrate_time x; squawk := squawk x; callsign := callsign x;
     last_resolve_attempt := last_resolve_attempt x;
     last_result_position := last_result_position x;
     last_result_var := last_result_var x; last_result_dof := v;
     last_result_time := last_result_time x; kalman := kalman x |}.

Definition set_last_result_time (v : Q) (x : Aircraft) : Aircraft :=
  {| icao := icao x; allow_mlat := allow_mlat x; seen := seen x;
     mlat_message_count := mlat_message_count x;
     mlat_result_count := mlat_result_count x;
     mlat_kalman_count := mlat_kalman_count x; altitude := altitude x;
     last_altitude_time := last_altitude_time x;
     alt_history := alt_history x; vrate := vrate x;
     vrate_time := vrate_time x; squawk := squawk x; callsign := callsign x;
     last_resolve_attempt := last_resolve_attempt x;
     last_result_position := last_result_position x;
     last_result_var := last_result_var x;
     last_result_dof := last_result_dof x; last_result_time := v;
     kalman := kalman x |}.
(** What the message decoder returns. *)
Record Decoded : Type := {
  d_address : option Z;
  d_altitude : option Z;
  d_squawk : option Z;
  d_callsign : option string
}.

(** The altitude error handed to the Kalman filter: a number, nothing, or
    [4000 / math.sqrt(dof + 1)], which is kept symbolic. *)
Inductive kalman_error : Type :=
  | KErr (e : option Q)
  | KErrSolved (dof : Z).

(** One record of the pseudorange log. *)
Record pseudorange_state : Type := {
  ps_icao : Z;
  ps_time : Q;
  ps_ecef : Q * Q * Q;
  ps_distinct : Z;
  ps_dof : Z;
  ps_cluster : list (Q * Q * Q * Q * Q);
  ps_ecef_cov : option cov;
  ps_altitude : option (Q * Q)
}.

(** Calls to the collaborators, in the order they are made. *)
Inductive event : Type :=
  | EvLog (msg : string)
  | EvTraceback
  | EvSolve (cluster : list Engine.member) (altitude altitude_error : option Q)
      (initial_guess : option point)
  | EvKalman (k : nat) (cluster_utc : Q) (cluster : list Engine.member)
      (altitude : Q) (altitude_error : kalman_error) (position : point)
      (position_cov : option cov) (distinct dof : Z)
  | EvOutput (handler : nat) (cluster_utc : Q) (address : Z) (position : point)
      (position_cov : option cov) (receivers : list rref)
      (distinct dof : Z) (k : nat) (error : Z)
  | EvForward (cluster_utc : Q) (address : Z) (position : point)
      (position_cov : option cov) (receivers : list rref)
      (distinct dof : Z) (k : nat) (error : Z)
  | EvPseudorange (file : string) (state : pseudorange_state)
  | EvClose (file : string)
  | EvOpen (file : string).

Record World : Type := {
  pending : gmap string gref;   (* self.pending *)
  cohort : cref;   (* self.cohort *)
  blacklist : gset string;   (* self.blacklist *)
  pseudorange_file : option string;   (* self.pseudorange_file *)
  group_store : gmap gref MessageGroup;   (* the MessageGroup objects *)
  cohort_store : gmap cref Cohort;   (* the Cohort objects *)
  hist_store : gmap href (list (Q * Z));   (* the altitude-history lists *)
  stats : gmap string Z;   (* the coordinator's stats_* counters *)
  aircraft : gmap Z Aircraft;   (* self.tracker.aircraft *)
  timers : gmap nat (Q * cref);   (* loop.call_later: (delay, cohort) *)
  time_calls : nat;   (* number of calls to time.time() so far *)
  trace : list event   (* calls made to the collaborators *)
}.

Definition set_pending (v : gmap string gref) (x : World) : World :=
  {| pending := v; cohort := cohort x; blacklist := blacklist x;
     pseudorange_file := pseudorange_file x; group_store := group_store x;
     cohort_store := cohort_store x; hist_store := hist_store x;
     stats := stats x; aircraft := aircraft x; timers := timers x;
     time_calls := time_calls x; trace := trace x |}.

Definition set_cohort (v : cref) (x : World) : World :=
  {| pending := pending x; cohort := v; blacklist := blacklist x;
     pseudorange_file := pseudorange_file x; group_store := group_store x;
     cohort_store := cohort_store x; hist_store := hist_store x;
     stats := stats x; aircraft := aircraft x; timers := timers x;
     time_calls := time_calls x; trace := trace x |}.

Definition set_blacklist (v : gset string) (x : World) : World :=
  {| pending := pending x; cohort := cohort x; blacklist := v;
     pseudorange_file := pseudorange_file x; group_store := group_store x;
     cohort_store := cohort_store x; hist_store := hist_store x;
     stats := stats x; aircraft := aircraft x; timers := timers x;
     time_calls := time_calls x; trace := trace x |}.

Definition set_pseudorange_file (v : option string) (x : World) : World :=
  {| pending := pending x; cohort := cohort x; blacklist := blacklist x;
     pseudorange_file := v; group_store := group_store x;
     cohort_store := cohort_store x; hist_store := hist_store x;
     stats := stats x; aircraft := aircraft x; timers := timers x;
     time_calls := time_calls x; trace := trace x |}.

Definition set_group_store (v : gmap gref MessageGroup) (x : World) : World :=
  {| pending := pending x; cohort := cohort x; blacklist := blacklist x;
     pseudorange_file := pseudorange_file x; group_store := v;
     cohort_store := cohort_store x; hist_store := hist_store x;
     stats := stats x; aircraft := aircraft x; timers := timers x;
     time_calls := time_calls x; trace := trace x |}.

Definition set_cohort_store (v : gmap cref Cohort) (x : World) : World :=
  {| pending := pending x; cohort := cohort x; blacklist := blacklist x;
     pseudorange_file := pseudorange_file x; group_store := group_store x;
     cohort_store := v; hist_store := hist_store x; stats := stats x;
     aircraft := aircraft x; timers := timers x; time_calls := time_calls x;
     trace := trace x |}.

Definition set_hist_store (v : gmap href (list (Q * Z))) (x : World) : World :=
  {| pending := pending x; cohort := cohort x; blacklist := blacklist x;
     pseudorange_file := pseudorange_file x; group_store := group_store x;
     cohort_store := cohort_store x; hist_store := v; stats := stats x;
     aircraft := aircraft x; timers := timers x; time_calls := time_calls x;
     trace := trace x |}.

Definition set_stats (v : gmap string Z) (x : World) : World :=
  {| pending := pending x; cohort := cohort x; blacklist := blacklist x;
     pseudorange_file := pseudorange_file x; group_store := group_store x;
     cohort_store := cohort_store x; hist_store := hist_store x; stats := v;
     aircraft := aircraft x; timers := timers x; time_calls := time_calls x;
     trace := trace x |}.

Definition set_aircraft (v : gmap Z Aircraft) (x : World) : World :=
  {| pending := pending x; cohort := cohort x; blacklist := blacklist x;
     pseudorange_file := pseudorange_file x; group_store := group_store x;
     cohort_store := cohort_store x; hist_store := hist_store x;
     stats := stats x; aircraft := v; timers := timers x;
     time_calls := time_calls x; trace := trace x |}.

Definition set_timers (v : gmap nat (Q * cref)) (x : World) : World :=
  {| pending := pending x; cohort := cohort x; blacklist := blacklist x;
     pseudorange_file := pseudorange_file x; group_store := group_store x;
     cohort_store := cohort_store x; hist_store := hist_store x;
     stats := stats x; aircraft := aircraft x; timers := v;
     time_calls := time_calls x; trace := trace x |}.

Definition set_time_calls (v : nat) (x : World) : World :=
  {| pending := pending x; cohort := cohort x; blacklist := blacklist x;
     pseudorange_file := pseudorange_file x; group_store := group_store x;
     cohort_store := cohort_store x; hist_store := hist_store x;
     stats := stats x; aircraft := aircraft x; timers := timers x;
     time_calls := v; trace := trace x |}.

Definition set_trace (v : list event) (x : World) : World :=
  {| pending := pending x; cohort := cohort x; blacklist := blacklist x;
     pseudorange_file := pseudorange_file x; group_store := group_store x;
     cohort_store := cohort_store x; hist_store := hist_store x;
     stats := stats x; aircraft := aircraft x; timers := timers x;
     time_calls := time_calls x; trace := v |}.
(** What [open(name, 'r')] finds. *)
Inductive file_status : Type :=
  | NoSuchFile                (* FileNotFoundError *)
  | Unreadable                (* any other error *)
  | Text (content : string).  (* the decoded text, lines ending in "\n" *)

(** The configuration and the collaborators. *)
Record Env : Type := {
  MLAT_DELAY : Q;
  MAX_GROUP : Z;
  RESOLVE_INTERVAL : Q;
  RESOLVE_BACKOFF : Q;
  MIN_ALT : Q;
  MAX_ALT : Q;
  FTOM : Q;
  Cair : Q;
  blacklist_filename : option string;
  pseudorange_filename : option string;
  output_handlers : list nat;
  robj : rref -> Receiver;
  (** time.time(): the value of the n-th call *)
  time_time : nat -> Q;
  open_file : string -> file_status;
  (** modes_cython.message.decode *)
  decode : string -> option Decoded;
  (** clocktrack.normalize2; [None] when it raises *)
  normalize2 : list (rref * list (Q * Q)) -> option (list Engine.component);
  (** solver.solve *)
  solve : list Engine.member -> option Q -> option Q -> option point ->
          option (point * option cov);
  ecef2llh : point -> Q * Q * Q;
  llh2ecef : Q * Q * Q -> point;
  (** ac.kalman.update *)
  kalman_update : nat -> Q -> list Engine.member -> Q -> kalman_error ->
                  point -> option cov -> Z -> Z -> bool
}.

(** ** Computations on the world *)

Definition M (A : Type) : Type := World -> outcome A * World.

Definition ret {A} (a : A) : M A := fun w => (Ok a, w).

Definition mbind {A B} (m : M A) (k : A -> M B) : M B :=
  fun w =>
    match m w with
    | (Ok a, w') => k a w'
    | (Stop why, w') => (Stop why, w')
    end.

Declare Scope world_scope.
Delimit Scope world_scope with world.
Notation "'let*' p := m 'in' k" := (mbind m (fun p => k))
  (at level 10, p pattern, m at level 100, k at level 200) : world_scope.

(** [return] *)
Definition return_ {A} : M A := fun w => (Stop Return, w).
Definition raise {A} (e : exn) : M A := fun w => (Stop (Raise e), w).
Definition lift {A} (o : outcome A) : M A := fun w => (o, w).
Definition gets {A} (f : World -> A) : M A := fun w => (Ok (f w), w).
Definition modify (f : World -> World) : M unit := fun w => (Ok tt, f w).

(** The value of an attribute used in arithmetic: [None] is a TypeError. *)
Definition number {A} (o : option A) : M A :=
  match o with
  | Some a => ret a
  | None => raise TypeError
  end.

(** An object by its reference.  A Python reference always designates an
    object; [Dangling] is the model's answer for a store that lacks it. *)
Definition deref {A} (store : World -> gmap nat A) (r : nat) : M A :=
  fun w =>
    match store w !! r with
    | Some a => (Ok a, w)
    | None => (Stop Dangling, w)
    end.

(** The body of a function: a [return] ends the call normally. *)
Definition call (m : M unit) : M unit :=
  fun w =>
    match m w with
    | (Stop Return, w') => (Ok tt, w')
    | r => r
    end.

Definition log (msg : string) : M unit :=
  modify (fun w => set_trace (trace w ++ [EvLog msg]) w).
Definition emit (e : event) : M unit :=
  modify (fun w => set_trace (trace w ++ [e]) w).

(** self.coordinator.stats_... += 1 *)
Definition stats_incr (name : string) : M unit :=
  modify (fun w =>
    set_stats (<[name := (default 0 (stats w !! name) + 1)%Z]> (stats w)) w).

(** ** Text *)

Definition py_isspace (c : Ascii.ascii) : bool :=
  match Ascii.N_of_ascii c with
  | 9 | 10 | 11 | 12 | 13 | 28 | 29 | 30 | 31 | 32 | 133 | 160 => true
  | _ => false
  end%N.

Fixpoint lstrip (s : string) : string :=
  match s with
  | EmptyString => EmptyString
  | String c s' => if py_isspace c then lstrip s' else s
  end.

Definition rstrip (s : string) : string := String.rev (lstrip (String.rev s)).

(** str.strip() *)
Definition strip (s : string) : string := rstrip (lstrip s).

(** f.readline() at the start of a file: the first line with its newline,
    or the whole text when it has no newline. *)
Fixpoint readline (s : string) : string :=
  match s with
  | EmptyString => EmptyString
  | String c s' =>
      if Ascii.eqb c (Ascii.ascii_of_N 10) then String c EmptyString
      else String c (readline s')
  end.

(** The lines of a text, without their newlines. *)
Fixpoint split_lines (s : string) : list string :=
  match s with
  | EmptyString => [EmptyString]
  | String c s' =>
      if Ascii.eqb c (Ascii.ascii_of_N 10) then EmptyString :: split_lines s'
      else
        match split_lines s' with
        | line :: rest => String c line :: rest
        | [] => [String c EmptyString]
        end
  end.

(** The blacklist entry in the words of the specification: the first line
    that is not empty once stripped. *)
Fixpoint first_nonempty (lines : list string) : option string :=
  match lines with
  | [] => None
  | line :: rest =>
      if String.eqb (strip line) EmptyString then first_nonempty rest
      else Some (strip line)
  end.

Definition spec_first_nonempty_line (content : string) : option string :=
  first_nonempty (split_lines content).

Definition spec_blacklist (content : string) : gset string :=
  match spec_first_nonempty_line content with
  | Some user => {[user]}
  | None => ∅
  end.

(** ** The group and cohort batcher *)

Section Tracker.
Local Open Scope Q_scope.
Local Open Scope world_scope.

Variable E : Env.

(** time.time() *)
Definition time_now : M Q :=
  fun w => (Ok (time_time E (time_calls w)), set_time_calls (S (time_calls w)) w).

(** Cohort(now, loop) *)
Definition Cohort_new (now : Q) : M cref :=
  fun w =>
    let c := fresh (dom (cohort_store w)) in
    let timer := fresh (dom (timers w)) in
    (Ok c,
     set_timers (<[timer := (MLAT_DELAY E, c)]> (timers w))
       (set_cohort_store
          (<[c := {| c_creationTime := now; c_len := 0; c_groups := [];
                     c_handle := timer |}]> (cohort_store w)) w)).

(** MessageGroup(message, first_seen) *)
Definition MessageGroup_new (message : string) (first_seen : Q) : M gref :=
  fun w =>
    let group := fresh (dom (group_store w)) in
    (Ok group,
     set_group_store
       (<[group := {| g_message := message; g_first_seen := first_seen;
                      g_copies := []; g_receivers := ∅; g_handle := None |}]>
          (group_store w)) w).

Definition update_group (group : gref) (f : MessageGroup -> MessageGroup)
    : M unit :=
  modify (fun w => set_group_store (alter f group (group_store w)) w).

Definition update_cohort (c : cref) (f : Cohort -> Cohort) : M unit :=
  modify (fun w => set_cohort_store (alter f c (cohort_store w)) w).

Definition receiver_mlat (receiver : rref) (timestamp : Q)
    (message : string) (now : Q) : M unit :=
  call (
    let* _ := stats_incr "stats_mlat_msgs" in
    let* found := gets (fun w => pending w !! message) in
    let* group :=
      match found with
      | Some group => ret group
      | None =>
          let* group := MessageGroup_new message now in
          let* _ := modify (fun w =>
                      set_pending (<[message := group]> (pending w)) w) in
          let* _ := update_group group (set_g_handle (Some Resolve)) in
          let* c := gets cohort in
          let* co := deref cohort_store c in
          let* _ :=
            if Qgtb (now - c_creationTime co) 0.05 || (25 <? c_len co)%Z
            then
              let* c' := Cohort_new now in
              modify (set_cohort c')
            else ret tt in
          let* c := gets cohort in
          let* _ := update_cohort c (fun co =>
                      set_c_len (c_len co + 1)%Z
                        (set_c_groups (c_groups co ++ [group]) co)) in
          ret group
      end in
    let* _ := update_group group (fun g =>
                set_g_receivers ({[receiver]} ∪ g_receivers g) g) in
    let* g := deref group_store group in
    if (MAX_GROUP E <? Z.of_nat (length (g_copies g)))%Z then return_
    else
      update_group group (fun g =>
        set_g_copies (g_copies g ++ [(receiver, timestamp, now)]) g)).

Definition read_blacklist : M unit :=
  call (
    let* s :=
      match blacklist_filename E with
      | None | Some EmptyString => ret ∅
      | Some name =>
          let* s :=
            match open_file E name with
            | Text content =>
                let user := strip (readline content) in
                ret (if String.eqb user EmptyString
                     then (∅ : gset string) else {[user]})
            | NoSuchFile => ret ∅
            | Unreadable => raise OtherError
            end in
          let* _ := log "Read blacklist entries" in
          ret s
      end in
    modify (set_blacklist s)).

Definition reopen_pseudoranges : M unit :=
  call (
    let* file := gets pseudorange_file in
    let* _ :=
      match file with
      | Some name =>
          let* _ := emit (EvClose name) in
          modify (set_pseudorange_file None)
      | None => ret tt
      end in
    let* name := number (pseudorange_filename E) in
    match open_file E name with
    | Unreadable => raise OtherError
    | _ =>
        let* _ := emit (EvOpen name) in
        modify (set_pseudorange_file (Some name))
    end).

(** MlatTracker.__init__ *)
Definition MlatTracker_init : M unit :=
  call (
    let* _ := modify (set_pending ∅) in
    let* _ := read_blacklist in
    let* now := time_now in
    let* c := Cohort_new now in
    let* _ := modify (set_cohort c) in
    let* _ := modify (set_pseudorange_file None) in
    match pseudorange_filename E with
    | None | Some EmptyString => ret tt
    | Some _ => reopen_pseudoranges
    end).

End Tracker.

(** ** The resolve pipeline *)

(** round(x, ndigits): to the nearest multiple of 10^-ndigits, ties to
    even. *)
Definition round_half_even (x : Q) : Z :=
  let f := Qfloor x in
  let r := (x - inject_Z f)%Q in
  if Qltb r 0.5 then f
  else if Qgtb r 0.5 then (f + 1)%Z
  else if Z.even f then f else (f + 1)%Z.

Definition py_round (x : Q) (ndigits : nat) : Q :=
  let scale := inject_Z (10 ^ Z.of_nat ndigits) in
  (inject_Z (round_half_even (x * scale)) / scale)%Q.

(** numpy.trace of a 3x3 matrix *)
Definition cov_trace (c : cov) : Q :=
  let '((c00, _, _), (_, c11, _), (_, _, c22)) := c in (c00 + c11 + c22)%Q.

(** timestamp_map.setdefault(receiver, []).append(x) *)
Fixpoint timestamp_map_add (receiver : rref) (x : Q * Q)
    (tm : list (rref * list (Q * Q))) : list (rref * list (Q * Q)) :=
  match tm with
  | [] => [(receiver, [x])]
  | (r, l) :: tm' =>
      if decide (r = receiver) then (r, l ++ [x]) :: tm'
      else (r, l) :: timestamp_map_add receiver x tm'
  end.

(** The order of the tuples [(x[0], x[1])] used to sort the clusters. *)
Definition cluster_key_lt (a b : Engine.cluster) : bool :=
  let '(da, ua, _) := a in
  let '(db, ub, _) := b in
  (da <? db)%Z || ((da =? db)%Z && Qltb ua ub).

Definition cluster_key_leb (a b : Engine.cluster) : bool :=
  negb (cluster_key_lt b a).

Definition member_ts_leb (a b : Engine.member) : bool :=
  Qle_bool (Engine.m_ts a) (Engine.m_ts b).

(** The previous result as [_resolve] sees it. *)
Record prior : Type := {
  p_position : option point;
  p_var : Q;
  p_dof : Z;
  p_time : Q
}.

(** The values the cluster loop leaves behind when it accepts a result. *)
Record solved : Type := {
  s_ecef : point;
  s_ecef_cov : cov;
  s_var_est : Q;
  s_error : Z;
  s_elapsed : Q;
  s_dof : Z;
  s_cluster_utc : Q;
  s_distinct : Z;
  s_cluster : list Engine.member;
  s_altitude_error : option Q
}.

Section Resolve.
Local Open Scope Q_scope.
Local Open Scope world_scope.

Variable E : Env.

Definition when (b : bool) (m : M unit) : M unit := if b then m else ret tt.

(** A value that makes the function return when it is None. *)
Definition or_return {A} (o : option A) : M A :=
  match o with
  | Some a => ret a
  | None => return_
  end.

(** The aircraft object is mutated in place: every assignment to one of
    its attributes is written to the store at once. *)
Definition store_ac (address : Z) (ac : Aircraft) : M unit :=
  modify (fun w => set_aircraft (<[address := ac]> (aircraft w)) w).

Definition hist_new : M href :=
  fun w =>
    let h := fresh (dom (hist_store w)) in
    (Ok h, set_hist_store (<[h := []]> (hist_store w)) w).

Definition hist_append (h : href) (x : Q * Z) : M unit :=
  let* l := deref hist_store h in
  modify (fun w => set_hist_store (<[h := l ++ [x]]> (hist_store w)) w).

Definition hist_index (h : href) (i : nat) : M (Q * Z) :=
  let* l := deref hist_store h in
  lift (lookup_or IndexError (l !! i)).

(** for ts, old_alt in ac.alt_history: ... new_hist.append((ts, old_alt)) *)
Fixpoint prune_history (first_seen : Q) (new_hist : href)
    (old : list (Q * Z)) : M unit :=
  match old with
  | [] => ret tt
  | (ts, old_alt) :: rest =>
      let* _ := when (Qltb (first_seen - ts) 20)
                  (hist_append new_hist (ts, old_alt)) in
      prune_history first_seen new_hist rest
  end.

(** The test that guards the altitude update. *)
Definition altitude_accepted (first_seen : Q) (decoded_altitude : Z)
    (ac : Aircraft) : M bool :=
  match last_altitude_time ac with
  | None => ret true
  | Some t =>
      if Qeq_bool t 0 then ret true
      else if Qgtb first_seen t then
        if Qgtb (first_seen - t) 15 then ret true
        else
          let* alt := number (altitude ac) in
          ret (Z.abs (alt - decoded_altitude) <? 4000)%Z
      else ret false
  end.

(** The altitude update, first part: the new altitude and the pruned
    history with the new sample appended.  [new_hist] and
    [ac.alt_history] are the same list object when the sample is
    appended. *)
Definition rebuild_history (address : Z) (first_seen : Q)
    (decoded_altitude : Z) (ac : Aircraft) : M (Aircraft * href) :=
  let ac := set_altitude (Some decoded_altitude) ac in
  let* _ := store_ac address ac in
  let ac := set_last_altitude_time (Some first_seen) ac in
  let* _ := store_ac address ac in
  let* new_hist := hist_new in
  let* old := deref hist_store (alt_history ac) in
  let* _ := prune_history first_seen new_hist old in
  let ac := set_alt_history new_hist ac in
  let* _ := store_ac address ac in
  let* _ := hist_append (alt_history ac) (first_seen, decoded_altitude) in
  ret (ac, new_hist).

(** The altitude update, second part: the vertical rate from
    [new_hist[0]]. *)
Definition update_vrate (address : Z) (first_seen : Q)
    (decoded_altitude : Z) (new_hist : href) (ac : Aircraft) : M Aircraft :=
  let* oldest := hist_index new_hist 0 in
  let ts_diff := first_seen - oldest.1 in
  if Qgtb ts_diff 10 then
    let* oldest := hist_index new_hist 0 in
    let* new_vrate :=
      lift (py_div (inject_Z decoded_altitude - inject_Z oldest.2)
                   (ts_diff / 60)) in
    let v :=
      match vrate ac with
      | Some old_vrate =>
          if negb (old_vrate =? 0)%Z && Qltb (first_seen - vrate_time ac) 15
          then py_int (inject_Z old_vrate + 0.3 * (new_vrate - inject_Z old_vrate))
          else py_int new_vrate
      | None => py_int new_vrate
      end in
    let ac := set_vrate (Some v) ac in
    let* _ := store_ac address ac in
    let ac := set_vrate_time first_seen ac in
    let* _ := store_ac address ac in
    ret ac
  else ret ac.

(** The body of the altitude update. *)
Definition accept_altitude (address : Z) (first_seen : Q)
    (decoded_altitude : Z) (ac : Aircraft) : M Aircraft :=
  let* (ac, new_hist) := rebuild_history address first_seen decoded_altitude ac in
  update_vrate address first_seen decoded_altitude new_hist ac.

(** Altitude, squawk and callsign carried by the message. *)
Definition update_from_message (address : Z) (first_seen : Q)
    (decoded : Decoded) (ac : Aircraft) : M Aircraft :=
  let* ac :=
    match d_altitude decoded with
    | Some a =>
        if (-1500 <? a)%Z && (a <? 75000)%Z then
          let* ok := altitude_accepted first_seen a ac in
          if ok then accept_altitude address first_seen a ac else ret ac
        else ret ac
    | None => ret ac
    end in
  let* ac :=
    match d_squawk decoded with
    | Some s =>
        let ac := set_squawk (Some s) ac in
        let* _ := store_ac address ac in
        ret ac
    | None => ret ac
    end in
  match d_callsign decoded with
  | Some s =>
      let ac := set_callsign (Some s) ac in
      let* _ := store_ac address ac in
      ret ac
  | None => ret ac
  end.

(** find old result, if present *)
Definition find_prior (first_seen : Q) (ac : Aircraft) : prior :=
  match last_result_position ac with
  | None =>
      {| p_position := None; p_var := 1000000000; p_dof := 0;
         p_time := first_seen - 120 |}
  | Some pos =>
      if Qgtb (first_seen - last_result_time ac) 120 then
        {| p_position := None; p_var := 1000000000; p_dof := 0;
           p_time := first_seen - 120 |}
      else
        {| p_position := Some pos; p_var := last_result_var ac;
           p_dof := last_result_dof ac; p_time := last_result_time ac |}
  end.

(** find altitude: [(altitude, altitude_dof)] *)
Definition find_altitude (first_seen : Q) (ac : Aircraft)
    : M (option Q * Z) :=
  match altitude ac with
  | None => ret (None, 0%Z)
  | Some a =>
      if Qltb (inject_Z a) (MIN_ALT E) || Qgtb (inject_Z a) (MAX_ALT E)
      then ret (None, 0%Z)
      else
        let* t := number (last_altitude_time ac) in
        if Qgtb first_seen (t + 45) then ret (None, 0%Z)
        else ret (Some (inject_Z a * FTOM E), 1%Z)
  end.

(** elapsed < ... and dof < last_result_dof - elapsed + 0.5 *)
Definition too_soon (limit elapsed : Q) (dof last_result_dof : Z) : bool :=
  Qltb elapsed limit &&
  Qltb (inject_Z dof) (inject_Z last_result_dof - elapsed + 0.5).

(** The loop [while clusters and not result].  [stack] is the sorted list
    [clusters] read from its end: [clusters.pop()] takes the head of
    [stack]. *)
Fixpoint select_cluster (decoded : Decoded) (ac : Aircraft)
    (altitude : option Q) (altitude_dof : Z) (pr : prior)
    (stack : list Engine.cluster) : M (option solved) :=
  match stack with
  | [] => ret None
  | (distinct, cluster_utc, cluster) :: stack' =>
      let elapsed := cluster_utc - p_time pr in
      let dof := (distinct + altitude_dof - 4)%Z in
      let* _ := when (too_soon 2 elapsed dof (p_dof pr)) return_ in
      let* altitude_error :=
        match d_altitude decoded, altitude with
        | Some _, _ => ret (Some (250 * FTOM E))
        | None, Some _ =>
            let* t := number (last_altitude_time ac) in
            ret (Some ((250 + (cluster_utc - t) * 70) * FTOM E))
        | None, None => ret None
        end in
      let cluster := py_sort member_ts_leb cluster in
      if Qgtb elapsed 30 && (dof =? 0)%Z then
        select_cluster decoded ac altitude altitude_dof pr stack'
      else
        let* initial_guess :=
          if Qltb elapsed 60 then ret (p_position pr)
          else
            let* first := lift (lookup_or IndexError (cluster !! 0%nat)) in
            ret (Some (position (robj E (Engine.m_recv first)))) in
        let* _ := stats_incr "stats_solve_attempt" in
        let* _ := emit (EvSolve cluster altitude altitude_error initial_guess) in
        match solve E cluster altitude altitude_error initial_guess with
        | None => select_cluster decoded ac altitude altitude_dof pr stack'
        | Some (ecef, None) =>
            select_cluster decoded ac altitude altitude_dof pr stack'
        | Some (ecef, Some ecef_cov) =>
            let max_error := 10000 in
            let var_est := cov_trace ecef_cov in
            let error := int_sqrt (Qabs var_est) in
            if Qgtb (inject_Z error) max_error then
              select_cluster decoded ac altitude altitude_dof pr stack'
            else
              let* _ := stats_incr "stats_solve_success" in
              if Qltb (elapsed / 20) (inject_Z error / max_error) then
                select_cluster decoded ac altitude altitude_dof pr stack'
              else
                let* _ := stats_incr "stats_solve_used" in
                ret (Some {| s_ecef := ecef; s_ecef_cov := ecef_cov;
                             s_var_est := var_est; s_error := error;
                             s_elapsed := elapsed; s_dof := dof;
                             s_cluster_utc := cluster_utc;
                             s_distinct := distinct; s_cluster := cluster;
                             s_altitude_error := altitude_error |})
        end
  end.

(** for handler in self.coordinator.output_handlers: handler(...) *)
Fixpoint call_handlers (handlers : list nat) (cluster_utc : Q) (address : Z)
    (position : point) (position_cov : option cov) (receivers : list rref)
    (distinct dof : Z) (k : nat) (error : Z) : M unit :=
  match handlers with
  | [] => ret tt
  | handler :: rest =>
      let* _ := emit (EvOutput handler cluster_utc address position
                        position_cov receivers distinct dof k error) in
      call_handlers rest cluster_utc address position position_cov receivers
        distinct dof k error
  end.

(** The record written to the pseudorange file. *)
Definition write_pseudorange (file : string) (address : Z)
    (altitude : option Q) (ecef : point) (s : solved) : M unit :=
  let cluster := s_cluster s in
  let* first := lift (lookup_or IndexError (cluster !! 0%nat)) in
  let t0 := Engine.m_ts first in
  let cluster_state :=
    map (fun '(receiver, timestamp, variance) =>
           let '(x, y, z) := position (robj E receiver) in
           (py_round x 0, py_round y 0, py_round z 0,
            py_round ((timestamp - t0) * 1000000) 1,
            py_round (variance * 1000000000000) 2)) cluster in
  let '(x, y, z) := ecef in
  let '((c00, c01, c02), (c10, c11, c12), (c20, c21, c22)) := s_ecef_cov s in
  let* alt :=
    match altitude with
    | Some a =>
        let* e := number (s_altitude_error s) in
        ret (Some (py_round a 0, py_round e 0))
    | None => ret None
    end in
  emit (EvPseudorange file
          {| ps_icao := address;
             ps_time := py_round (s_cluster_utc s) 3;
             ps_ecef := (py_round x 0, py_round y 0, py_round z 0);
             ps_distinct := s_distinct s;
             ps_dof := s_dof s;
             ps_cluster := cluster_state;
             ps_ecef_cov :=
               Some ((py_round c00 0, py_round c01 0, py_round c02 0),
                     (py_round c10 0, py_round c11 0, py_round c12 0),
                     (py_round c20 0, py_round c21 0, py_round c22 0));
             ps_altitude := alt |}).

(** What [_resolve] does with the result it accepted. *)
Definition publish (g : MessageGroup) (address : Z) (ac : Aircraft)
    (altitude : option Q) (s : solved) : M unit :=
  let ecef := s_ecef s in
  let ecef_cov := Some (s_ecef_cov s) in
  let ac := set_last_result_position (Some ecef) ac in
  let* _ := store_ac address ac in
  let ac := set_last_result_var (s_var_est s) ac in
  let* _ := store_ac address ac in
  let ac := set_last_result_dof (s_dof s) ac in
  let* _ := store_ac address ac in
  let ac := set_last_result_time (s_cluster_utc s) ac in
  let* _ := store_ac address ac in
  let ac := set_mlat_result_count (mlat_result_count ac + 1)%Z ac in
  let* _ := store_ac address ac in
  let* ecef :=
    match altitude with
    | Some alt =>
        let '(lat, lon, _) := ecef2llh E ecef in
        let ecef := llh2ecef E (lat, lon, alt) in
        let* _ := emit (EvKalman (kalman ac) (s_cluster_utc s) (s_cluster s)
                          alt (KErr (s_altitude_error s)) ecef ecef_cov
                          (s_distinct s) (s_dof s)) in
        let* _ :=
          when (kalman_update E (kalman ac) (s_cluster_utc s) (s_cluster s)
                  alt (KErr (s_altitude_error s)) ecef ecef_cov
                  (s_distinct s) (s_dof s))
            (store_ac address
               (set_mlat_kalman_count (mlat_kalman_count ac + 1)%Z ac)) in
        ret ecef
    | None =>
        let '(_, _, solved_alt) := ecef2llh E ecef in
        let* _ := when (s_dof s + 1 <? 0)%Z (raise ValueError) in
        let* _ := when (s_dof s + 1 =? 0)%Z (raise ZeroDivisionError) in
        let* _ := emit (EvKalman (kalman ac) (s_cluster_utc s) (s_cluster s)
                          solved_alt (KErrSolved (s_dof s)) ecef ecef_cov
                          (s_distinct s) (s_dof s)) in
        let* _ :=
          when (kalman_update E (kalman ac) (s_cluster_utc s) (s_cluster s)
                  solved_alt (KErrSolved (s_dof s)) ecef ecef_cov
                  (s_distinct s) (s_dof s))
            (store_ac address
               (set_mlat_kalman_count (mlat_kalman_count ac + 1)%Z ac)) in
        ret ecef
    end in
  let* _ := call_handlers (output_handlers E) (s_cluster_utc s) address ecef
              ecef_cov (map Engine.m_recv (s_cluster s)) (s_distinct s)
              (s_dof s) (kalman ac) (s_error s) in
  let* _ := emit (EvForward (s_cluster_utc s) address ecef ecef_cov
                    (elements (g_receivers g)) (s_distinct s) (s_dof s)
                    (kalman ac) (s_error s)) in
  let* file := gets pseudorange_file in
  match file with
  | Some name => write_pseudorange name address altitude ecef s
  | None => ret tt
  end.

(** for component in components: ... clusters.extend(...) *)
Fixpoint cluster_components (min_component_size : Z)
    (components : list Engine.component) (clusters : list Engine.cluster)
    : outcome (list Engine.cluster) :=
  match components with
  | [] => Ok clusters
  | component :: rest =>
      if (min_component_size <=? Z.of_nat (length component))%Z then
        obind (Engine._cluster_timestamps (Cair E) (robj E) component
                 min_component_size)
          (fun found =>
             cluster_components min_component_size rest (clusters ++ found))
      else cluster_components min_component_size rest clusters
  end.

Definition _resolve (group : gref) : M unit :=
  call (
    let* g := deref group_store group in
    (* del self.pending[group.message] *)
    let* present := gets (fun w => pending w !! g_message g) in
    let* _ :=
      match present with
      | Some _ =>
          modify (fun w => set_pending (delete (g_message g) (pending w)) w)
      | None => raise KeyError
      end in
    let* _ := when (Z.of_nat (length (g_copies g)) <? 3)%Z return_ in
    let* decoded := or_return (decode E (g_message g)) in
    let* address := or_return (d_address decoded) in
    let* _ := when (address =? 0)%Z return_ in
    let* found := gets (fun w => aircraft w !! address) in
    let* ac := or_return found in
    let* now := time_now E in
    let ac := set_seen now ac in
    let* _ := store_ac address ac in
    let ac := set_mlat_message_count (mlat_message_count ac + 1)%Z ac in
    let* _ := store_ac address ac in
    let* _ := stats_incr "stats_valid_groups" in
    let* _ := when (negb (allow_mlat ac))
                (let* _ := log "not doing mlat, wrong partition!" in
                 return_) in
    let first_seen := g_first_seen g in
    let* ac := update_from_message address first_seen decoded ac in
    let* _ := when (Qltb (now - last_resolve_attempt ac) (RESOLVE_INTERVAL E))
                return_ in
    let ac := set_last_resolve_attempt now ac in
    let* _ := store_ac address ac in
    let pr := find_prior first_seen ac in
    let elapsed := first_seen - p_time pr in
    let elapsed := if Qltb elapsed 0 then 0 else elapsed in
    let* _ := when (Qltb elapsed (RESOLVE_BACKOFF E)) return_ in
    let* (altitude, altitude_dof) := find_altitude first_seen ac in
    let len_copies := Z.of_nat (length (g_copies g)) in
    let max_dof := (len_copies + altitude_dof - 4)%Z in
    let* _ := when (max_dof <? 0)%Z return_ in
    let* _ := when (too_soon (2 * RESOLVE_BACKOFF E) elapsed max_dof (p_dof pr))
                return_ in
    let timestamp_map :=
      foldl (fun tm '(receiver, timestamp, utc) =>
               timestamp_map_add receiver (timestamp, utc) tm)
            [] (g_copies g) in
    let dof := (Z.of_nat (length timestamp_map) + altitude_dof - 4)%Z in
    let* _ := when (dof <? 0)%Z return_ in
    let* _ := when (too_soon (2 * RESOLVE_BACKOFF E) elapsed dof (p_dof pr))
                return_ in
    let* _ := stats_incr "stats_normalize" in
    let* components :=
      match normalize2 E timestamp_map with
      | Some components => ret components
      | None =>
          let* _ := emit EvTraceback in
          return_
      end in
    let min_component_size := (4 - altitude_dof)%Z in
    let* clusters := lift (cluster_components min_component_size components []) in
    let* _ := when (bool_decide (clusters = [])) return_ in
    let clusters := py_sort cluster_key_leb clusters in
    let* result :=
      select_cluster decoded ac altitude altitude_dof pr (reverse clusters) in
    let* s := or_return result in
    publish g address ac altitude s).

(** Cohort._process: [group.handle(group) for group in self.groups] *)
Fixpoint process_groups (groups : list gref) : M unit :=
  match groups with
  | [] => ret tt
  | group :: rest =>
      let* g := deref group_store group in
      let* _ :=
        match g_handle g with
        | Some Resolve => _resolve group
        | None => raise TypeError
        end in
      process_groups rest
  end.

Definition Cohort_process (c : cref) : M unit :=
  call (
    let* co := deref cohort_store c in
    process_groups (c_groups co)).

End Resolve.

(** ** The event loop *)

Section Loop.
Local Open Scope world_scope.

Variable E : Env.

(** A timer set by [loop.call_later] expires: the cohort is processed. *)
Definition fire_timer (timer : nat) : M unit :=
  let* found := gets (fun w => timers w !! timer) in
  match found with
  | None => ret tt
  | Some (_, c) =>
      let* _ := modify (fun w => set_timers (delete timer (timers w)) w) in
      Cohort_process E c
  end.

(** Observations [(receiver, timestamp, message, now)] handed to
    [receiver_mlat] one after the other. *)
Fixpoint feed (obs : list (rref * Q * string * Q)) : M unit :=
  match obs with
  | [] => ret tt
  | (receiver, timestamp, message, now) :: rest =>
      let* _ := receiver_mlat E receiver timestamp message now in
      feed rest
  end.

Definition obs_message (o : rref * Q * string * Q) : string :=
  let '(_, _, message, _) := o in message.
Definition obs_now (o : rref * Q * string * Q) : Q :=
  let '(_, _, _, now) := o in now.

(** Before [MlatTracker.__init__] there are no groups, cohorts or
    timers. *)
Definition blank (w : World) : Prop :=
  group_store w = ∅ /\ cohort_store w = ∅ /\ timers w = ∅.

(** What the collaborators may change between two calls: everything but
    the tracker's own objects. *)
Definition outside (w w' : World) : Prop :=
  pending w' = pending w /\ cohort w' = cohort w /\
  blacklist w' = blacklist w /\ pseudorange_file w' = pseudorange_file w /\
  group_store w' = group_store w /\ cohort_store w' = cohort_store w /\
  timers w' = timers w.

(** The worlds the tracker can be in. *)
Inductive reachable : World -> Prop :=
  | reach_init w0 o w :
      blank w0 -> MlatTracker_init E w0 = (o, w) -> reachable w
  | reach_mlat w receiver timestamp message now o w' :
      reachable w ->
      receiver_mlat E receiver timestamp message now w = (o, w') ->
      reachable w'
  | reach_timer w timer o w' :
      reachable w -> fire_timer timer w = (o, w') -> reachable w'
  | reach_blacklist w o w' :
      reachable w -> read_blacklist E w = (o, w') -> reachable w'
  | reach_reopen w o w' :
      reachable w -> reopen_pseudoranges E w = (o, w') -> reachable w'
  | reach_outside w w' :
      reachable w -> outside w w' -> reachable w'.

(** The group of [message] is in the list of groups of cohort [c]. *)
Definition placed_in (w : World) (message : string) (c : cref) : Prop :=
  exists group co,
    pending w !! message = Some group /\
    cohort_store w !! c = Some co /\
    group ∈ c_groups co.

(** The bound on the copies of a group, and its set of receivers. *)
Definition group_ok (g : MessageGroup) : Prop :=
  (Z.of_nat (length (g_copies g)) <= MAX_GROUP E + 1)%Z /\
  forall receiver timestamp utc,
    (receiver, timestamp, utc) ∈ g_copies g -> receiver ∈ g_receivers g.

Definition groups_ok (w : World) : Prop :=
  map_Forall (fun _ g => group_ok g) (group_store w).

End Loop.

(** The samples of the altitude history that the update keeps. *)
Definition recent (first_seen : Q) (x : Q * Z) : bool :=
  Qltb (first_seen - x.1) 20.

(** What the cluster loop has checked of a result it accepts. *)
Definition accepted_ok (pr : prior) (s : solved) : Prop :=
  s_var_est s = cov_trace (s_ecef_cov s) /\
  s_error s = int_sqrt (Qabs (s_var_est s)) /\
  s_elapsed s = (s_cluster_utc s - p_time pr)%Q /\
  (inject_Z (s_error s) <= 10000)%Q /\
  (inject_Z (s_error s) / 10000 <= s_elapsed s / 20)%Q.

(** The last result of [ac'] is not older than that of [ac]. *)
Definition result_time_le (ac ac' : Aircraft) : Prop :=
  is_Some (last_result_position ac) ->
  is_Some (last_result_position ac') /\
  (last_result_time ac <= last_result_time ac')%Q.

(** A step that mutates the aircraft object at [address] only, and not
    its last result; when it returns an aircraft it is the one stored. *)
Definition ac_updated {A} (address : Z) (ac : Aircraft) (get : A -> Aircraft)
    (w : World) (o : outcome A) (w' : World) : Prop :=
  exists ac',
    aircraft w' = <[address := ac']> (aircraft w) /\
    last_result_position ac' = last_result_position ac /\
    last_result_time ac' = last_result_time ac /\
    forall r, o = Ok r -> get r = ac'.

(** ** Reasoning about computations *)

(** [wp m w Q]: running [m] in the world [w] ends in an outcome and a world
    that satisfy [Q]. *)
Definition wp {A} (m : M A) (w : World) (Q : outcome A -> World -> Prop)
    : Prop :=
  Q (m w).1 (m w).2.

(** [m] relates every world to the world it leaves behind by [R], whatever
    the outcome. *)
Definition preserves {A} (R : World -> World -> Prop) (m : M A) : Prop :=
  forall w, R w (m w).2.

(** The group objects are the same. *)
Definition same_groups (w w' : World) : Prop :=
  group_store w' = group_store w.

(** The aircraft objects are the same. *)
Definition same_aircraft (w w' : World) : Prop :=
  aircraft w' = aircraft w.

(** What [_resolve] leaves alone once it has removed the group from the
    pending map: the tracker's own attributes and objects. *)
Definition same_objects (w w' : World) : Prop :=
  group_store w' = group_store w /\ cohort_store w' = cohort_store w /\
  cohort w' = cohort w /\ timers w' = timers w /\
  blacklist w' = blacklist w /\ pseudorange_file w' = pseudorange_file w /\
  pending w' = pending w.

(** ** Sample data

    A small installation on which the definitions above can be run: six
    receivers ten kilometres apart, one aircraft with a result 25 seconds
    old, one message seen by four receivers, and a solver that answers
    with a fixed position and covariance. *)

Definition sample_obj (r : rref) : Receiver :=
  {| uid := Z.of_nat r;
     distance := list_to_map ((fun u => (Z.of_nat u, 10000%Q)) <$> seq 0 6);
     position := (inject_Z (Z.of_nat r), 0%Q, 0%Q) |}.

Definition sample_component : Engine.component :=
  [ (1%nat, (1%Q, [(10.00001, 1000.1); (10.5, 1000.6)]%Q));
    (2%nat, (1%Q, [(10.00002, 1000.05)]%Q));
    (3%nat, (1%Q, [(10, 1000.2)]%Q)) ].

(** The same component as objects: the dictionary at 0, the timestamp
    lists at 1, 2 and 3, and a list that is no part of it at 4. *)
Definition sample_heap : gmap nat HeapEngine.obj :=
  list_to_map
    [ (0%nat, HeapEngine.ODict [(1%nat, (1%Q, 1%nat)); (2%nat, (1%Q, 2%nat));
                                (3%nat, (1%Q, 3%nat))]);
      (1%nat, HeapEngine.OTimes [(10.00001, 1000.1); (10.5, 1000.6)]%Q);
      (2%nat, HeapEngine.OTimes [(10.00002, 1000.05)]%Q);
      (3%nat, HeapEngine.OTimes [(10, 1000.2)]%Q);
      (4%nat, HeapEngine.OItems [(1%nat, 10, 1, 1000)]%Q) ].

(** The covariance the sample solver reports: its trace is 100010000, the
    square of a little more than 10000.49. *)
Definition sample_cov : cov :=
  ((100010000, 0, 0), (0, 0, 0), (0, 0, 0))%Q.

Definition sample_decoded : Decoded :=
  {| d_address := Some 1%Z; d_altitude := None; d_squawk := None;
     d_callsign := None |}.

Definition sample_env (max_group : Z) (blacklist_file : option string)
    (files : string -> file_status) : Env :=
  {| MLAT_DELAY := 0.2;
     MAX_GROUP := max_group;
     RESOLVE_INTERVAL := 0;
     RESOLVE_BACKOFF := 5;
     MIN_ALT := -1500;
     MAX_ALT := 75000;
     FTOM := 0.3048;
     Cair := 299702547;
     blacklist_filename := blacklist_file;
     pseudorange_filename := None;
     output_handlers := [0%nat];
     robj := sample_obj;
     time_time := fun _ => 1000%Q;
     open_file := files;
     decode := fun _ => Some sample_decoded;
     normalize2 := fun timestamp_map =>
       Some [(fun '(receiver, timestamps) => (receiver, (1%Q, timestamps)))
               <$> timestamp_map];
     solve := fun _ _ _ _ => Some ((1, 2, 3)%Q, Some sample_cov);
     ecef2llh := fun p => p;
     llh2ecef := fun p => p;
     kalman_update := fun _ _ _ _ _ _ _ _ _ => true |}.

Definition no_files (name : string) : file_status := NoSuchFile.

Definition sample_aircraft : Aircraft :=
  {| icao := 1; allow_mlat := true; seen := 975;
     mlat_message_count := 0; mlat_result_count := 1;
     mlat_kalman_count := 0;
     altitude := None; last_altitude_time := None; alt_history := 0%nat;
     vrate := None; vrate_time := 0; squawk := None; callsign := None;
     last_resolve_attempt := 975;
     last_result_position := Some (1, 2, 3)%Q;
     last_result_var := 100; last_result_dof := 0;
     last_result_time := 975; kalman := 0%nat |}.

Definition sample_group : MessageGroup :=
  {| g_message := "A";
     g_first_seen := 1000;
     g_copies := [(1%nat, 10.00001, 1000); (2%nat, 10.00002, 1000);
                  (3%nat, 10, 1000); (4%nat, 10.000015, 1000)]%Q;
     g_receivers := {[1%nat; 2%nat; 3%nat; 4%nat]};
     g_handle := Some Resolve |}.

(** The world before [MlatTracker.__init__]. *)
Definition empty_world : World :=
  {| pending := ∅; cohort := 0%nat; blacklist := ∅;
     pseudorange_file := None; group_store := ∅; cohort_store := ∅;
     hist_store := ∅; stats := ∅; aircraft := ∅; timers := ∅;
     time_calls := 0%nat; trace := [] |}.

(** One cohort that holds one group, and one aircraft. *)
Definition sample_world : World :=
  {| pending := {["A" := 0%nat]}; cohort := 0%nat; blacklist := ∅;
     pseudorange_file := None;
     group_store := {[0%nat := sample_group]};
     cohort_store :=
       {[0%nat := {| c_creationTime := 1000; c_len := 1;
                     c_groups := [0%nat]; c_handle := 0%nat |}]};
     hist_store := {[0%nat := [(990%Q, 30000%Z)]]};
     stats := ∅;
     aircraft := {[1%Z := sample_aircraft]};
     timers := {[0%nat := (0.2%Q, 0%nat)]};
     time_calls := 0%nat; trace := [] |}.

(** The [n] first of the messages "A", "B", "C", ..., each seen once by
    receiver 1, ten milliseconds after the time 1000. *)
Definition sample_obs (n : nat) : list (rref * Q * string * Q) :=
  (fun i => (1%nat, 10%Q,
             String (Ascii.ascii_of_nat (65 + i)) EmptyString, 1000.01%Q))
    <$> seq 0 n.

(** A text whose first line is empty and whose second line is "alice". *)
Definition sample_text : string :=
  String (Ascii.ascii_of_N 10)
    ("alice" ++ String (Ascii.ascii_of_N 10) EmptyString).

Definition sample_files (name : string) : file_status :=
  if String.eqb name "blacklist.txt" then Text sample_text else NoSuchFile.

(** The clusters of the sample component with three receivers asked
    for. *)
Definition sample_clusters : list Engine.cluster :=
  [(3%Z, 1000.05%Q,
    [(3%nat, 10, 1); (1%nat, 10.00001, 1); (2%nat, 10.00002, 1)]%Q)].

Definition sample_E : Env := sample_env 20 None no_files.

(** The world that [MlatTracker.__init__] leaves. *)
Definition sample_start : World := (MlatTracker_init sample_E empty_world).2.

(** A result with one degree of freedom, one second before the cluster
    at 976. *)
Definition sample_prior : prior :=
  {| p_position := Some (1, 2, 3)%Q; p_var := 100; p_dof := 1;
     p_time := 975 |}.

(** ** Further vocabulary for the cluster engine *)

Module EngineProps.
Import Engine.

Definition item_recv (t : item) : rref :=
  let '(receiver, _, _, _) := t in receiver.
Definition item_utc (t : item) : Q := let '(_, _, _, utc) := t in utc.

(** Every receiver of the component has, in its [distance] table, an
    entry for the [uid] of every other receiver of the component. *)
Definition tables_total (obj : rref -> Receiver) (component : component)
    : Prop :=
  forall a b,
    a ∈ flatten component -> b ∈ flatten component ->
    item_recv a <> item_recv b ->
    is_Some (distance (obj (item_recv a)) !! uid (obj (item_recv b))).

(** The cluster [c] is made of the items [used], in this order:
    [distinct] counts at least one and at most all of them, and
    [first_seen] is the earliest of their UTC times. *)
Definition made_of (used : list item) (c : cluster) : Prop :=
  let '(distinct, first_seen, members) := c in
  members = item_member <$> used /\
  (1 <= distinct <= Z.of_nat (length used))%Z /\
  Forall (fun t => (first_seen <= item_utc t)%Q) used /\
  Exists (fun t => item_utc t = first_seen) used.

(** Timestamps in ascending order. *)
Definition ts_ascending (members : list member) : Prop :=
  StronglySorted (fun a b => (m_ts a <= m_ts b)%Q) members.

(** The exceptions a computation may end in. *)
Definition ends_in {A} (allowed : exn -> Prop) (o : outcome A) : Prop :=
  match o with
  | Ok _ => True
  | Stop (Raise e) => allowed e
  | Stop _ => False
  end.

End EngineProps.

(** ** The tracker at work *)

Section Running.
Local Open Scope Q_scope.

Variable E : Env.

(** [MlatTracker.__init__] returned. *)
Definition started (w : World) : Prop :=
  exists w0, blank w0 /\ MlatTracker_init E w0 = (Ok tt, w).

(** One event of the tracker's life, whatever its outcome. *)
Inductive tracker_step : World -> World -> Prop :=
  | step_mlat w receiver timestamp message now o w' :
      receiver_mlat E receiver timestamp message now w = (o, w') ->
      tracker_step w w'
  | step_timer w timer o w' :
      fire_timer E timer w = (o, w') -> tracker_step w w'
  | step_blacklist w o w' :
      read_blacklist E w = (o, w') -> tracker_step w w'
  | step_reopen w o w' :
      reopen_pseudoranges E w = (o, w') -> tracker_step w w'
  | step_outside w w' : outside w w' -> tracker_step w w'.

(** The worlds of a tracker that was constructed. *)
Definition running (w : World) : Prop :=
  exists w1, started w1 /\ rtc tracker_step w1 w.

End Running.

(** The current cohort exists; [len] counts the groups of a cohort, which
    are at most 26 and all different; every group of a cohort exists, has
    its callback, and was first seen not later than 50 ms after the
    cohort was created. *)
Definition cohorts_ok (w : World) : Prop :=
  is_Some (cohort_store w !! cohort w) /\
  forall c co, cohort_store w !! c = Some co ->
    c_len co = Z.of_nat (length (c_groups co)) /\
    (c_len co <= 26)%Z /\
    NoDup (c_groups co) /\
    forall g, g ∈ c_groups co ->
      exists G, group_store w !! g = Some G /\
                g_handle G = Some Resolve /\
                (g_first_seen G - c_creationTime co <= 0.05)%Q.

(** The pending map is keyed by the message of the group; the groups of a
    cohort whose timer has not expired are pending; no group is in two
    cohorts. *)
Definition pending_ok (w : World) : Prop :=
  (forall m g, pending w !! m = Some g ->
     exists G, group_store w !! g = Some G /\ g_message G = m) /\
  (forall t d c, timers w !! t = Some (d, c) ->
     exists co, cohort_store w !! c = Some co /\ c_handle co = t /\
       forall g, g ∈ c_groups co ->
         exists G, group_store w !! g = Some G /\
                   pending w !! g_message G = Some g) /\
  (forall c c' co co' g,
     cohort_store w !! c = Some co -> cohort_store w !! c' = Some co' ->
     g ∈ c_groups co -> g ∈ c_groups co' -> c = c').

(** What [_resolve] keeps of the tracker: its objects and attributes; of
    the pending map it can only remove keys. *)
Definition tracker_kept (w w' : World) : Prop :=
  group_store w' = group_store w /\ cohort_store w' = cohort_store w /\
  cohort w' = cohort w /\ timers w' = timers w /\
  blacklist w' = blacklist w /\ pseudorange_file w' = pseudorange_file w /\
  pending w' ⊆ pending w.

(** The attributes of a group that [receiver_mlat] sets once. *)
Definition same_identity (G G' : MessageGroup) : Prop :=
  g_message G' = g_message G /\ g_first_seen G' = g_first_seen G /\
  g_handle G' = g_handle G.

(** A call of [receiver_mlat] for a message that is pending. *)
Definition mlat_hit (message : string) (w w' : World) : Prop :=
  exists g G G',
    pending w !! message = Some g /\ group_store w !! g = Some G /\
    group_store w' = <[g := G']> (group_store w) /\ same_identity G G' /\
    pending w' = pending w /\ cohort w' = cohort w /\
    cohort_store w' = cohort_store w /\ timers w' = timers w.

(** A call of [receiver_mlat] for a message that is not pending. *)
Definition mlat_miss (E : Env) (message : string) (now : Q) (w w' : World)
    : Prop :=
  let g := fresh (dom (group_store w)) in
  let c' := fresh (dom (cohort_store w)) in
  let t' := fresh (dom (timers w)) in
  pending w !! message = None /\
  exists co G',
    cohort_store w !! cohort w = Some co /\
    group_store w' = <[g := G']> (group_store w) /\
    g_message G' = message /\ g_first_seen G' = now /\
    g_handle G' = Some Resolve /\
    pending w' = <[message := g]> (pending w) /\
    if Qgtb (now - c_creationTime co) 0.05 || (25 <? c_len co)%Z then
      cohort w' = c' /\
      cohort_store w' =
        <[c' := {| c_creationTime := now; c_len := 1; c_groups := [g];
                   c_handle := t' |}]> (cohort_store w) /\
      timers w' = <[t' := (MLAT_DELAY E, c')]> (timers w)
    else
      cohort w' = cohort w /\
      cohort_store w' =
        <[cohort w := {| c_creationTime := c_creationTime co;
                         c_len := c_len co + 1;
                         c_groups := c_groups co ++ [g];
                         c_handle := c_handle co |}]> (cohort_store w) /\
      timers w' = timers w.

(** What [read_blacklist] and [reopen_pseudoranges] leave alone: the
    batcher's attributes and objects. *)
Definition same_batcher (w w' : World) : Prop :=
  pending w' = pending w /\ cohort w' = cohort w /\
  group_store w' = group_store w /\ cohort_store w' = cohort_store w /\
  timers w' = timers w.

(** Every group of [gs] is in [gs'], with the attributes that
    [receiver_mlat] sets once. *)
Definition groups_extend (gs gs' : gmap gref MessageGroup) : Prop :=
  forall g G, gs !! g = Some G ->
    exists G', gs' !! g = Some G' /\ same_identity G G'.

(** ** Further vocabulary for [_resolve] *)

(** The address that the message of [group] decodes to. *)
Definition decoded_address (E : Env) (w : World) (group : gref) : option Z :=
  match group_store w !! group with
  | Some G =>
      match decode E (g_message G) with
      | Some decoded => d_address decoded
      | None => None
      end
  | None => None
  end.

(** No aircraft was added or removed, and all but the one at [address]
    are what they were. *)
Definition aircraft_kept (address : option Z) (w w' : World) : Prop :=
  dom (aircraft w') = dom (aircraft w) /\
  forall a, address <> Some a -> aircraft w' !! a = aircraft w !! a.

(** The group gives [_resolve] nothing to work on: fewer than three
    copies, a message that does not decode or has no address, or an
    aircraft that the tracker does not know. *)
Definition nothing_to_resolve (E : Env) (w : World) (G : MessageGroup)
    : Prop :=
  (length (g_copies G) < 3)%nat \/
  match decode E (g_message G) with
  | None => True
  | Some decoded =>
      match d_address decoded with
      | None => True
      | Some address => address = 0%Z \/ aircraft w !! address = None
      end
  end.

(** The exception that a computation on the world ends in, if any, is
    among the [allowed] ones. *)
Definition may_raise {A} (allowed : exn -> Prop) (o : outcome A) : Prop :=
  match o with
  | Stop (Raise e) => allowed e
  | _ => True
  end.

Definition raises_only {A} (allowed : exn -> Prop) (m : M A) : Prop :=
  forall w, may_raise allowed (m w).1.

(** Neither a ValueError nor, unless [constants.Cair] is zero, a
    ZeroDivisionError. *)
Definition no_math_error (E : Env) (e : exn) : Prop :=
  e <> ValueError /\ (e = ZeroDivisionError -> (Cair E == 0)%Q).

(** ** The counters *)

(** The value of [self.coordinator.<name>]. *)
Definition stat (w : World) (name : string) : Z :=
  default 0%Z (stats w !! name).

(** Neither a counter nor an aircraft has changed. *)
Definition same_counts (w w' : World) : Prop :=
  stats w' = stats w /\ aircraft w' = aircraft w.

(** What the cluster loop counts: every result it uses was a success,
    every success an attempt, and it uses one result exactly when it
    returns one. *)
Definition solve_counts (w : World) (o : outcome (option solved))
    (w' : World) : Prop :=
  let d name := (stat w' name - stat w name)%Z in
  aircraft w' = aircraft w /\
  (forall name,
      name ∉ ["stats_solve_attempt"; "stats_solve_success";
              "stats_solve_used"] ->
      stats w' !! name = stats w !! name) /\
  d "stats_solve_used" = match o with Ok (Some _) => 1%Z | _ => 0%Z end /\
  (d "stats_solve_used" <= d "stats_solve_success"
   <= d "stats_solve_attempt")%Z.

(** What one call of [_resolve] counts, on the coordinator and on the
    aircraft at [address]. *)
Definition resolve_counts (address : option Z) (w w' : World) : Prop :=
  let d name := (stat w' name - stat w name)%Z in
  (forall name,
      name ∉ ["stats_valid_groups"; "stats_normalize";
              "stats_solve_attempt"; "stats_solve_success";
              "stats_solve_used"] ->
      stats w' !! name = stats w !! name) /\
  (0 <= d "stats_solve_used" <= 1)%Z /\
  (d "stats_solve_used" <= d "stats_solve_success"
   <= d "stats_solve_attempt")%Z /\
  (0 <= d "stats_normalize" <= d "stats_valid_groups")%Z /\
  (d "stats_valid_groups" <= 1)%Z /\
  (0 < d "stats_solve_attempt" -> d "stats_normalize" = 1)%Z /\
  match address with
  | Some a =>
      match aircraft w !! a, aircraft w' !! a with
      | Some ac, Some ac' =>
          (mlat_message_count ac' - mlat_message_count ac
           = d "stats_valid_groups")%Z /\
          (mlat_result_count ac' - mlat_result_count ac
           = d "stats_solve_used")%Z /\
          (0 <= mlat_kalman_count ac' - mlat_kalman_count ac
           <= d "stats_solve_used")%Z
      | None, None => d "stats_valid_groups" = 0%Z
      | _, _ => False
      end
  | None => d "stats_valid_groups" = 0%Z
  end.

(** A step that mutates the aircraft object at [address] only, and
    neither its counters nor those of the coordinator; when it returns an
    aircraft it is the one stored. *)
Definition counts_updated {A} (address : Z) (ac : Aircraft)
    (get : A -> Aircraft) (w : World) (o : outcome A) (w' : World) : Prop :=
  stats w' = stats w /\
  exists ac',
    aircraft w' = <[address := ac']> (aircraft w) /\
    mlat_message_count ac' = mlat_message_count ac /\
    mlat_result_count ac' = mlat_result_count ac /\
    mlat_kalman_count ac' = mlat_kalman_count ac /\
    forall r, o = Ok r -> get r = ac'.

(** ** What is handed out *)

(** A call of an output handler or of [coordinator.forward_results]. *)
Definition is_result (e : event) : bool :=
  match e with
  | EvOutput _ _ _ _ _ _ _ _ _ _ => true
  | EvForward _ _ _ _ _ _ _ _ _ => true
  | _ => false
  end.

Definition result_calls (evs : list event) : list event :=
  filter (fun e => is_result e = true) evs.

(** Between [w] and [w'] no result was handed out. *)
Definition quiet (w w' : World) : Prop :=
  exists evs, trace w' = trace w ++ evs /\ result_calls evs = [].

(** What a call of [_resolve] on [group] hands out between [w] and [w']:
    nothing, or one result, to every output handler and then to
    [coordinator.forward_results]. *)
Definition resolve_results (E : Env) (group : gref) (w w' : World) : Prop :=
  exists evs,
    trace w' = trace w ++ evs /\
    (result_calls evs = [] \/
     exists G address ac cluster_utc position position_cov cluster_receivers
            distinct dof k error,
       group_store w !! group = Some G /\
       (3 <= length (g_copies G))%nat /\
       decoded_address E w group = Some address /\
       address <> 0%Z /\
       aircraft w !! address = Some ac /\
       allow_mlat ac = true /\
       result_calls evs
       = map (fun handler =>
                EvOutput handler cluster_utc address position
                  (Some position_cov) cluster_receivers distinct dof k error)
             (output_handlers E)
         ++ [EvForward cluster_utc address position (Some position_cov)
               (elements (g_receivers G)) distinct dof k error] /\
       (3 <= distinct)%Z /\
       (0 <= dof)%Z /\ (distinct - 4 <= dof <= distinct - 3)%Z /\
       (0 <= error <= 10000)%Z).

(** The messages of the groups [groups]. *)
Definition messages_of (w : World) (groups : list gref) : list string :=
  omap (fun g => g_message <$> group_store w !! g) groups.

(** Three copies of the message "A" and one of "B", and an aircraft
    whose altitude is set although its [last_altitude_time] is None. *)
Definition sample_stuck_obs : list (rref * Q * string * Q) :=
  [(1%nat, 10, "A", 1000.01); (2%nat, 10, "A", 1000.01);
   (3%nat, 10, "A", 1000.01); (1%nat, 10, "B", 1000.02)]%Q.

Definition sample_stuck_world : World :=
  set_aircraft {[1%Z := set_altitude (Some 30000%Z) sample_aircraft]}
    (feed sample_E sample_stuck_obs sample_start).2.

(** * Part II: proofs *)

(** ** Comparisons *)

Section NumFacts.
Local Open Scope Q_scope.

Lemma Qltb_lt a b : Qltb a b = true <-> a < b.
Proof.
  unfold Qltb. rewrite negb_true_iff, <- not_true_iff_false, Qle_bool_iff.
  split; [apply Qnot_le_lt | apply Qlt_not_le].
Qed.

Lemma Qltb_ge a b : Qltb a b = false <-> b <= a.
Proof. unfold Qltb. rewrite negb_false_iff. apply Qle_bool_iff. Qed.

Lemma Qgtb_gt a b : Qgtb a b = true <-> b < a.
Proof. apply Qltb_lt. Qed.

Lemma Qgtb_le a b : Qgtb a b = false <-> a <= b.
Proof. apply Qltb_ge. Qed.

Lemma Qgeb_ge a b : Qgeb a b = true <-> b <= a.
Proof. apply Qle_bool_iff. Qed.

Lemma Qgeb_lt a b : Qgeb a b = false <-> a < b.
Proof.
  unfold Qgeb. rewrite <- not_true_iff_false, Qle_bool_iff.
  split; [apply Qnot_le_lt | apply Qlt_not_le].
Qed.
End NumFacts.

(** Linear arithmetic on rationals, with the divisions by constants
    turned into products. *)
Ltac qlra :=
  unfold Qdiv, inject_Z in *;
  repeat match goal with
         | |- context [Qinv (Qmake ?n ?d)] =>
             let v := eval vm_compute in (Qinv (Qmake n d)) in
             change (Qinv (Qmake n d)) with v in *
         | H : context [Qinv (Qmake ?n ?d)] |- _ =>
             let v := eval vm_compute in (Qinv (Qmake n d)) in
             change (Qinv (Qmake n d)) with v in *
         end;
  Lqa.lra.

(** ** The outcome monad *)

Lemma obind_Ok {A B} (m : outcome A) (k : A -> outcome B) b :
  obind m k = Ok b -> exists a, m = Ok a /\ k a = Ok b.
Proof. destruct m; simpl; [eauto | discriminate]. Qed.

Lemma lookup_or_Ok {A} e (o : option A) a : lookup_or e o = Ok a -> o = Some a.
Proof. destruct o; simpl; congruence. Qed.

Lemma py_div_Ok a b q :
  py_div a b = Ok q -> ~ (b == 0)%Q /\ q = (a / b)%Q.
Proof.
  unfold py_div. destruct (Qeq_bool b 0) eqn:E; [discriminate |].
  intros [= <-]. split; [| reflexivity].
  intros H. apply Qeq_bool_iff in H. congruence.
Qed.

(** Decompose a hypothesis [let* x := m in k = Ok b]. *)
Ltac inv_bind H :=
  let a := fresh "a" in
  let Hm := fresh "Hm" in
  apply obind_Ok in H; destruct H as (a & Hm & H).

(** ** Facts on lists *)

Section ListFacts.
Context {A : Type}.

Lemma Forall_sublist_of (P : A -> Prop) (l k : list A) :
  l `sublist_of` k -> Forall P k -> Forall P l.
Proof.
  rewrite !Forall_forall. intros Hs Hk x Hx.
  apply Hk. eapply elem_of_sublist; eauto.
Qed.

Lemma StronglySorted_sublist (R : relation A) (l k : list A) :
  l `sublist_of` k -> StronglySorted R k -> StronglySorted R l.
Proof.
  induction 1 as [| x l k Hs IH | x l k Hs IH]; intros Hk.
  - constructor.
  - apply StronglySorted_inv in Hk as [Hk Hx]. constructor; [auto |].
    eapply Forall_sublist_of; eauto.
  - apply StronglySorted_inv in Hk as [Hk _]. auto.
Qed.

Lemma StronglySorted_lookup (R : relation A) (l : list A) i j x y :
  StronglySorted R l -> (i < j)%nat ->
  l !! i = Some x -> l !! j = Some y -> R x y.
Proof.
  intros Hl. revert i j. induction Hl as [| a l Hl IH Ha]; intros i j Hij Hi Hj.
  - rewrite lookup_nil in Hi. discriminate.
  - destruct j as [| j]; [lia |]. simpl in Hj.
    destruct i as [| i]; simpl in Hi.
    + injection Hi as <-. rewrite Forall_forall in Ha. apply Ha.
      eapply list_elem_of_lookup_2; eauto.
    + eapply IH; [| eauto | eauto]. lia.
Qed.

Lemma StronglySorted_snoc (R : relation A) (l : list A) x :
  StronglySorted R l -> Forall (fun a => R a x) l ->
  StronglySorted R (l ++ [x]).
Proof.
  intros Hl Hx. apply StronglySorted_app_2; [| auto | repeat constructor].
  intros a b Ha Hb. apply list_elem_of_singleton in Hb as ->.
  rewrite Forall_forall in Hx. auto.
Qed.

Lemma StronglySorted_reverse (R : relation A) (l : list A) :
  StronglySorted R l -> StronglySorted (flip R) (reverse l).
Proof.
  induction 1 as [| a l Hl IH Ha]; [constructor |].
  rewrite reverse_cons. apply StronglySorted_snoc; [auto |].
  rewrite Forall_reverse. exact Ha.
Qed.

Lemma last_Some_snoc (l : list A) x : last l = Some x -> l = removelast l ++ [x].
Proof.
  destruct l as [| a l _] using rev_ind; [discriminate |].
  rewrite last_snoc, removelast_last. congruence.
Qed.

Lemma removelast_length (l : list A) x :
  last l = Some x -> length l = S (length (removelast l)).
Proof.
  intros H. apply last_Some_snoc in H. rewrite H at 1.
  rewrite length_app. simpl. lia.
Qed.
End ListFacts.

(** ** Sorting *)

Section SortFacts.
Context {A : Type} (leb : A -> A -> bool) (R : relation A).
Hypothesis leb_true : forall x y, leb x y = true -> R x y.
Hypothesis leb_false : forall x y, leb x y = false -> R y x.
Hypothesis R_trans : forall x y z, R x y -> R y z -> R x z.

Lemma insert_sorted_perm x l : insert_sorted leb x l ≡ₚ x :: l.
Proof.
  induction l as [| y l IH]; simpl; [reflexivity |].
  destruct (leb x y); [reflexivity |].
  rewrite IH. apply Permutation_swap.
Qed.

Lemma py_sort_perm l : py_sort leb l ≡ₚ l.
Proof.
  induction l as [| x l IH]; simpl; [reflexivity |].
  rewrite insert_sorted_perm. by constructor.
Qed.

Lemma insert_sorted_sorted x l :
  StronglySorted R l -> StronglySorted R (insert_sorted leb x l).
Proof using leb_true leb_false R_trans.
  induction 1 as [| y l Hl IH Hy]; simpl; [repeat constructor |].
  destruct (leb x y) eqn:E.
  - constructor; [by constructor |].
    constructor; [by apply leb_true |].
    eapply Forall_impl; [exact Hy |]. intros z Hz.
    eapply R_trans; [apply leb_true |]; eauto.
  - constructor; [exact IH |].
    rewrite insert_sorted_perm. constructor; [by apply leb_false | exact Hy].
Qed.

Lemma py_sort_sorted l : StronglySorted R (py_sort leb l).
Proof using leb_true leb_false R_trans.
  induction l as [| x l IH]; simpl; [constructor |].
  by apply insert_sorted_sorted.
Qed.
End SortFacts.

(** ** The cluster engine *)

Module EngineFacts.
Import Engine.
Section EngineFacts.
Local Open Scope Q_scope.

Variable Cair : Q.
Variable obj : rref -> Receiver.


Lemma flat_component_sorted (l : list item) :
  StronglySorted ts_le (py_sort ts_leb l).
Proof.
  apply py_sort_sorted; unfold ts_leb, ts_le.
  - intros x y. apply Qle_bool_iff.
  - intros x y H. apply Qlt_le_weak, Qgeb_lt. exact H.
  - intros x y z. apply Qle_trans.
Qed.

(** Every rough group is a run of consecutive items of the sorted list. *)
Lemma rough_groups_concat done group rest groups :
  rough_groups done group rest = Ok groups ->
  concat groups = concat done ++ group ++ rest.
Proof.
  revert done group. induction rest as [| t rest IH]; intros done group H; simpl in H.
  - injection H as <-. rewrite concat_app. simpl. by rewrite !app_nil_r.
  - inv_bind H. destruct (Qgtb _ _).
    + apply IH in H. rewrite H, concat_app. simpl.
      by rewrite app_nil_r, <- app_assoc.
    + apply IH in H. rewrite H. by rewrite <- app_assoc.
Qed.

Lemma rough_groups_sorted done group rest groups :
  rough_groups done group rest = Ok groups ->
  Forall (StronglySorted ts_le) done ->
  StronglySorted ts_le (group ++ rest) ->
  Forall (StronglySorted ts_le) groups.
Proof.
  revert done group. induction rest as [| t rest IH];
    intros done group H Hdone Hs; simpl in H.
  - injection H as <-. rewrite app_nil_r in Hs.
    apply Forall_app. split; [exact Hdone | by constructor].
  - inv_bind H. destruct (Qgtb _ _).
    + eapply IH; [exact H | |].
      * apply Forall_app. split; [exact Hdone |]. constructor; [| constructor].
        eapply StronglySorted_app_1_l, Hs.
      * eapply (StronglySorted_app_1_r _ group), Hs.
    + eapply IH; [exact H | exact Hdone |]. by rewrite <- app_assoc.
Qed.

(** A candidate that [check_against Cair obj] lets through is a new receiver and is
    in range of every member. *)
Lemma check_against_true receiver timestamp variance cl d0 d :
  check_against Cair obj receiver timestamp cl d0 = Ok (true, d) ->
  Forall (fun o => m_recv o <> receiver /\
                   consistent Cair obj (receiver, timestamp, variance) o) cl.
Proof.
  revert d0. induction cl as [| [[r' t'] v'] cl IH]; intros d0 H; simpl in H.
  - constructor.
  - destruct (decide (r' = receiver)) as [| Hne]; [discriminate |].
    inv_bind H. apply lookup_or_Ok in Hm.
    inv_bind H. apply py_div_Ok in Hm0 as [HC ->].
    destruct (Qgtb _ _) eqn:E; [discriminate |].
    apply Qgtb_le in E. constructor; [| eapply IH, H].
    split; [exact Hne |]. exists a. simpl. auto.
Qed.

Lemma forming_ok_snoc last_timestamp cl receiver timestamp variance :
  forming_ok Cair obj last_timestamp cl ->
  Forall (fun o => m_recv o <> receiver /\
                   consistent Cair obj (receiver, timestamp, variance) o) cl ->
  timestamp <= last_timestamp ->
  last_timestamp - timestamp <= 0.002 ->
  forming_ok Cair obj last_timestamp (cl ++ [(receiver, timestamp, variance)]).
Proof.
  intros (Hs & Hn & Hw) Hc Hle Hw'. split; [| split].
  - apply StronglySorted_snoc; [exact Hs |].
    eapply Forall_impl; [exact Hc |]. by intros o [_ ?].
  - rewrite fmap_app. apply NoDup_app. split; [exact Hn |]. split.
    + intros r Hr Hr'. apply list_elem_of_singleton in Hr'. subst r.
      apply list_elem_of_fmap in Hr as (o & Ho & Hin).
      rewrite Forall_forall in Hc. destruct (Hc o Hin) as [Hne _].
      by apply Hne.
    + apply NoDup_singleton.
  - apply Forall_app. split; [exact Hw |]. constructor; [| constructor].
    simpl. auto.
Qed.

Lemma scan_spec last_timestamp i group st group' st' :
  scan Cair obj i last_timestamp group st = Ok (group', st') ->
  Forall (fun t => item_ts t <= last_timestamp) group ->
  forming_ok Cair obj last_timestamp (f_cluster st) ->
  forming_ok Cair obj last_timestamp (f_cluster st') /\ group' `sublist_of` group.
Proof.
  revert group st. induction i as [| i IH]; intros group st H Hle Hok; simpl in H.
  - injection H as <- <-. auto.
  - inv_bind H. destruct a as [[[receiver timestamp] variance] utc].
    apply lookup_or_Ok in Hm.
    destruct (Qgtb _ _) eqn:E.
    { injection H as <- <-. auto. }
    apply Qgtb_le in E.
    inv_bind H. destruct a as [can_cluster is_distinct].
    destruct can_cluster.
    + apply IH in H as [Hok' Hsub].
      * split; [exact Hok' |]. etrans; [exact Hsub | apply sublist_delete].
      * eapply Forall_sublist_of; [apply sublist_delete | exact Hle].
      * simpl. apply forming_ok_snoc; [exact Hok | | | exact E].
        -- eapply check_against_true, Hm0.
        -- rewrite Forall_forall in Hle.
           apply (Hle (receiver, timestamp, variance, utc)).
           eapply list_elem_of_lookup_2, Hm.
    + by apply IH in H.
Qed.

Lemma forming_ok_emitted last_timestamp st mr :
  forming_ok Cair obj last_timestamp (f_cluster st) ->
  (mr <=? f_distinct_receivers st)%Z = true ->
  cluster_ok Cair obj mr (f_distinct_receivers st, f_first_seen st,
                 reverse (f_cluster st)).
Proof.
  intros (Hs & Hn & Hw) Hd. split; [| split; [| split]].
  - intros i j a b Hij Ha Hb.
    apply StronglySorted_reverse in Hs.
    exact (StronglySorted_lookup _ _ _ _ _ _ Hs Hij Ha Hb).
  - change (map m_recv) with (fmap (M:=list) m_recv).
    rewrite fmap_reverse, reverse_Permutation. exact Hn.
  - intros a b Ha Hb. rewrite elem_of_reverse in Ha, Hb.
    rewrite Forall_forall in Hw.
    destruct (Hw a Ha) as [Ha1 _]. destruct (Hw b Hb) as [_ Hb2].
  simpl in Ha1, Hb2. Lqa.lra.
  - by apply Z.leb_le.
Qed.

Lemma extract_spec mr fuel group clusters out :
  extract Cair obj fuel mr group clusters = Ok out ->
  StronglySorted ts_le group ->
  Forall (cluster_ok Cair obj mr) clusters ->
  Forall (cluster_ok Cair obj mr) out.
Proof.
  revert group clusters. induction fuel as [| fuel IH];
    intros group clusters H Hs Hc; simpl in H.
  - destruct (_ <? _)%Z; [| discriminate]. by injection H as <-.
  - destruct (_ <? _)%Z; [by injection H as <- |].
    inv_bind H. destruct a as [[[receiver timestamp] variance] utc].
    apply lookup_or_Ok in Hm. apply last_Some_snoc in Hm.
    rewrite Hm in Hs. apply StronglySorted_app in Hs as (Hle & Hs & _).
    inv_bind H. destruct a as [group' st].
    apply scan_spec in Hm0 as [Hok Hsub].
    + apply IH in H; [exact H | |].
      * eapply StronglySorted_sublist; eauto.
      * destruct (_ <=? _)%Z eqn:E; [| exact Hc].
        apply Forall_app. split; [exact Hc |]. constructor; [| constructor].
        eapply forming_ok_emitted; eauto.
    + apply Forall_forall. intros t Ht.
      apply (Hle t (receiver, timestamp, variance, utc)); [exact Ht |].
      apply list_elem_of_singleton. reflexivity.
    + simpl. split; [| split].
      * repeat constructor.
      * apply NoDup_singleton.
      * constructor; [| constructor]. simpl. Lqa.lra.
Qed.

Lemma extract_all_spec mr groups clusters out :
  extract_all Cair obj mr groups clusters = Ok out ->
  Forall (StronglySorted ts_le) groups ->
  Forall (cluster_ok Cair obj mr) clusters ->
  Forall (cluster_ok Cair obj mr) out.
Proof.
  revert clusters. induction groups as [| group groups IH];
    intros clusters H Hs Hc; simpl in H.
  - by injection H as <-.
  - inv_bind H. apply Forall_cons in Hs as [Hg Hs].
    eapply IH; [exact H | exact Hs |].
    eapply (extract_spec mr (S (length group))); [exact Hm | exact Hg | exact Hc].
Qed.

(** The loop budget given to [extract Cair obj] is never used up. *)
Lemma scan_length last_timestamp i group st group' st' :
  scan Cair obj i last_timestamp group st = Ok (group', st') ->
  (length group' <= length group)%nat.
Proof.
  revert group st. induction i as [| i IH]; intros group st H; simpl in H.
  - by injection H as <- <-.
  - inv_bind H. destruct a as [[[receiver timestamp] variance] utc].
    destruct (Qgtb _ _); [by injection H as <- <- |].
    inv_bind H. destruct a as [[] is_distinct]; apply IH in H; [| exact H].
    etrans; [exact H |]. apply sublist_length, sublist_delete.
Qed.

Lemma extract_fuel mr fuel group clusters :
  (length group < fuel)%nat ->
  extract Cair obj fuel mr group clusters <> Stop OutOfFuel.
Proof.
  revert group clusters. induction fuel as [| fuel IH];
    intros group clusters Hlt; [lia |]. simpl.
  destruct (_ <? _)%Z; [discriminate |].
  destruct (last group) as [[[[receiver timestamp] variance] utc] |] eqn:El;
    simpl; [| discriminate].
  apply removelast_length in El.
  destruct (scan Cair obj _ _ _ _) as [[group' st] | w] eqn:Es; simpl.
  - apply IH. apply scan_length in Es. lia.
  - intros [= ->]. revert Es. generalize (removelast group).
    intros g. generalize (length g) at 1.
    intros n. generalize
      {| f_cluster := [(receiver, timestamp, variance)];
         f_first_seen := utc; f_distinct_receivers := 1 |}.
    revert g. induction n as [| n IHn]; intros g st; simpl; [discriminate |].
    destruct (g !! n) as [[[[r t] v] u] |]; simpl; [| discriminate].
    destruct (Qgtb _ _); [discriminate |].
    destruct (check_against Cair obj r t (f_cluster st) true) as [[[] d] | w] eqn:Ec;
      simpl; [apply IHn | apply IHn |].
    intros [= ->]. revert Ec. generalize true. generalize (f_cluster st).
    intros cl. induction cl as [| [[r' t'] v'] cl IHc]; intros b; simpl;
      [discriminate |].
    destruct (decide _); [discriminate |].
    destruct (distance (obj r) !! uid (obj r')); simpl; [| discriminate].
    unfold py_div. destruct (Qeq_bool Cair 0); simpl; [discriminate |].
    destruct (Qgtb _ _); [discriminate | apply IHc].
Qed.

Lemma extract_all_fuel mr groups clusters :
  extract_all Cair obj mr groups clusters <> Stop OutOfFuel.
Proof.
  revert clusters. induction groups as [| group groups IH]; intros clusters;
    [discriminate |].
  cbn [extract_all].
  destruct (extract Cair obj (S (length group)) mr group clusters)
    as [cs | w] eqn:E; cbn [obind]; [apply IH |].
  intros [= ->]. eapply extract_fuel; [| exact E]. lia.
Qed.

Lemma rough_groups_fuel done group rest :
  rough_groups done group rest <> Stop OutOfFuel.
Proof.
  revert done group. induction rest as [| t rest IH]; intros done group;
    simpl; [discriminate |].
  destruct (last group); simpl; [| discriminate].
  destruct (Qgtb _ _); apply IH.
Qed.

(** The model of [_cluster_timestamps] always completes: with a list of
    clusters or with a Python exception. *)
Lemma cluster_timestamps_completes component min_receivers :
  _cluster_timestamps Cair obj component min_receivers <> Stop OutOfFuel.
Proof.
  unfold _cluster_timestamps.
  destruct (py_sort ts_leb (flatten component) !! 0%nat); simpl;
    [| discriminate].
  destruct (rough_groups _ _ _) as [groups | w] eqn:Eg; simpl.
  - apply extract_all_fuel.
  - intros [= ->]. by apply rough_groups_fuel in Eg.
Qed.

(** C1. Every cluster that [_cluster_timestamps] emits satisfies: any two
    of its members pass the range test [|dt| <= (1.05 d + 1000) / Cair],
    where [d] is the distance the code looks up for the pair; no receiver
    object occurs twice; the timestamps of any two members differ by at
    most 2 ms; and [distinct] is at least [min_receivers]. *)
Theorem cluster_timestamps_emitted_ok component min_receivers clusters :
  _cluster_timestamps Cair obj component min_receivers = Ok clusters ->
  Forall (cluster_ok Cair obj min_receivers) clusters.
Proof.
  unfold _cluster_timestamps. intros H.
  inv_bind H. apply lookup_or_Ok in Hm. inv_bind H.
  eapply extract_all_spec; [exact H | | constructor].
  eapply rough_groups_sorted; [exact Hm0 | constructor |].
  pose proof (flat_component_sorted (flatten component)) as Hs.
  destruct (py_sort ts_leb (flatten component)) as [| t l]; [discriminate |].
  simpl in Hm. injection Hm as ->. exact Hs.
Qed.

End EngineFacts.
End EngineFacts.

(** ** Computations on the world *)

Section WpFacts.
Context {A B : Type}.
Implicit Types (w : World) (why : abrupt).

Lemma wp_run (m : M A) w Q o w' : wp m w Q -> m w = (o, w') -> Q o w'.
Proof. unfold wp. intros H Hm. by rewrite Hm in H. Qed.

Lemma wp_intro (m : M A) w (Q : outcome A -> World -> Prop) :
  (forall o w', m w = (o, w') -> Q o w') -> wp m w Q.
Proof. unfold wp. intros H. apply H. by destruct (m w). Qed.

Lemma wp_mono (m : M A) w (Q Q' : outcome A -> World -> Prop) :
  wp m w Q -> (forall o w', Q o w' -> Q' o w') -> wp m w Q'.
Proof. unfold wp. auto. Qed.

Lemma wp_bind (m : M A) (k : A -> M B) w Q :
  wp m w (fun o w' =>
            match o with
            | Ok a => wp (k a) w' Q
            | Stop why => Q (Stop why) w'
            end) ->
  wp (mbind m k) w Q.
Proof. unfold wp, mbind. by destruct (m w) as [[a | why] w']. Qed.

Lemma wp_ret (a : A) w Q : Q (Ok a) w -> wp (ret a) w Q.
Proof. done. Qed.

Lemma wp_return w (Q : outcome A -> World -> Prop) :
  Q (Stop Return) w -> wp return_ w Q.
Proof. done. Qed.

Lemma wp_raise e w (Q : outcome A -> World -> Prop) :
  Q (Stop (Raise e)) w -> wp (raise e) w Q.
Proof. done. Qed.

Lemma wp_lift (o : outcome A) w Q : Q o w -> wp (lift o) w Q.
Proof. done. Qed.

Lemma wp_gets (f : World -> A) w Q : Q (Ok (f w)) w -> wp (gets f) w Q.
Proof. done. Qed.

Lemma wp_number (o : option A) w Q :
  match o with Some a => Q (Ok a) w | None => Q (Stop (Raise TypeError)) w end ->
  wp (number o) w Q.
Proof. by destruct o. Qed.

Lemma wp_or_return (o : option A) w Q :
  match o with Some a => Q (Ok a) w | None => Q (Stop Return) w end ->
  wp (or_return o) w Q.
Proof. by destruct o. Qed.

Lemma wp_deref (store : World -> gmap nat A) r w Q :
  match store w !! r with
  | Some a => Q (Ok a) w
  | None => Q (Stop Dangling) w
  end ->
  wp (deref store r) w Q.
Proof. unfold wp, deref. by destruct (store w !! r). Qed.
End WpFacts.

Lemma wp_modify f w Q : Q (Ok tt) (f w) -> wp (modify f) w Q.
Proof. done. Qed.

Lemma wp_emit e w Q : Q (Ok tt) (set_trace (trace w ++ [e]) w) -> wp (emit e) w Q.
Proof. done. Qed.

Lemma wp_log msg w Q :
  Q (Ok tt) (set_trace (trace w ++ [EvLog msg]) w) -> wp (log msg) w Q.
Proof. done. Qed.

Lemma wp_stats_incr name w Q :
  Q (Ok tt)
    (set_stats (<[name := (default 0 (stats w !! name) + 1)%Z]> (stats w)) w) ->
  wp (stats_incr name) w Q.
Proof. done. Qed.

Lemma wp_when (b : bool) m w Q :
  (if b then wp m w Q else Q (Ok tt) w) -> wp (when b m) w Q.
Proof. by destruct b. Qed.

Lemma wp_call m w Q :
  wp m w (fun o w' =>
            match o with
            | Stop Return => Q (Ok tt) w'
            | _ => Q o w'
            end) ->
  wp (call m) w Q.
Proof. unfold wp, call. by destruct (m w) as [[[] | []] w']. Qed.

Lemma wp_time_now E w Q :
  Q (Ok (time_time E (time_calls w))) (set_time_calls (S (time_calls w)) w) ->
  wp (time_now E) w Q.
Proof. done. Qed.

(** Reduce the projections of updated records. *)
Ltac rsimpl :=
  cbn [g_message g_first_seen g_copies g_receivers g_handle c_creationTime
       c_len c_groups c_handle icao allow_mlat seen mlat_message_count
       mlat_result_count mlat_kalman_count altitude last_altitude_time
       alt_history vrate vrate_time squawk callsign last_resolve_attempt
       last_result_position last_result_var last_result_dof last_result_time
       kalman pending cohort blacklist pseudorange_file group_store
       cohort_store hist_store stats aircraft timers time_calls trace
       set_g_copies set_g_receivers set_g_handle set_c_len set_c_groups
       set_seen set_mlat_message_count set_mlat_result_count
       set_mlat_kalman_count set_altitude set_last_altitude_time
       set_alt_history set_vrate set_vrate_time set_squawk set_callsign
       set_last_resolve_attempt set_last_result_position set_last_result_var
       set_last_result_dof set_last_result_time set_pending set_cohort
       set_blacklist set_pseudorange_file set_group_store set_cohort_store
       set_hist_store set_stats set_aircraft set_timers set_time_calls
       set_trace
       fst snd].

(** Reduce the projections of updated records. *)
Ltac rsimpl_in H :=
  cbn [g_message g_first_seen g_copies g_receivers g_handle c_creationTime
       c_len c_groups c_handle icao allow_mlat seen mlat_message_count
       mlat_result_count mlat_kalman_count altitude last_altitude_time
       alt_history vrate vrate_time squawk callsign last_resolve_attempt
       last_result_position last_result_var last_result_dof last_result_time
       kalman pending cohort blacklist pseudorange_file group_store
       cohort_store hist_store stats aircraft timers time_calls trace
       set_g_copies set_g_receivers set_g_handle set_c_len set_c_groups
       set_seen set_mlat_message_count set_mlat_result_count
       set_mlat_kalman_count set_altitude set_last_altitude_time
       set_alt_history set_vrate set_vrate_time set_squawk set_callsign
       set_last_resolve_attempt set_last_result_position set_last_result_var
       set_last_result_dof set_last_result_time set_pending set_cohort
       set_blacklist set_pseudorange_file set_group_store set_cohort_store
       set_hist_store set_stats set_aircraft set_timers set_time_calls
       set_trace
       fst snd] in H.

(** One step of symbolic execution. *)
Ltac wp_step :=
  lazymatch goal with
  | |- wp (mbind _ _) _ _ => apply wp_bind
  | |- wp (ret _) _ _ => apply wp_ret
  | |- wp return_ _ _ => apply wp_return
  | |- wp (raise _) _ _ => apply wp_raise
  | |- wp (lift _) _ _ => apply wp_lift
  | |- wp (gets _) _ _ => apply wp_gets
  | |- wp (modify _) _ _ => apply wp_modify
  | |- wp (emit _) _ _ => apply wp_emit
  | |- wp (log _) _ _ => apply wp_log
  | |- wp (stats_incr _) _ _ => apply wp_stats_incr
  | |- wp (time_now _) _ _ => apply wp_time_now
  | |- wp (store_ac _ _) _ _ => apply wp_modify
  | |- wp (update_group _ _) _ _ => apply wp_modify
  | |- wp (update_cohort _ _) _ _ => apply wp_modify
  | |- wp (call _) _ _ => apply wp_call
  | |- wp (when _ _) _ _ => apply wp_when
  | |- wp (number _) _ _ => apply wp_number
  | |- wp (or_return _) _ _ => apply wp_or_return
  | |- wp (deref _ _) _ _ => apply wp_deref
  end; rsimpl.

Ltac wp_steps := repeat wp_step.

(** Case analysis on the test the computation branches on. *)
Ltac wp_case :=
  lazymatch goal with
  | |- wp (match ?x with _ => _ end) _ _ => destruct x eqn:?
  | |- match ?x with _ => _ end => destruct x eqn:?
  end.

Ltac wp_auto := repeat (first [wp_step | wp_case]).

(** ** Frames: what a computation leaves alone *)

Section PreservesFacts.
Context (R : World -> World -> Prop).
Hypothesis R_refl : forall w, R w w.
Hypothesis R_trans : forall w1 w2 w3, R w1 w2 -> R w2 w3 -> R w1 w3.

Lemma preserves_pure {A} (m : M A) :
  (forall w, (m w).2 = w) -> preserves R m.
Proof using R_refl. intros H w. rewrite H. apply R_refl. Qed.

Lemma preserves_bind {A B} (m : M A) (k : A -> M B) :
  preserves R m -> (forall a, preserves R (k a)) -> preserves R (mbind m k).
Proof using R_refl R_trans.
  intros Hm Hk w. unfold mbind. specialize (Hm w).
  destruct (m w) as [[a | why] w']; simpl in *; [| exact Hm].
  eapply R_trans; [exact Hm | apply Hk].
Qed.

Lemma preserves_call m : preserves R m -> preserves R (call m).
Proof. intros Hm w. unfold call. specialize (Hm w).
  by destruct (m w) as [[[] | []] w'].
Qed.

Lemma preserves_when (b : bool) m : preserves R m -> preserves R (when b m).
Proof using R_refl. destruct b; [done |]. intros _ w. apply R_refl. Qed.

Lemma preserves_modify f : (forall w, R w (f w)) -> preserves R (modify f).
Proof. intros H w. apply H. Qed.
Lemma preserves_deref {A} (store : World -> gmap nat A) r :
  preserves R (deref store r).
Proof using R_refl.
  apply preserves_pure. intros w. unfold deref. by destruct (store w !! r).
Qed.

Lemma preserves_number {A} (o : option A) : preserves R (number o).
Proof using R_refl. apply preserves_pure. by destruct o. Qed.

Lemma preserves_or_return {A} (o : option A) : preserves R (or_return o).
Proof using R_refl. apply preserves_pure. by destruct o. Qed.

Lemma preserves_ret {A} (a : A) : preserves R (ret a).
Proof using R_refl. by apply preserves_pure. Qed.

Lemma preserves_return {A} : preserves R (@return_ A).
Proof using R_refl. by apply preserves_pure. Qed.

Lemma preserves_raise {A} e : preserves R (@raise A e).
Proof using R_refl. by apply preserves_pure. Qed.

Lemma preserves_lift {A} (o : outcome A) : preserves R (lift o).
Proof using R_refl. by apply preserves_pure. Qed.

Lemma preserves_gets {A} (f : World -> A) : preserves R (gets f).
Proof using R_refl. by apply preserves_pure. Qed.
End PreservesFacts.

Lemma same_objects_refl w : same_objects w w.
Proof. by repeat split. Qed.

Lemma same_objects_trans w1 w2 w3 :
  same_objects w1 w2 -> same_objects w2 w3 -> same_objects w1 w3.
Proof.
  unfold same_objects.
  intros (? & ? & ? & ? & ? & ? & ?) (? & ? & ? & ? & ? & ? & ?).
  repeat split; congruence.
Qed.

Lemma same_objects_groups w w' : same_objects w w' -> same_groups w w'.
Proof. by intros (? & _). Qed.

Lemma wp_preserves {A} (R : World -> World -> Prop) (m : M A) w :
  preserves R m -> wp m w (fun _ w' => R w w').
Proof. intros Hm. apply Hm. Qed.

Lemma same_groups_refl w : same_groups w w.
Proof. done. Qed.

Lemma same_groups_trans w1 w2 w3 :
  same_groups w1 w2 -> same_groups w2 w3 -> same_groups w1 w3.
Proof. unfold same_groups. congruence. Qed.

Lemma preserves_run {A} (R : World -> World -> Prop) (m : M A) w o w' :
  preserves R m -> m w = (o, w') -> R w w'.
Proof. intros Hm Hrun. specialize (Hm w). by rewrite Hrun in Hm. Qed.

Lemma preserves_weaken {A} (R R' : World -> World -> Prop) (m : M A) :
  (forall w w', R w w' -> R' w w') -> preserves R m -> preserves R' m.
Proof. intros HR Hm w. apply HR, Hm. Qed.

Create HintDb frame discriminated.

(** Prove that a computation leaves a part of the world alone, by
    following its structure; [refl] and [trans] say that the relation is a
    preorder. *)
Ltac frame_by refl trans :=
  cbv zeta;
  lazymatch goal with
  | |- preserves _ (mbind _ _) =>
      apply (preserves_bind _ refl trans);
      [frame_by refl trans | intros ?; frame_by refl trans]
  | |- preserves _ (call _) => apply preserves_call; frame_by refl trans
  | |- preserves _ (when _ _) =>
      apply (preserves_when _ refl); frame_by refl trans
  | |- preserves _ (deref _ _) => apply preserves_deref, refl
  | |- preserves _ (number _) => apply preserves_number, refl
  | |- preserves _ (or_return _) => apply preserves_or_return, refl
  | |- preserves _ (ret _) => apply preserves_ret, refl
  | |- preserves _ return_ => apply preserves_return, refl
  | |- preserves _ (raise _) => apply preserves_raise, refl
  | |- preserves _ (lift _) => apply preserves_lift, refl
  | |- preserves _ (gets _) => apply preserves_gets, refl
  | |- preserves _ (match ?x with _ => _ end) =>
      destruct x; frame_by refl trans
  | |- preserves _ _ =>
      first [ solve [auto with frame]
            | solve [eapply (preserves_weaken same_objects);
                     [apply same_objects_groups | auto with frame]]
            | solve [intros ?; repeat split; reflexivity] ]
  end.

Ltac frame := frame_by same_objects_refl same_objects_trans.

Section ResolveFrame.
Variable E : Env.

Lemma hist_append_frame h x : preserves same_objects (hist_append h x).
Proof. unfold hist_append. frame. Qed.

Lemma hist_index_frame h i : preserves same_objects (hist_index h i).
Proof. unfold hist_index. frame. Qed.

Hint Resolve hist_append_frame hist_index_frame : frame.

Lemma prune_history_frame first_seen new_hist old :
  preserves same_objects (prune_history first_seen new_hist old).
Proof.
  induction old as [| [ts old_alt] old IH]; simpl; frame.
Qed.

Hint Resolve prune_history_frame : frame.

Lemma accept_altitude_frame address first_seen decoded_altitude ac :
  preserves same_objects
    (accept_altitude address first_seen decoded_altitude ac).
Proof. unfold accept_altitude, rebuild_history, update_vrate. frame. Qed.

Lemma altitude_accepted_frame first_seen decoded_altitude ac :
  preserves same_objects (altitude_accepted first_seen decoded_altitude ac).
Proof. unfold altitude_accepted. frame. Qed.

Hint Resolve accept_altitude_frame altitude_accepted_frame : frame.

Lemma update_from_message_frame address first_seen decoded ac :
  preserves same_objects (update_from_message address first_seen decoded ac).
Proof. unfold update_from_message. frame. Qed.

Lemma find_altitude_frame first_seen ac :
  preserves same_objects (find_altitude E first_seen ac).
Proof. unfold find_altitude. frame. Qed.

Lemma select_cluster_frame decoded ac altitude altitude_dof pr stack :
  preserves same_objects
    (select_cluster E decoded ac altitude altitude_dof pr stack).
Proof.
  induction stack as [| [[distinct cluster_utc] cluster] stack IH]; simpl; frame.
Qed.

Lemma call_handlers_frame handlers cluster_utc address position position_cov
    receivers distinct dof k error :
  preserves same_objects
    (call_handlers handlers cluster_utc address position position_cov
       receivers distinct dof k error).
Proof. induction handlers as [| handler handlers IH]; simpl; frame. Qed.

Lemma write_pseudorange_frame file address altitude ecef s :
  preserves same_objects (write_pseudorange E file address altitude ecef s).
Proof. unfold write_pseudorange. frame. Qed.

Hint Resolve update_from_message_frame find_altitude_frame
  select_cluster_frame call_handlers_frame write_pseudorange_frame : frame.

Lemma publish_frame g address ac altitude s :
  preserves same_objects (publish E g address ac altitude s).
Proof. unfold publish. frame. Qed.

Hint Resolve publish_frame : frame.

(** [_resolve] changes no group. *)
Lemma resolve_frame group : preserves same_groups (_resolve E group).
Proof.
  unfold _resolve. frame_by same_groups_refl same_groups_trans.
Qed.

Hint Resolve resolve_frame : frame.

Lemma process_groups_frame groups :
  preserves same_groups (process_groups E groups).
Proof.
  induction groups as [| group groups IH]; simpl;
    frame_by same_groups_refl same_groups_trans.
Qed.

Hint Resolve process_groups_frame : frame.

Lemma Cohort_process_frame c : preserves same_groups (Cohort_process E c).
Proof.
  unfold Cohort_process. frame_by same_groups_refl same_groups_trans.
Qed.

End ResolveFrame.

#[global] Hint Resolve hist_append_frame hist_index_frame prune_history_frame
  accept_altitude_frame altitude_accepted_frame update_from_message_frame
  find_altitude_frame select_cluster_frame call_handlers_frame
  write_pseudorange_frame publish_frame resolve_frame process_groups_frame
  Cohort_process_frame : frame.

Section BatcherFrame.
Variable E : Env.

Lemma read_blacklist_frame : preserves same_groups (read_blacklist E).
Proof. unfold read_blacklist. frame_by same_groups_refl same_groups_trans. Qed.

Lemma reopen_pseudoranges_frame :
  preserves same_groups (reopen_pseudoranges E).
Proof.
  unfold reopen_pseudoranges. frame_by same_groups_refl same_groups_trans.
Qed.

Hint Resolve read_blacklist_frame reopen_pseudoranges_frame : frame.

Lemma MlatTracker_init_frame : preserves same_groups (MlatTracker_init E).
Proof.
  unfold MlatTracker_init. frame_by same_groups_refl same_groups_trans.
Qed.

Hint Resolve Cohort_process_frame : frame.

Lemma fire_timer_frame timer : preserves same_groups (fire_timer E timer).
Proof. unfold fire_timer. frame_by same_groups_refl same_groups_trans. Qed.

End BatcherFrame.

#[global] Hint Resolve read_blacklist_frame reopen_pseudoranges_frame
  MlatTracker_init_frame fire_timer_frame : frame.

(** ** The group and cohort batcher *)

Lemma wp_MessageGroup_new message first_seen w Q :
  Q (Ok (fresh (dom (group_store w))))
    (set_group_store
       (<[fresh (dom (group_store w)) :=
            {| g_message := message; g_first_seen := first_seen;
               g_copies := []; g_receivers := ∅; g_handle := None |}]>
          (group_store w)) w) ->
  wp (MessageGroup_new message first_seen) w Q.
Proof. done. Qed.

Lemma wp_Cohort_new E now w Q :
  Q (Ok (fresh (dom (cohort_store w))))
    (set_timers (<[fresh (dom (timers w)) :=
                     (MLAT_DELAY E, fresh (dom (cohort_store w)))]> (timers w))
       (set_cohort_store
          (<[fresh (dom (cohort_store w)) :=
               {| c_creationTime := now; c_len := 0; c_groups := [];
                  c_handle := fresh (dom (timers w)) |}]> (cohort_store w))
          w)) ->
  wp (Cohort_new E now) w Q.
Proof. done. Qed.

Lemma map_Forall_alter {A} (P : nat -> A -> Prop) (f : A -> A) i
    (m : gmap nat A) :
  map_Forall P m -> (forall x, m !! i = Some x -> P i x -> P i (f x)) ->
  map_Forall P (alter f i m).
Proof.
  intros Hm Hf j y Hj. destruct (decide (i = j)) as [<- | Hne].
  - rewrite lookup_alter_eq in Hj.
    destruct (m !! i) as [x |] eqn:Hi; [| discriminate].
    injection Hj as <-. apply Hf; [done |]. by apply Hm.
  - rewrite lookup_alter_ne in Hj by done. by apply Hm.
Qed.

Section BatcherFacts.
Local Open Scope Q_scope.
Variable E : Env.

(** A call for a message whose group is full: the copy is dropped, the
    receiver is remembered. *)
Lemma receiver_mlat_full receiver timestamp message now w group g :
  pending w !! message = Some group ->
  group_store w !! group = Some g ->
  (MAX_GROUP E < Z.of_nat (length (g_copies g)))%Z ->
  wp (receiver_mlat E receiver timestamp message now) w
     (fun o w' =>
        o = Ok tt /\
        group_store w' =
          <[group := set_g_receivers ({[receiver]} ∪ g_receivers g) g]>
            (group_store w) /\
        pending w' = pending w /\ cohort w' = cohort w /\
        cohort_store w' = cohort_store w).
Proof.
  intros Hp Hg Hfull. unfold receiver_mlat.
  wp_steps. rewrite Hp. wp_steps.
  rewrite lookup_alter_eq, Hg. simpl.
  apply Z.ltb_lt in Hfull. rewrite Hfull. wp_steps.
  split; [done |]. split; [| done].
  exact (alter_alt_Some
           (fun g => set_g_receivers ({[receiver]} ∪ g_receivers g) g) _ _ _ Hg).
Qed.

(** Remembering the receiver and appending the copy keep the bound on the
    copies and the receivers of the copies in the receiver set. *)
Lemma add_copy_groups_ok receiver timestamp now group w :
  groups_ok E w ->
  wp (mbind (update_group group (fun g =>
               set_g_receivers ({[receiver]} ∪ g_receivers g) g))
        (fun _ => mbind (deref group_store group) (fun g =>
           if (MAX_GROUP E <? Z.of_nat (length (g_copies g)))%Z
           then return_
           else update_group group (fun g =>
                  set_g_copies
                    (g_copies g ++ [(receiver, timestamp, now)]) g))))
     w (fun _ w' => groups_ok E w').
Proof.
  intros Hok. wp_steps. unfold groups_ok in *.
  assert (Hok' : map_Forall (fun _ g => group_ok E g)
                   (alter (fun g => set_g_receivers
                                      ({[receiver]} ∪ g_receivers g) g)
                          group (group_store w))).
  { apply map_Forall_alter; [done |]. intros g _ [Hlen Hin].
    split; [done |]. intros r t u Hr. rsimpl.
    apply elem_of_union_r. eauto. }
  destruct (alter _ group (group_store w) !! group) as [g |] eqn:Hg; [| done].
  destruct (MAX_GROUP E <? _)%Z eqn:Hfull; wp_steps; [done |].
  apply map_Forall_alter; [done |]. intros g' Hg' [Hlen Hin].
  rewrite Hg in Hg'. injection Hg' as <-.
  apply Z.ltb_ge in Hfull. split; rsimpl.
  - rewrite length_app. simpl. lia.
  - intros r t u Hr. apply elem_of_app in Hr as [Hr | Hr]; [eauto |].
    apply list_elem_of_singleton in Hr. injection Hr as -> _ _.
    rewrite lookup_alter_eq in Hg.
    destruct (group_store w !! group) as [g0 |]; [| discriminate].
    injection Hg as <-. rsimpl. apply elem_of_union_l.
    by apply elem_of_singleton.
Qed.

(** Every call keeps them. *)
Lemma receiver_mlat_groups_ok receiver timestamp message now w :
  (-1 <= MAX_GROUP E)%Z ->
  groups_ok E w ->
  wp (receiver_mlat E receiver timestamp message now) w
     (fun _ w' => groups_ok E w').
Proof.
  intros Hmax Hok. unfold receiver_mlat.
  apply wp_call, wp_bind, wp_stats_incr, wp_bind, wp_gets. rsimpl.
  apply wp_bind.
  eapply (wp_mono _ _ (fun _ w' => groups_ok E w')).
  - destruct (pending w !! message) as [group |] eqn:Hp; wp_steps; [done |].
    apply wp_MessageGroup_new. wp_steps.
    set (group := fresh (dom (group_store w))).
    assert (Hgs : map_Forall (fun _ g => group_ok E g)
              (alter (set_g_handle (Some Resolve)) group
                 (<[group := {| g_message := message; g_first_seen := now;
                                g_copies := []; g_receivers := ∅;
                                g_handle := None |}]> (group_store w)))).
    { apply map_Forall_alter.
      - apply map_Forall_insert_2; [| done]. split; simpl; [lia |].
        intros r t u Hr. by apply elem_of_nil in Hr.
      - by intros g _ [? ?]. }
    destruct (cohort_store w !! cohort w) as [co |]; [| done].
    destruct (Qgtb _ _ || _); wp_steps; [| done].
    apply wp_Cohort_new. by wp_steps.
  - intros [group | why] w' Hok'; [| by destruct why].
    eapply wp_mono; [by apply add_copy_groups_ok |].
    by intros [? | [ | ? | | ]] ?.
Qed.

Lemma reachable_groups_ok w :
  (-1 <= MAX_GROUP E)%Z -> reachable E w -> groups_ok E w.
Proof.
  intros Hmax. induction 1 as
    [w0 o w [Hg _] Hrun | w receiver timestamp message now o w' _ IH Hrun
     | w timer o w' _ IH Hrun | w o w' _ IH Hrun | w o w' _ IH Hrun
     | w w' _ IH Hout].
  - pose proof (preserves_run _ _ _ _ _ (MlatTracker_init_frame E) Hrun) as Hf.
    unfold groups_ok. rewrite Hf, Hg. apply map_Forall_empty.
  - eapply (wp_run _ _ (fun _ w' => groups_ok E w')); [| exact Hrun].
    by apply receiver_mlat_groups_ok.
  - pose proof (preserves_run _ _ _ _ _ (fire_timer_frame E timer) Hrun) as Hf.
    unfold groups_ok. by rewrite Hf.
  - pose proof (preserves_run _ _ _ _ _ (read_blacklist_frame E) Hrun) as Hf.
    unfold groups_ok. by rewrite Hf.
  - pose proof (preserves_run _ _ _ _ _ (reopen_pseudoranges_frame E) Hrun)
      as Hf.
    unfold groups_ok. by rewrite Hf.
  - destruct Hout as (_ & _ & _ & _ & Hg & _). unfold groups_ok.
    by rewrite Hg.
Qed.

(** C6. A call to [receiver_mlat] for a group that already holds more than
    MAX_GROUP copies leaves the copies as they are and adds the calling
    receiver to the receiver set; and in every world the tracker can reach,
    every group has at most MAX_GROUP + 1 copies and its receiver set
    contains the receiver of each copy.  MAX_GROUP is a count: it is
    assumed not to be below -1. *)
Theorem copies_capped_receivers_kept :
  (-1 <= MAX_GROUP E)%Z ->
  (forall w receiver timestamp message now group g,
      pending w !! message = Some group ->
      group_store w !! group = Some g ->
      (MAX_GROUP E < Z.of_nat (length (g_copies g)))%Z ->
      exists w' g',
        receiver_mlat E receiver timestamp message now w = (Ok tt, w') /\
        group_store w' !! group = Some g' /\
        g_copies g' = g_copies g /\
        g_receivers g' = {[receiver]} ∪ g_receivers g) /\
  (forall w, reachable E w ->
     forall group g, group_store w !! group = Some g ->
       (Z.of_nat (length (g_copies g)) <= MAX_GROUP E + 1)%Z /\
       forall receiver timestamp utc,
         (receiver, timestamp, utc) ∈ g_copies g -> receiver ∈ g_receivers g).
Proof.
  intros Hmax. split.
  - intros w receiver timestamp message now group g Hp Hg Hfull.
    pose proof (receiver_mlat_full receiver timestamp message now w group g
                  Hp Hg Hfull) as H.
    unfold wp in H.
    destruct (receiver_mlat E receiver timestamp message now w) as [o w'].
    simpl in H. destruct H as (-> & Hgs & _). exists w', (set_g_receivers
      ({[receiver]} ∪ g_receivers g) g).
    split; [done |]. split; [| done].
    by rewrite Hgs, lookup_insert_eq.
  - intros w Hw group g Hg.
    exact (reachable_groups_ok w Hmax Hw group g Hg).
Qed.

End BatcherFacts.

(** ** Cohort rollover *)

Section CohortFacts.
Local Open Scope Q_scope.
Variable E : Env.

(** The first copy of a message: a group is created and appended to the
    current cohort, which is a new one when the old one is older than 50 ms
    or holds more than 25 groups. *)
Lemma receiver_mlat_first_copy receiver timestamp message now w co :
  pending w !! message = None ->
  cohort_store w !! cohort w = Some co ->
  wp (receiver_mlat E receiver timestamp message now) w
     (fun o w' =>
        let group := fresh (dom (group_store w)) in
        o = Ok tt /\
        pending w' = <[message := group]> (pending w) /\
        dom (group_store w') = {[group]} ∪ dom (group_store w) /\
        if Qgtb (now - c_creationTime co) 0.05 || (25 <? c_len co)%Z then
          cohort w' = fresh (dom (cohort_store w)) /\
          cohort_store w' =
            <[fresh (dom (cohort_store w)) :=
                {| c_creationTime := now; c_len := 1; c_groups := [group];
                   c_handle := fresh (dom (timers w)) |}]> (cohort_store w)
        else
          cohort w' = cohort w /\
          cohort_store w' =
            <[cohort w :=
                {| c_creationTime := c_creationTime co;
                   c_len := c_len co + 1;
                   c_groups := c_groups co ++ [group];
                   c_handle := c_handle co |}]> (cohort_store w)).
Proof.
  intros Hp Hc. unfold receiver_mlat.
  wp_steps. rewrite Hp. wp_steps. apply wp_MessageGroup_new. wp_steps.
  rewrite Hc.
  set (group := fresh (dom (group_store w))).
  assert (Hdom : forall f1 f2 f3 g0,
             dom (alter f3 group (alter f2 group (alter f1 group
                    (<[group := g0]> (group_store w)))))
             = {[group]} ∪ dom (group_store w)).
  { intros. by rewrite !dom_alter_L, dom_insert_L. }
  assert (Hdom' : forall f1 f2 g0,
             dom (alter f2 group (alter f1 group
                    (<[group := g0]> (group_store w))))
             = {[group]} ∪ dom (group_store w)).
  { intros. by rewrite !dom_alter_L, dom_insert_L. }
  destruct (Qgtb _ _ || _) eqn:Hroll; wp_steps.
  - apply wp_Cohort_new. wp_steps.
    rewrite !lookup_alter_eq, lookup_insert_eq. simpl.
    destruct (MAX_GROUP E <? _)%Z; wp_steps.
    + split; [done |]. split; [done |]. split; [apply Hdom' |].
      split; [done |]. by rewrite alter_insert_eq.
    + split; [done |]. split; [done |]. split; [apply Hdom |].
      split; [done |]. by rewrite alter_insert_eq.
  - rewrite !lookup_alter_eq, lookup_insert_eq. simpl.
    destruct (MAX_GROUP E <? _)%Z; wp_steps.
    + split; [done |]. split; [done |]. split; [apply Hdom' |].
      split; [done |]. by erewrite alter_alt_Some.
    + split; [done |]. split; [done |]. split; [apply Hdom |].
      split; [done |]. by erewrite alter_alt_Some.
Qed.

(** First copies that arrive while the current cohort is young and not
    full all go into it. *)
Lemma feed_stays obs : forall w co,
  cohort_store w !! cohort w = Some co ->
  (c_len co + Z.of_nat (length obs) <= 26)%Z ->
  NoDup (obs_message <$> obs) ->
  Forall (fun o => pending w !! obs_message o = None /\
                   obs_now o - c_creationTime co <= 0.05) obs ->
  wp (feed E obs) w
     (fun o w' =>
        o = Ok tt /\ cohort w' = cohort w /\
        exists gs,
          cohort_store w' =
            <[cohort w :=
                {| c_creationTime := c_creationTime co;
                   c_len := c_len co + Z.of_nat (length obs);
                   c_groups := c_groups co ++ gs;
                   c_handle := c_handle co |}]> (cohort_store w) /\
          Forall2 (fun o g => pending w' !! obs_message o = Some g) obs gs /\
          (forall m, m ∉ obs_message <$> obs ->
                     pending w' !! m = pending w !! m) /\
          Forall (fun g => g ∈ dom (group_store w')) gs /\
          dom (group_store w) ⊆ dom (group_store w')).
Proof.
  induction obs as [| [[[receiver timestamp] message] now] obs IH];
    intros w co Hc Hlen Hnd Hall.
  - simpl. apply wp_ret. split; [done |]. split; [done |]. exists [].
    rewrite app_nil_r, Z.add_0_r. split.
    + symmetry. apply insert_id. rewrite Hc. by destruct co.
    + by repeat split.
  - simpl in Hlen. rewrite fmap_cons in Hnd. apply NoDup_cons in Hnd as [Hm Hnd].
    apply Forall_cons in Hall as [[Hp Hnow] Hall]. simpl in Hp, Hnow, Hm.
    cbn [feed]. apply wp_bind.
    eapply wp_mono; [by apply (receiver_mlat_first_copy _ _ _ _ _ co) |].
    intros o w1 (-> & Hp1 & Hd1 & Hroll).
    assert (Hno : Qgtb (now - c_creationTime co) 0.05 || (25 <? c_len co)%Z
                  = false).
    { apply orb_false_iff. split; [by apply Qgtb_le |]. apply Z.ltb_ge. lia. }
    rewrite Hno in Hroll. destruct Hroll as [Hc1 Hs1].
    set (group := fresh (dom (group_store w))) in *.
    eapply wp_mono.
    { apply (IH w1 {| c_creationTime := c_creationTime co;
                      c_len := c_len co + 1;
                      c_groups := c_groups co ++ [group];
                      c_handle := c_handle co |}).
      - by rewrite Hc1, Hs1, lookup_insert_eq.
      - simpl. lia.
      - exact Hnd.
      - apply Forall_forall. intros o Ho. rewrite Forall_forall in Hall.
        destruct (Hall o Ho) as [Hpo Hnowo]. split; [| done].
        rewrite Hp1, lookup_insert_ne; [done |].
        intros ->. apply Hm. by apply list_elem_of_fmap_2. }
    simpl. intros o w' (-> & Hc' & gs & Hs' & Hf2 & Hother & Hgs & Hsub).
    split; [done |]. split; [congruence |]. exists (group :: gs).
    split; [| split; [| split; [| split]]].
    + rewrite Hs', Hc1, Hs1, insert_insert_eq. f_equal. f_equal; [lia |].
      by rewrite <- app_assoc.
    + constructor; [| done]. simpl. rewrite Hother; [| done].
      by rewrite Hp1, lookup_insert_eq.
    + intros m Hm'. apply not_elem_of_cons in Hm' as [Hne Hm'].
      rewrite Hother by done. by rewrite Hp1, lookup_insert_ne.
    + constructor; [| done]. apply Hsub. rewrite Hd1.
      apply elem_of_union_l. by apply elem_of_singleton.
    + etrans; [| exact Hsub]. rewrite Hd1. apply union_subseteq_r.
Qed.

(** C2, as the code has it.  When 27 distinct messages arrive, each for
    the first time and within 50 ms of the creation of a cohort that holds
    no group yet, the first 26 groups are placed in that cohort and the
    27th opens a second one: the cohort rolls over once it holds more than
    25 groups, that is after the 26th. *)
Theorem cohort_rolls_over_after_26 w co obs last :
  cohort_store w !! cohort w = Some co ->
  c_len co = 0%Z ->
  c_groups co = [] ->
  length obs = 26%nat ->
  NoDup (obs_message <$> obs ++ [last]) ->
  Forall (fun o => pending w !! obs_message o = None /\
                   obs_now o - c_creationTime co <= 0.05) (obs ++ [last]) ->
  exists w26 w27,
    feed E obs w = (Ok tt, w26) /\
    feed E [last] w26 = (Ok tt, w27) /\
    cohort w26 = cohort w /\
    Forall (fun o => placed_in w26 (obs_message o) (cohort w)) obs /\
    cohort w27 <> cohort w /\
    placed_in w27 (obs_message last) (cohort w27) /\
    ~ placed_in w27 (obs_message last) (cohort w) /\
    Forall (fun o => placed_in w27 (obs_message o) (cohort w)) obs.
Proof.
  intros Hc Hlen0 Hgroups0 Hlen Hnd Hall.
  rewrite fmap_app in Hnd. apply NoDup_app in Hnd as (Hnd & Hdisj & _).
  apply Forall_app in Hall as [Hall Hlast].
  apply Forall_cons in Hlast as [[Hplast _] _].
  destruct (feed E obs w) as [o1 w26] eqn:H1.
  pose proof (wp_run _ _ _ _ _ (feed_stays obs w co Hc ltac:(lia) Hnd Hall) H1)
    as (-> & Hc26 & gs & Hs26 & Hf2 & Hother & Hgs & Hsub).
  rewrite Hlen0, Hgroups0, Hlen in Hs26. simpl in Hs26.
  set (co26 := {| c_creationTime := c_creationTime co; c_len := 26;
                  c_groups := gs; c_handle := c_handle co |}) in *.
  assert (Hco26 : cohort_store w26 !! cohort w26 = Some co26).
  { by rewrite Hc26, Hs26, lookup_insert_eq. }
  assert (Hplaced : Forall (fun o => exists g,
                       pending w26 !! obs_message o = Some g /\ g ∈ gs) obs).
  { clear -Hf2. induction Hf2 as [| o g obs gs Hog _ IH]; constructor.
    - exists g. split; [done |]. by left.
    - eapply Forall_impl; [exact IH |]. intros o' (g' & ? & ?).
      exists g'. split; [done |]. by right. }
  assert (Hp26 : pending w26 !! obs_message last = None).
  { rewrite Hother; [done |]. intros Hin. apply (Hdisj _ Hin).
    by apply list_elem_of_singleton. }
  destruct last as [[[receiver timestamp] message] now]. simpl in *.
  destruct (receiver_mlat E receiver timestamp message now w26)
    as [o2 w27] eqn:H2.
  pose proof (wp_run _ _ _ _ _
                (receiver_mlat_first_copy receiver timestamp message now
                   w26 co26 Hp26 Hco26) H2) as (-> & Hp27 & Hd27 & Hroll).
  replace (Qgtb (now - c_creationTime co26) 0.05 || (25 <? c_len co26)%Z)
    with true in Hroll by (simpl; by rewrite orb_true_r).
  destruct Hroll as [Hc27 Hs27].
  assert (Hfresh : fresh (dom (cohort_store w26)) <> cohort w).
  { intros Heq. apply (is_fresh (dom (cohort_store w26))). rewrite Heq.
    apply elem_of_dom. rewrite <- Hc26. eauto. }
  exists w26, w27. unfold mbind. rewrite H2. simpl.
  split; [done |]. split; [done |]. split; [done |]. split; [| split; [| split; [| split]]].
  - eapply Forall_impl; [exact Hplaced |]. intros o (g & Hg & Hin).
    exists g, co26. split; [done |]. split; [| done]. by rewrite <- Hc26.
  - by rewrite Hc27.
  - eexists _, _. split; [by rewrite Hp27, lookup_insert_eq |].
    split; [by rewrite Hc27, Hs27, lookup_insert_eq |]. by left.
  - intros (g & co' & Hg & Hco' & Hin).
    rewrite Hp27, lookup_insert_eq in Hg. injection Hg as <-.
    rewrite Hs27, lookup_insert_ne in Hco' by done.
    rewrite <- Hc26, Hco26 in Hco'. injection Hco' as <-. simpl in Hin.
    rewrite Forall_forall in Hgs.
    apply (is_fresh (dom (group_store w26))). by apply Hgs.
  - rewrite Forall_forall in Hplaced |- *. intros o Ho.
    destruct (Hplaced o Ho) as (g & Hg & Hin).
    exists g, co26. split; [| split; [| done]].
    + rewrite Hp27, lookup_insert_ne; [done |]. intros Heq.
      apply (Hdisj message); [| by apply list_elem_of_singleton].
      rewrite Heq. by apply list_elem_of_fmap_2.
    + rewrite Hs27, lookup_insert_ne by done. by rewrite <- Hc26.
Qed.

End CohortFacts.

(** ** The resolve pipeline *)

Lemma wp_eq {A} (m : M A) w o0 w0 :
  wp m w (fun o w' => o = o0 /\ w' = w0) -> m w = (o0, w0).
Proof. unfold wp. destruct (m w) as [o w']. simpl. by intros [-> ->]. Qed.

Section ResolveFacts.
Local Open Scope Q_scope.
Variable E : Env.

(** *** Removing the group from the pending map *)

Lemma resolve_key_absent w group g :
  group_store w !! group = Some g ->
  pending w !! g_message g = None ->
  _resolve E group w = (Stop (Raise KeyError), w).
Proof.
  intros Hg Hp. apply wp_eq. unfold _resolve.
  wp_steps. rewrite Hg. wp_steps. rewrite Hp. by wp_steps.
Qed.

Lemma resolve_key_present w group g :
  group_store w !! group = Some g ->
  is_Some (pending w !! g_message g) ->
  wp (_resolve E group) w
     (fun o w' => pending w' = delete (g_message g) (pending w)).
Proof.
  intros Hg [group' Hp]. unfold _resolve.
  apply wp_call, wp_bind, wp_deref. rewrite Hg.
  apply wp_bind, wp_gets, wp_bind. rewrite Hp. apply wp_modify.
  eapply wp_mono.
  { apply (wp_preserves same_objects). frame. }
  simpl. intros o w' (_ & _ & _ & _ & _ & _ & ->). rsimpl.
  by destruct o as [[] | []].
Qed.

(** C7, as the code has it.  The first step of [_resolve] is
    [del self.pending[group.message]]: when the key is in the pending map it
    is removed, and nothing that follows touches the map; when the key is
    not there the statement raises KeyError and nothing else is done. *)
Theorem resolve_deletes_pending_key w group g :
  group_store w !! group = Some g ->
  (pending w !! g_message g = None ->
   _resolve E group w = (Stop (Raise KeyError), w)) /\
  (is_Some (pending w !! g_message g) ->
   forall o w', _resolve E group w = (o, w') ->
     pending w' = delete (g_message g) (pending w)).
Proof.
  intros Hg. split.
  - by apply resolve_key_absent.
  - intros Hp o w' Hrun.
    exact (wp_run _ _ _ _ _ (resolve_key_present w group g Hg Hp) Hrun).
Qed.

(** *** The cluster selection loop *)

(** C5. When the popped cluster has [elapsed < 2] and
    [dof < last_result_dof - elapsed + 0.5], the loop returns from
    [_resolve] at once: whatever would follow ([k]) is not run, the world
    is left as it was (no call to the solver, no output), and the call
    completes without a result. *)
Theorem freshness_gate_returns decoded ac altitude altitude_dof pr
    distinct cluster_utc cluster stack {A} (k : option solved -> M A) g
    address w :
  too_soon 2 (cluster_utc - p_time pr) (distinct + altitude_dof - 4)
    (p_dof pr) = true ->
  mbind (select_cluster E decoded ac altitude altitude_dof pr
           ((distinct, cluster_utc, cluster) :: stack)) k w
    = (Stop Return, w) /\
  call (mbind (select_cluster E decoded ac altitude altitude_dof pr
                 ((distinct, cluster_utc, cluster) :: stack))
          (fun result => mbind (or_return result)
             (fun s => publish E g address ac altitude s)))
       w = (Ok tt, w).
Proof.
  intros Hgate. simpl. unfold call, mbind, when. rewrite Hgate. by simpl.
Qed.

Lemma select_cluster_accepted decoded ac altitude altitude_dof pr stack :
  forall w,
    wp (select_cluster E decoded ac altitude altitude_dof pr stack) w
       (fun o w' => forall s, o = Ok (Some s) -> accepted_ok pr s).
Proof.
  induction stack as [| [[distinct cluster_utc] cluster] stack IH]; intros w.
  - simpl. apply wp_ret. intros s [=].
  - simpl. wp_auto; try apply IH; try solve [intros res [=]].
    all: intros res [= <-]; unfold accepted_ok; simpl.
    all: repeat match goal with
                | H : Qgtb _ _ = false |- _ => apply Qgtb_le in H
                | H : Qltb _ _ = false |- _ => apply Qltb_ge in H
                end.
    all: repeat split; assumption.
Qed.

(** Turn the comparisons that were decided into propositions. *)
Ltac qprops :=
  repeat match goal with
         | H : _ && _ = true |- _ => apply andb_true_iff in H as [? ?]
         | H : Qgtb _ _ = false |- _ => apply Qgtb_le in H
         | H : Qltb _ _ = false |- _ => apply Qltb_ge in H
         | H : Qgtb _ _ = true |- _ => apply Qgtb_gt in H
         | H : Qltb _ _ = true |- _ => apply Qltb_lt in H
         end.

(** The loop on one cluster whose solution has an error of 5 km. *)
Lemma select_cluster_5km decoded ac altitude altitude_dof pr distinct
    cluster_utc cluster ecef ecef_cov w :
  (d_altitude decoded = None -> is_Some altitude ->
   is_Some (last_altitude_time ac)) ->
  (forall a e guess,
      solve E (py_sort member_ts_leb cluster) a e guess
      = Some (ecef, Some ecef_cov)) ->
  int_sqrt (Qabs (cov_trace ecef_cov)) = 5000%Z ->
  (cluster_utc - p_time pr == 5 ->
   (select_cluster E decoded ac altitude altitude_dof pr
      [(distinct, cluster_utc, cluster)] w).1 = Ok None) /\
  (cluster_utc - p_time pr == 15 ->
   exists s,
     (select_cluster E decoded ac altitude altitude_dof pr
        [(distinct, cluster_utc, cluster)] w).1 = Ok (Some s) /\
     s_error s = 5000%Z /\ s_cluster_utc s = cluster_utc).
Proof.
  intros Hte Hsolve Herr.
  assert (H5000 : inject_Z 5000 * (1 # 10000) == 0.5) by reflexivity.
  split; intros Hel.
  - change (wp (select_cluster E decoded ac altitude altitude_dof pr
                  [(distinct, cluster_utc, cluster)]) w
               (fun o _ => o = Ok None)).
    simpl. unfold too_soon. wp_auto; try done;
      repeat match goal with
             | H : solve _ _ _ _ _ = _ |- _ => rewrite Hsolve in H; inversion H
             end; subst; qprops;
      rewrite ?Herr in *; try (exfalso; clear Hsolve Hte; qlra).
    all: exfalso; destruct Hte as [x Hx]; [done | by eexists | discriminate].
  - change (wp (select_cluster E decoded ac altitude altitude_dof pr
                  [(distinct, cluster_utc, cluster)]) w
               (fun o _ => exists s, o = Ok (Some s) /\ s_error s = 5000%Z /\
                                     s_cluster_utc s = cluster_utc)).
    simpl. unfold too_soon. wp_auto;
      repeat match goal with
             | H : solve _ _ _ _ _ = _ |- _ => rewrite Hsolve in H; inversion H
             end; subst;
      try solve [eexists; split; [reflexivity |]; simpl; by split];
      qprops; rewrite ?Herr in *; try (exfalso; clear Hsolve Hte; qlra).
    all: exfalso; destruct Hte as [x Hx]; [done | by eexists | discriminate].
Qed.

End ResolveFacts.

(** *** The altitude history *)

Section AltitudeFacts.
Local Open Scope Q_scope.

Lemma wp_hist_new w Q :
  Q (Ok (fresh (dom (hist_store w))))
    (set_hist_store (<[fresh (dom (hist_store w)) := []]> (hist_store w)) w) ->
  wp hist_new w Q.
Proof. done. Qed.

Lemma wp_hist_append h x l w Q :
  hist_store w !! h = Some l ->
  Q (Ok tt) (set_hist_store (<[h := l ++ [x]]> (hist_store w)) w) ->
  wp (hist_append h x) w Q.
Proof. intros Hl HQ. unfold hist_append. wp_steps. rewrite Hl. by wp_steps. Qed.

Lemma wp_hist_index h i l w Q :
  hist_store w !! h = Some l ->
  Q (lookup_or IndexError (l !! i)) w ->
  wp (hist_index h i) w Q.
Proof. intros Hl HQ. unfold hist_index. wp_steps. rewrite Hl. by wp_steps. Qed.

(** The loop that copies the recent samples appends them to [new_hist]
    and touches nothing else. *)
Lemma prune_history_spec first_seen new_hist old : forall w acc,
  hist_store w !! new_hist = Some acc ->
  wp (prune_history first_seen new_hist old) w
     (fun o w' =>
        o = Ok tt /\
        w' = set_hist_store
               (<[new_hist := acc ++ List.filter (recent first_seen) old]>
                  (hist_store w)) w).
Proof.
  induction old as [| [ts old_alt] old IH]; intros w acc Hacc.
  - simpl. apply wp_ret. split; [done |]. rewrite app_nil_r.
    rewrite insert_id by done. by destruct w.
  - cbn [prune_history List.filter]. unfold recent at 1. cbn [fst].
    apply wp_bind, wp_when.
    destruct (Qltb (first_seen - ts) 20).
    + eapply wp_hist_append; [exact Hacc |].
      eapply wp_mono.
      { apply (IH _ (acc ++ [(ts, old_alt)])). rsimpl.
        by rewrite lookup_insert_eq. }
      simpl. intros o w' [-> ->]. split; [done |]. rsimpl.
      by rewrite insert_insert_eq, <- app_assoc.
    + by apply IH.
Qed.

Lemma rebuild_history_spec address first_seen decoded_altitude ac old w :
  hist_store w !! alt_history ac = Some old ->
  wp (rebuild_history address first_seen decoded_altitude ac) w
     (fun o w1 =>
        let new_hist := fresh (dom (hist_store w)) in
        let ac1 := set_alt_history new_hist
                     (set_last_altitude_time (Some first_seen)
                        (set_altitude (Some decoded_altitude) ac)) in
        o = Ok (ac1, new_hist) /\
        hist_store w1 =
          <[new_hist := List.filter (recent first_seen) old
                          ++ [(first_seen, decoded_altitude)]]> (hist_store w) /\
        aircraft w1 = <[address := ac1]> (aircraft w) /\
        same_objects w w1).
Proof.
  intros Hold. unfold rebuild_history. wp_steps.
  apply wp_hist_new. wp_steps.
  assert (Hne : fresh (dom (hist_store w)) <> alt_history ac).
  { intros Heq. apply (is_fresh (dom (hist_store w))). rewrite Heq.
    apply elem_of_dom. eauto. }
  rewrite lookup_insert_ne, Hold by done. rsimpl. apply wp_bind.
  eapply wp_mono.
  { apply (prune_history_spec _ _ _ _ []). rsimpl. apply lookup_insert_eq. }
  simpl. intros o w1 [-> ->]. wp_steps.
  eapply wp_hist_append. { apply lookup_insert_eq. }
  wp_steps. split; [done |]. split.
  - by rewrite !insert_insert_eq.
  - split; [by rewrite !insert_insert_eq | by repeat split].
Qed.

(** Reading [new_hist[0]] of a non-empty list cannot fail; and when the
    head is the sample just appended, [ts_diff] is 0 and the vertical rate
    is left alone. *)
Lemma update_vrate_spec address first_seen decoded_altitude new_hist ac
    head rest w :
  hist_store w !! new_hist = Some (head :: rest) ->
  wp (update_vrate address first_seen decoded_altitude new_hist ac) w
     (fun o w' =>
        (exists ac', o = Ok ac') /\
        (first_seen - head.1 == 0 -> o = Ok ac /\ w' = w)).
Proof.
  intros Hh. unfold update_vrate.
  apply wp_bind. eapply wp_hist_index; [exact Hh |]. simpl.
  destruct (Qgtb (first_seen - head.1) 10) eqn:Hgt.
  - apply wp_bind. eapply wp_hist_index; [exact Hh |]. simpl.
    apply wp_bind, wp_lift. unfold py_div.
    destruct (Qeq_bool ((first_seen - head.1) / 60) 0) eqn:Hz.
    { exfalso. apply Qeq_bool_iff in Hz. apply Qgtb_gt in Hgt. qlra. }
    wp_steps. split; [eauto |]. intros H0. exfalso.
    apply Qgtb_gt in Hgt. qlra.
  - wp_steps. split; [eauto |]. done.
Qed.

(** C10. In the altitude update, [new_hist[0]] is read after the sample
    has been appended through [ac.alt_history], which is the same list
    object as [new_hist]: the list then holds the kept samples followed by
    the new one, so the read cannot raise IndexError.  When no old sample
    was kept, [new_hist[0]] is the new sample, [ts_diff] is 0 and the
    vertical rate is not updated. *)
Theorem new_hist_head_is_safe address first_seen decoded_altitude ac old w :
  hist_store w !! alt_history ac = Some old ->
  let pruned := List.filter (recent first_seen) old in
  let sample := (first_seen, decoded_altitude) in
  wp (rebuild_history address first_seen decoded_altitude ac) w
     (fun o w1 =>
        exists ac1 new_hist,
          o = Ok (ac1, new_hist) /\
          alt_history ac1 = new_hist /\
          hist_store w1 !! new_hist = Some (pruned ++ [sample]) /\
          wp (hist_index new_hist 0) w1
             (fun o0 _ =>
                exists head,
                  o0 = Ok head /\
                  (pruned = [] -> head = sample /\ first_seen - head.1 == 0)) /\
          wp (update_vrate address first_seen decoded_altitude new_hist ac1) w1
             (fun o2 w2 =>
                (exists ac2, o2 = Ok ac2) /\
                (pruned = [] -> o2 = Ok ac1 /\ w2 = w1))) /\
  wp (accept_altitude address first_seen decoded_altitude ac) w
     (fun o w' =>
        exists ac', o = Ok ac' /\
          (pruned = [] ->
           vrate ac' = vrate ac /\ vrate_time ac' = vrate_time ac)).
Proof.
  intros Hold pruned sample.
  assert (Hhead : exists head rest,
             pruned ++ [sample] = head :: rest /\
             (pruned = [] -> head = sample)).
  { destruct pruned as [| x l]; simpl; eauto. eexists _, _. by split. }
  destruct Hhead as (head & rest & Hcons & Hempty).
  assert (Hzero : pruned = [] -> first_seen - head.1 == 0).
  { intros H. rewrite (Hempty H). simpl. Lqa.lra. }
  split.
  - eapply wp_mono; [by apply rebuild_history_spec |].
    simpl. intros o w1 (-> & Hh & _ & _). eexists _, _.
    split; [done |]. split; [done |].
    assert (Hnew : hist_store w1 !! fresh (dom (hist_store w))
                   = Some (head :: rest)).
    { rewrite Hh, lookup_insert_eq. by rewrite <- Hcons. }
    split; [by rewrite Hnew, Hcons |]. split.
    + eapply wp_hist_index; [exact Hnew |]. simpl. exists head. split; [done |].
      intros H. split; [by apply Hempty | by apply Hzero].
    + eapply wp_mono; [by eapply update_vrate_spec |].
      simpl. intros o2 w2 [Hok Hsame]. split; [done |].
      intros H. by apply Hsame, Hzero.
  - unfold accept_altitude. apply wp_bind.
    eapply wp_mono; [by apply rebuild_history_spec |].
    simpl. intros o w1 (-> & Hh & _ & _).
    eapply wp_mono.
    { eapply (update_vrate_spec _ _ _ _ _ head rest).
      rewrite Hh, lookup_insert_eq. by rewrite <- Hcons. }
    simpl. intros o2 w2 [[ac2 ->] Hsame]. exists ac2. split; [done |].
    intros H. destruct (Hsame (Hzero H)) as [[= ->] _]. by rsimpl.
Qed.

End AltitudeFacts.

(** *** The time of the last result *)

Lemma same_aircraft_refl w : same_aircraft w w.
Proof. done. Qed.

Lemma same_aircraft_trans w1 w2 w3 :
  same_aircraft w1 w2 -> same_aircraft w2 w3 -> same_aircraft w1 w3.
Proof. unfold same_aircraft. congruence. Qed.

Ltac frame_ac := frame_by same_aircraft_refl same_aircraft_trans.

Section AircraftFrame.
Variable E : Env.

Lemma hist_new_aircraft : preserves same_aircraft hist_new.
Proof. by intros w. Qed.

Lemma hist_append_aircraft h x : preserves same_aircraft (hist_append h x).
Proof. unfold hist_append. frame_ac. Qed.

Lemma hist_index_aircraft h i : preserves same_aircraft (hist_index h i).
Proof. unfold hist_index. frame_ac. Qed.

Hint Resolve hist_append_aircraft hist_index_aircraft : frame.

Lemma prune_history_aircraft first_seen new_hist old :
  preserves same_aircraft (prune_history first_seen new_hist old).
Proof. induction old as [| [ts old_alt] old IH]; simpl; frame_ac. Qed.

Lemma select_cluster_aircraft decoded ac altitude altitude_dof pr stack :
  preserves same_aircraft
    (select_cluster E decoded ac altitude altitude_dof pr stack).
Proof.
  induction stack as [| [[distinct cluster_utc] cluster] stack IH]; simpl;
    frame_ac.
Qed.

Lemma call_handlers_aircraft handlers cluster_utc address position
    position_cov receivers distinct dof k error :
  preserves same_aircraft
    (call_handlers handlers cluster_utc address position position_cov
       receivers distinct dof k error).
Proof. induction handlers as [| handler handlers IH]; simpl; frame_ac. Qed.

Lemma write_pseudorange_aircraft file address altitude ecef s :
  preserves same_aircraft (write_pseudorange E file address altitude ecef s).
Proof. unfold write_pseudorange. frame_ac. Qed.

Lemma find_altitude_aircraft first_seen ac :
  preserves same_aircraft (find_altitude E first_seen ac).
Proof. unfold find_altitude. frame_ac. Qed.

Lemma altitude_accepted_aircraft first_seen decoded_altitude ac :
  preserves same_aircraft (altitude_accepted first_seen decoded_altitude ac).
Proof. unfold altitude_accepted. frame_ac. Qed.

End AircraftFrame.

#[global] Hint Resolve hist_new_aircraft hist_append_aircraft
  hist_index_aircraft prune_history_aircraft call_handlers_aircraft
  write_pseudorange_aircraft find_altitude_aircraft
  altitude_accepted_aircraft : frame.

(** Use a frame lemma for the computation at the head of the goal. *)
Ltac wp_frame_ac :=
  eapply wp_mono;
  [ apply (wp_preserves same_aircraft); solve [auto with frame]
  | let o := fresh "o" in let w' := fresh "w" in let H := fresh "Hsame" in
    cbv beta; intros o w' H; unfold same_aircraft in H; rsimpl_in H ].

Ltac wp_go := repeat (first [wp_step | wp_case | wp_frame_ac]).

(** Bring the aircraft map of the current world back to that of the
    initial world. *)
Ltac ac_rewrite :=
  rsimpl;
  repeat match goal with
         | H : aircraft ?w' = _ |- context [aircraft ?w'] => rewrite H
         end;
  rewrite ?insert_insert_eq.

(** The goal at the end of a path through a computation that only stores
    the aircraft at [address]. *)
Ltac ac_leaf Hac :=
  unfold ac_updated; ac_rewrite; eexists;
  split; [first [reflexivity | symmetry; apply insert_id; exact Hac] |];
  rsimpl; split; [reflexivity |]; split; [reflexivity |];
  try (intros ? [= <-]; reflexivity); try (intros ? [=]).

Lemma result_time_le_refl ac : result_time_le ac ac.
Proof. intros H. split; [done | apply Qle_refl]. Qed.

(** The goal at the end of a path through [_resolve]: every aircraft of
    the initial world is still there, its last result not older. *)
Ltac mono_leaf fin :=
  let a := fresh "a" in
  let ac0 := fresh "ac0" in
  let Ha := fresh "Ha" in
  let Hne := fresh "Hne" in
  intros a ac0 Ha; ac_rewrite;
  repeat match goal with
         | H : aircraft _ !! _ = Some _ |- _ => progress rsimpl_in H
         end;
  first
    [ eexists; split; [exact Ha | apply result_time_le_refl]
    | lazymatch goal with
      | |- exists _, <[?addr := _]> _ !! _ = _ /\ _ =>
          destruct (decide (a = addr)) as [-> | Hne];
          [ rewrite lookup_insert_eq; eexists; split; [reflexivity |];
            match goal with
            | H : aircraft _ !! addr = Some _ |- _ =>
                rewrite H in Ha; injection Ha as <-
            end;
            unfold result_time_le; rsimpl; fin
          | rewrite lookup_insert_ne by done; eexists;
            split; [exact Ha | apply result_time_le_refl] ]
      end ].

Section AircraftFacts.
Local Open Scope Q_scope.
Variable E : Env.

Lemma update_vrate_ac address first_seen decoded_altitude new_hist ac w :
  aircraft w !! address = Some ac ->
  wp (update_vrate address first_seen decoded_altitude new_hist ac) w
     (ac_updated address ac (fun r => r) w).
Proof.
  intros Hac. unfold update_vrate. wp_go; ac_leaf Hac.
Qed.

Lemma rebuild_history_ac address first_seen decoded_altitude ac w :
  aircraft w !! address = Some ac ->
  wp (rebuild_history address first_seen decoded_altitude ac) w
     (ac_updated address ac fst w).
Proof.
  intros Hac. unfold rebuild_history. wp_go; ac_leaf Hac.
Qed.

Lemma ac_updated_bind {A B} address ac (getA : A -> Aircraft)
    (getB : B -> Aircraft) (m : M A) (k : A -> M B) w :
  wp m w (ac_updated address ac getA w) ->
  (forall a w1,
      aircraft w1 !! address = Some (getA a) ->
      wp (k a) w1 (ac_updated address (getA a) getB w1)) ->
  wp (mbind m k) w (ac_updated address ac getB w).
Proof.
  intros Hm Hk. apply wp_bind. eapply wp_mono; [exact Hm |].
  intros o w1 (ac1 & Hw1 & Hp & Ht & Hr). destruct o as [a | why].
  - specialize (Hr a eq_refl). subst ac1.
    eapply wp_mono; [apply Hk; by rewrite Hw1, lookup_insert_eq |].
    intros o2 w2 (ac2 & Hw2 & Hp2 & Ht2 & Hr2). exists ac2.
    split; [by rewrite Hw2, Hw1, insert_insert_eq |].
    split; [congruence |]. split; [congruence | done].
  - exists ac1. split; [done |]. split; [done |]. split; [done |].
    intros r [=].
Qed.

Lemma ac_updated_ret address ac w :
  aircraft w !! address = Some ac ->
  wp (ret ac) w (ac_updated address ac (fun r => r) w).
Proof. intros Hac. wp_go; ac_leaf Hac. Qed.

Lemma accept_altitude_ac address first_seen decoded_altitude ac w :
  aircraft w !! address = Some ac ->
  wp (accept_altitude address first_seen decoded_altitude ac) w
     (ac_updated address ac (fun r => r) w).
Proof.
  intros Hac. unfold accept_altitude.
  apply (ac_updated_bind address ac fst).
  - by apply rebuild_history_ac.
  - intros [ac1 new_hist] w1 Hac1. by apply update_vrate_ac.
Qed.

Lemma update_from_message_ac address first_seen decoded ac w :
  aircraft w !! address = Some ac ->
  wp (update_from_message address first_seen decoded ac) w
     (ac_updated address ac (fun r => r) w).
Proof.
  intros Hac. unfold update_from_message.
  apply (ac_updated_bind address ac (fun r => r)).
  { destruct (d_altitude decoded) as [a |]; [| by apply ac_updated_ret].
    destruct (_ && _); [| by apply ac_updated_ret].
    wp_go; try solve [ac_leaf Hac].
    eapply wp_mono; [apply accept_altitude_ac; by rewrite Hsame |].
    intros o' w' (ac' & Hw' & ?). exists ac'. by rewrite <- Hsame. }
  intros ac1 w1 Hac1. apply (ac_updated_bind address ac1 (fun r => r)).
  { destruct (d_squawk decoded); wp_go; ac_leaf Hac1. }
  intros ac2 w2 Hac2.
  destruct (d_callsign decoded); wp_go; ac_leaf Hac2.
Qed.

(** Publishing stores the new result at [address], whatever happens
    afterwards. *)
Lemma publish_ac g address ac altitude s w :
  wp (publish E g address ac altitude s) w
     (fun o w' =>
        exists ac',
          aircraft w' = <[address := ac']> (aircraft w) /\
          is_Some (last_result_position ac') /\
          last_result_time ac' = s_cluster_utc s).
Proof.
  unfold publish. wp_go.
  all: ac_rewrite; eexists; (split; [reflexivity |]); rsimpl; by eauto.
Qed.

Lemma find_prior_time first_seen ac :
  is_Some (last_result_position ac) ->
  last_result_time ac <= p_time (find_prior first_seen ac).
Proof.
  intros [pos Hpos]. unfold find_prior. rewrite Hpos.
  destruct (Qgtb _ _) eqn:Hold; simpl; [| apply Qle_refl].
  apply Qgtb_gt in Hold. Lqa.lra.
Qed.

Lemma wp_conj {A} (m : M A) w (Q1 Q2 : outcome A -> World -> Prop) :
  wp m w Q1 -> wp m w Q2 -> wp m w (fun o w' => Q1 o w' /\ Q2 o w').
Proof. unfold wp. auto. Qed.

Lemma resolve_result_time group w :
  wp (_resolve E group) w
     (fun o w' =>
        forall address ac,
          aircraft w !! address = Some ac ->
          exists ac', aircraft w' !! address = Some ac' /\
                      result_time_le ac ac').
Proof.
  unfold _resolve. wp_go;
    try solve [mono_leaf ltac:(intros ?; split; [done | apply Qle_refl])].
  eapply wp_mono;
    [apply update_from_message_ac; rsimpl; by rewrite lookup_insert_eq |].
  intros o w2 (ac2 & Hw2 & Hp2 & Ht2 & Hr2).
  rsimpl_in Hw2. rewrite !insert_insert_eq in Hw2.
  rsimpl_in Hp2. rsimpl_in Ht2.
  destruct o as [a0 | why].
  2: { destruct why;
         mono_leaf ltac:(rewrite ?Hp2, ?Ht2; intros ?;
                         split; [done | apply Qle_refl]). }
  specialize (Hr2 _ eq_refl). subst a0.
  wp_go;
    try solve [mono_leaf ltac:(rewrite ?Hp2, ?Ht2; intros ?;
                               split; [done | apply Qle_refl])].
  eapply wp_mono.
  { apply wp_conj;
      [apply (wp_preserves same_aircraft), select_cluster_aircraft
      | apply select_cluster_accepted]. }
  cbv beta. intros o1 w3 [Hsame3 Hacc]. unfold same_aircraft in Hsame3.
  rsimpl_in Hsame3.
  destruct o1 as [[s |] | why]; wp_go;
    try solve [mono_leaf ltac:(rewrite ?Hp2, ?Ht2; intros ?;
                               split; [done | apply Qle_refl])].
  destruct (Hacc s eq_refl) as (_ & Herr & Hel & _ & Hthrottle).
  eapply wp_mono; [apply publish_ac |].
  cbv beta. intros o4 w4 (ac4 & Hw4 & Hpos4 & Ht4).
  assert (Hle : is_Some (last_result_position a) ->
                last_result_time a <= last_result_time ac4).
  { intros Hsome. rewrite Ht4.
    pose proof (find_prior_time (g_first_seen m)
                  (set_last_resolve_attempt (time_time E (time_calls w)) ac2))
      as Hprior.
    rsimpl_in Hprior. rewrite Hp2, Ht2 in Hprior. specialize (Hprior Hsome).
    assert (H0 : 0 <= inject_Z (s_error s)).
    { rewrite Herr. unfold int_sqrt.
      change 0 with (inject_Z 0). rewrite <- Zle_Qle. apply Z.sqrt_nonneg. }
    rewrite Hel in Hthrottle. clear -Hprior H0 Hthrottle.
    set (e := inject_Z (s_error s)) in *. clearbody e. qlra. }
  destruct o4 as [[] | []];
    mono_leaf ltac:(intros ?; split; [exact Hpos4 | by apply Hle]).
Qed.

Lemma result_time_le_trans ac1 ac2 ac3 :
  result_time_le ac1 ac2 -> result_time_le ac2 ac3 -> result_time_le ac1 ac3.
Proof.
  intros H12 H23 H1. destruct (H12 H1) as [H2 Hle12].
  destruct (H23 H2) as [H3 Hle23]. split; [done |].
  eapply Qle_trans; eauto.
Qed.

(** The same over the calls that a cohort makes when it fires. *)
Lemma process_groups_result_time groups : forall w,
  wp (process_groups E groups) w
     (fun o w' =>
        forall address ac,
          aircraft w !! address = Some ac ->
          exists ac', aircraft w' !! address = Some ac' /\
                      result_time_le ac ac').
Proof.
  induction groups as [| group groups IH]; intros w; simpl.
  - apply wp_ret. intros address ac Hac. exists ac.
    split; [done | apply result_time_le_refl].
  - apply wp_bind, wp_deref.
    destruct (group_store w !! group) as [g |];
      [| intros address ac Hac; exists ac;
         split; [done | apply result_time_le_refl]].
    apply wp_bind.
    eapply (wp_mono _ _ (fun o w' =>
              forall address ac,
                aircraft w !! address = Some ac ->
                exists ac', aircraft w' !! address = Some ac' /\
                            result_time_le ac ac')).
    { destruct (g_handle g) as [[] |].
      - apply resolve_result_time.
      - apply wp_raise. intros address ac Hac. exists ac.
        split; [done | apply result_time_le_refl]. }
    intros [[] | why] w1 H1; [| exact H1].
    eapply wp_mono; [apply IH |]. simpl.
    intros o w2 H2 address ac Hac.
    destruct (H1 address ac Hac) as (ac1 & Hac1 & Hle1).
    destruct (H2 address ac1 Hac1) as (ac2 & Hac2 & Hle2).
    exists ac2. split; [done |]. by eapply result_time_le_trans.
Qed.

(** C4. Across a call of [_resolve], and so across all the calls a cohort
    makes, the time of the last result of an aircraft that has one does not
    decrease: when [_resolve] accepts a result and assigns
    [ac.last_result_time = cluster_utc], the new value is at least the
    previous one. *)
Theorem last_result_time_monotone group groups w o w' address ac :
  aircraft w !! address = Some ac ->
  is_Some (last_result_position ac) ->
  _resolve E group w = (o, w') \/ process_groups E groups w = (o, w') ->
  exists ac',
    aircraft w' !! address = Some ac' /\
    is_Some (last_result_position ac') /\
    last_result_time ac <= last_result_time ac'.
Proof.
  intros Hac Hsome Hrun.
  assert (H : exists ac', aircraft w' !! address = Some ac' /\
                          result_time_le ac ac').
  { destruct Hrun as [Hrun | Hrun].
    - exact (wp_run _ _ _ _ _ (resolve_result_time group w) Hrun
               address ac Hac).
    - exact (wp_run _ _ _ _ _ (process_groups_result_time groups w) Hrun
               address ac Hac). }
  destruct H as (ac' & Hac' & Hle). exists ac'. split; [done |].
  by apply Hle.
Qed.

End AircraftFacts.

(** *** The error estimate *)

Lemma Q2R_inject_Z (z : Z) : Q2R (inject_Z z) = IZR z.
Proof. unfold Q2R, inject_Z. simpl. lra. Qed.

(** [int_sqrt x] is the real square root of [x] truncated to an integer,
    which is what [int(math.sqrt(x))] computes. *)
Lemma int_sqrt_real (x : Q) :
  (0 <= x)%Q ->
  (IZR (int_sqrt x) <= sqrt (Q2R x) < IZR (int_sqrt x) + 1)%R.
Proof.
  intros Hx. unfold int_sqrt.
  assert (Hf : (0 <= Qfloor x)%Z).
  { change 0%Z with (Qfloor 0). by apply Qfloor_resp_le. }
  pose proof (Z.sqrt_spec (Qfloor x) Hf) as [Hlo Hhi]. cbv zeta in Hlo, Hhi.
  pose proof (Z.sqrt_nonneg (Qfloor x)) as Hs.
  set (s := Z.sqrt (Qfloor x)) in *.
  assert (Hfx : (IZR (Qfloor x) <= Q2R x)%R).
  { rewrite <- Q2R_inject_Z. apply Qle_Rle, Qfloor_le. }
  assert (Hxf : (Q2R x < IZR (Qfloor x) + 1)%R).
  { rewrite <- plus_IZR, <- Q2R_inject_Z. apply Qlt_Rlt, Qlt_floor. }
  assert (Hs0 : (0 <= IZR s)%R) by (by apply IZR_le).
  split.
  - rewrite <- (sqrt_square (IZR s)) at 1 by done.
    apply sqrt_le_1_alt. rewrite <- mult_IZR.
    apply IZR_le in Hlo. lra.
  - replace (IZR s + 1)%R with (sqrt ((IZR s + 1) * (IZR s + 1)))
      by (apply sqrt_square; lra).
    apply sqrt_lt_1_alt. split.
    + apply IZR_le in Hf. lra.
    + assert (H : (Qfloor x + 1 <= Z.succ s * Z.succ s)%Z) by lia.
      apply IZR_le in H. rewrite mult_IZR, plus_IZR, succ_IZR in H. lra.
Qed.

Section QualityFacts.
Local Open Scope Q_scope.
Variable E : Env.

(** C3, as the code has it.  For every result that the cluster loop
    accepts, [error] is [int(math.sqrt(abs(trace(ecef_cov))))], the square
    root of the absolute value of the trace truncated to an integer;
    [error <= 10 km]; and [elapsed / 20 >= error / 10 km], where
    [elapsed = cluster_utc - last_result_time].  In particular a result
    with an error of 5 km is rejected when [elapsed] is 5 s and accepted
    when it is 15 s. *)
Theorem accepted_result_quality :
  (forall decoded ac altitude altitude_dof pr stack w w' s,
      select_cluster E decoded ac altitude altitude_dof pr stack w
      = (Ok (Some s), w') ->
      let error := s_error s in
      let elapsed := s_cluster_utc s - p_time pr in
      (IZR error <= sqrt (Q2R (Qabs (cov_trace (s_ecef_cov s))))
       < IZR error + 1)%R /\
      inject_Z error <= 10000 /\
      inject_Z error / 10000 <= elapsed / 20) /\
  (forall decoded ac altitude altitude_dof pr distinct cluster_utc cluster
          ecef ecef_cov w,
      (d_altitude decoded = None -> is_Some altitude ->
       is_Some (last_altitude_time ac)) ->
      (forall a e guess,
          solve E (py_sort member_ts_leb cluster) a e guess
          = Some (ecef, Some ecef_cov)) ->
      int_sqrt (Qabs (cov_trace ecef_cov)) = 5000%Z ->
      (cluster_utc - p_time pr == 5 ->
       (select_cluster E decoded ac altitude altitude_dof pr
          [(distinct, cluster_utc, cluster)] w).1 = Ok None) /\
      (cluster_utc - p_time pr == 15 ->
       exists s,
         (select_cluster E decoded ac altitude altitude_dof pr
            [(distinct, cluster_utc, cluster)] w).1 = Ok (Some s) /\
         s_error s = 5000%Z /\ s_cluster_utc s = cluster_utc)).
Proof.
  split.
  - intros decoded ac altitude altitude_dof pr stack w w' s Hrun.
    pose proof (wp_run _ _ _ _ _
                  (select_cluster_accepted E decoded ac altitude altitude_dof
                     pr stack w) Hrun s eq_refl)
      as (Hvar & Herr & Hel & Hmax & Hthrottle).
    cbv zeta. split; [| split; [done | by rewrite <- Hel]].
    rewrite Herr, Hvar. apply int_sqrt_real, Qabs_nonneg.
  - apply select_cluster_5km.
Qed.

End QualityFacts.

(** * The cluster engine on the heap *)

Module HeapFacts.
Import Engine HeapEngine.

(** ** Stepping through a heap computation *)

Lemma hwp_bind {A B} (m : H A) (k : A -> H B) h Q :
  hwp m h (fun o h' =>
             match o with
             | Ok a => hwp (k a) h' Q
             | Stop why => Q (Stop why) h'
             end) ->
  hwp (hbind m k) h Q.
Proof. unfold hwp, hbind. destruct (m h) as [[a|why] h']; simpl; auto. Qed.

Lemma hwp_mono {A} (m : H A) h (Q Q' : outcome A -> gmap nat obj -> Prop) :
  hwp m h Q -> (forall o h', Q o h' -> Q' o h') -> hwp m h Q'.
Proof. unfold hwp. auto. Qed.

Lemma hwp_ret {A} (a : A) h (Q : outcome A -> gmap nat obj -> Prop) :
  Q (Ok a) h -> hwp (hret a) h Q.
Proof. auto. Qed.

Lemma hwp_lift {A} (o : outcome A) h (Q : outcome A -> gmap nat obj -> Prop) :
  Q o h -> hwp (hlift o) h Q.
Proof. auto. Qed.

Lemma hwp_put l v h (Q : outcome unit -> gmap nat obj -> Prop) :
  Q (Ok tt) (<[l := v]> h) -> hwp (put l v) h Q.
Proof. auto. Qed.

Lemma hwp_alloc v h (Q : outcome nat -> gmap nat obj -> Prop) :
  (forall l, l ∉ dom h -> Q (Ok l) (<[l := v]> h)) -> hwp (alloc v) h Q.
Proof. intros HQ. apply HQ, is_fresh. Qed.

Lemma hwp_get_items l v h (Q : outcome (list item) -> gmap nat obj -> Prop) :
  h !! l = Some (OItems v) -> Q (Ok v) h -> hwp (get_items l) h Q.
Proof. unfold hwp, get_items. intros ->. auto. Qed.

Lemma hwp_get_members l v h
    (Q : outcome (list member) -> gmap nat obj -> Prop) :
  h !! l = Some (OMembers v) -> Q (Ok v) h -> hwp (get_members l) h Q.
Proof. unfold hwp, get_members. intros ->. auto. Qed.

Lemma hwp_get_refs l v h (Q : outcome (list nat) -> gmap nat obj -> Prop) :
  h !! l = Some (ORefs v) -> Q (Ok v) h -> hwp (get_refs l) h Q.
Proof. unfold hwp, get_refs. intros ->. auto. Qed.

Lemma hwp_get_clusters l v h
    (Q : outcome (list (Z * Q * nat)) -> gmap nat obj -> Prop) :
  h !! l = Some (OClusters v) -> Q (Ok v) h -> hwp (get_clusters l) h Q.
Proof. unfold hwp, get_clusters. intros ->. auto. Qed.

Lemma hwp_get_times l v h
    (Q : outcome (list (Q * Q)) -> gmap nat obj -> Prop) :
  h !! l = Some (OTimes v) -> Q (Ok v) h -> hwp (get_times l) h Q.
Proof. unfold hwp, get_times. intros ->. auto. Qed.

Lemma hwp_get_dict l v h
    (Q : outcome (list (rref * (Q * nat))) -> gmap nat obj -> Prop) :
  h !! l = Some (ODict v) -> Q (Ok v) h -> hwp (get_dict l) h Q.
Proof. unfold hwp, get_dict. intros ->. auto. Qed.

Lemma hwp_items_append l v x h (Q : outcome unit -> gmap nat obj -> Prop) :
  h !! l = Some (OItems v) -> Q (Ok tt) (<[l := OItems (v ++ [x])]> h) ->
  hwp (items_append l x) h Q.
Proof.
  intros Hl HQ. apply hwp_bind, (hwp_get_items _ _ _ _ Hl), hwp_put, HQ.
Qed.

Lemma hwp_members_append l v x h (Q : outcome unit -> gmap nat obj -> Prop) :
  h !! l = Some (OMembers v) -> Q (Ok tt) (<[l := OMembers (v ++ [x])]> h) ->
  hwp (members_append l x) h Q.
Proof.
  intros Hl HQ. apply hwp_bind, (hwp_get_members _ _ _ _ Hl), hwp_put, HQ.
Qed.

Lemma hwp_refs_append l v x h (Q : outcome unit -> gmap nat obj -> Prop) :
  h !! l = Some (ORefs v) -> Q (Ok tt) (<[l := ORefs (v ++ [x])]> h) ->
  hwp (refs_append l x) h Q.
Proof.
  intros Hl HQ. apply hwp_bind, (hwp_get_refs _ _ _ _ Hl), hwp_put, HQ.
Qed.

Lemma hwp_clusters_append l v x h
    (Q : outcome unit -> gmap nat obj -> Prop) :
  h !! l = Some (OClusters v) ->
  Q (Ok tt) (<[l := OClusters (v ++ [x])]> h) ->
  hwp (clusters_append l x) h Q.
Proof.
  intros Hl HQ. apply hwp_bind, (hwp_get_clusters _ _ _ _ Hl), hwp_put, HQ.
Qed.

(** ** Frames *)

Lemma frame_on_refl M h : frame_on M h h.
Proof. split; [set_solver | auto]. Qed.

Lemma frame_on_insert M h l v :
  l ∈ M \/ l ∉ dom h -> frame_on M h (<[l := v]> h).
Proof.
  intros Hl. split; [rewrite dom_insert; apply union_subseteq_r |].
  intros l' Hdom HM. apply lookup_insert_ne. intros ->. tauto.
Qed.

Lemma frame_on_step M h h1 l v :
  frame_on M h h1 -> l ∈ M \/ l ∉ dom h -> frame_on M h (<[l := v]> h1).
Proof.
  intros [Hd Hf] Hwhere.
  split; [rewrite dom_insert; etrans; [exact Hd | apply union_subseteq_r] |].
  intros l' Hdom HM. rewrite lookup_insert_ne; [auto |].
  intros ->. tauto.
Qed.

Lemma frame_on_trans M M' h h1 h2 :
  frame_on M h h1 -> frame_on M' h1 h2 ->
  (forall l, l ∈ M' -> l ∈ dom h -> l ∈ M) ->
  frame_on M h h2.
Proof.
  intros [Hd1 H1] [Hd2 H2] HM. split; [set_solver |].
  intros l Hdom Hl. rewrite H2, H1; auto.
Qed.

Lemma frame_on_fresh M h h1 h2 :
  frame_on ∅ h h1 -> frame_on M h1 h2 ->
  (forall l, l ∈ M -> l ∉ dom h) ->
  frame_on ∅ h h2.
Proof.
  intros H1 H2 HM. eapply frame_on_trans; [exact H1 | exact H2 |].
  intros l Hl Hdom. exfalso. eapply HM; eassumption.
Qed.

Lemma frame_on_dom M h h' l : frame_on M h h' -> l ∉ dom h' -> l ∉ dom h.
Proof. intros [Hsub _] Hl Hdom. apply Hl, Hsub, Hdom. Qed.

Lemma frame_on_lookup M h h' l v :
  frame_on M h h' -> h !! l = Some v -> l ∉ M -> h' !! l = Some v.
Proof.
  intros [_ Hf] Hl HM. rewrite Hf; auto. apply elem_of_dom; eauto.
Qed.

Lemma lookup_in_dom (h : gmap nat obj) l v : h !! l = Some v -> l ∈ dom h.
Proof. intros. apply elem_of_dom; eauto. Qed.

Lemma Forall2_elem_l {A B} (P : A -> B -> Prop) l k x :
  Forall2 P l k -> x ∈ l -> exists y, P x y.
Proof.
  induction 1 as [|a b l k HP _ IH]; intros Hx.
  - apply elem_of_nil in Hx as [].
  - apply elem_of_cons in Hx as [->|Hx]; eauto.
Qed.

Lemma Forall2_impl_elem {A B} (P R : A -> B -> Prop) l k :
  Forall2 P l k -> (forall x y, x ∈ l -> P x y -> R x y) -> Forall2 R l k.
Proof.
  induction 1 as [|a b l k HP _ IH]; intros HPR; constructor.
  - apply HPR; [apply elem_of_cons; auto | assumption].
  - apply IH. intros x y Hx. apply HPR, elem_of_cons. auto.
Qed.

Local Open Scope Q_scope.

(** ** Flattening the component *)

Lemma h_flatten_times_spec flat receiver variance ts :
  forall h acc, h !! flat = Some (OItems acc) ->
  h_flatten_times flat receiver variance ts h =
  (Ok tt,
   <[flat := OItems (acc ++ map (fun '(timestamp, utc) =>
                                   (receiver, timestamp, variance, utc)) ts)]>
     h).
Proof.
  induction ts as [|[timestamp utc] ts IH]; intros h acc Hflat; simpl.
  - rewrite app_nil_r, insert_id; auto.
  - unfold hbind at 1. unfold items_append, hbind, get_items, put.
    rewrite Hflat.
    erewrite IH by apply lookup_insert_eq.
    rewrite insert_insert_eq, <- app_assoc. reflexivity.
Qed.

Lemma entry_value_insert h l v e :
  (forall ts, h !! l <> Some (OTimes ts)) ->
  (forall ts, v <> OTimes ts) ->
  entry_value (<[l := v]> h) e = entry_value h e.
Proof.
  intros Hl Hv. destruct e as [receiver [variance timestamps]]. simpl.
  destruct (decide (timestamps = l)) as [->|Hne].
  - rewrite lookup_insert_eq.
    destruct v; try (exfalso; eapply Hv; reflexivity);
      destruct (h !! l) as [[]|] eqn:E; try reflexivity;
      exfalso; eapply Hl; reflexivity.
  - rewrite lookup_insert_ne by auto. reflexivity.
Qed.

Lemma h_flatten_spec flat entries :
  forall h acc comp,
  h !! flat = Some (OItems acc) ->
  Forall2 (fun e v => entry_value h e = Some v) entries comp ->
  h_flatten flat entries h =
  (Ok tt, <[flat := OItems (acc ++ flatten comp)]> h).
Proof.
  induction entries as [|[receiver [variance timestamps]] entries IH];
    intros h acc comp Hflat Hcomp; inversion Hcomp as [|? v ? comp' Hv Hrest];
    subst; simpl.
  - rewrite app_nil_r, insert_id; auto.
  - simpl in Hv. destruct (h !! timestamps) as [[]|] eqn:Ets; try discriminate.
    injection Hv as <-.
    unfold hbind at 1. unfold get_times. rewrite Ets.
    unfold hbind at 1. erewrite h_flatten_times_spec by eassumption.
    erewrite IH.
    + rewrite insert_insert_eq, <- app_assoc. reflexivity.
    + apply lookup_insert_eq.
    + eapply Forall2_impl; [exact Hrest |].
      intros e v' Hv'. simpl. rewrite entry_value_insert; auto.
      intros ts. rewrite Hflat. discriminate.
Qed.

(** ** The rough clustering *)

Lemma h_rough_spec groups rest :
  forall group h gl done cur,
  h !! groups = Some (ORefs (gl ++ [group])) ->
  h !! group = Some (OItems cur) ->
  Forall2 (fun l v => h !! l = Some (OItems v)) gl done ->
  NoDup (gl ++ [group]) ->
  hwp (h_rough groups group rest) h (fun o h' =>
    frame_on {[groups; group]} h h' /\
    match rough_groups done cur rest with
    | Ok result =>
        o = Ok tt /\
        exists gl', h' !! groups = Some (ORefs gl') /\
                    Forall2 (fun l v => h' !! l = Some (OItems v)) gl' result /\
                    NoDup gl' /\
                    (forall l, l ∈ gl' -> l ∈ gl ++ [group] \/ l ∉ dom h)
    | Stop why => o = Stop why
    end).
Proof.
  induction rest as [|t rest IH]; intros group h gl done cur Hgs Hg Hdone Hnd;
    simpl.
  - apply hwp_ret. split; [apply frame_on_refl |]. split; [reflexivity |].
    exists (gl ++ [group]). split; [assumption |].
    split; [apply Forall2_app; auto |]. auto.
  - apply hwp_bind. eapply hwp_get_items; [eassumption |].
    apply hwp_bind, hwp_lift.
    destruct (last cur) as [prev|]; simpl;
      [| split; [apply frame_on_refl | reflexivity]].
    assert (Hne : groups <> group).
    { intros <-. rewrite Hgs in Hg. discriminate. }
    destruct (Qgtb (item_ts t - item_ts prev) 0.002).
    + apply hwp_bind, hwp_alloc. intros group' Hfresh.
      assert (Hne' : groups <> group').
      { intros <-. apply Hfresh. eapply lookup_in_dom; eassumption. }
      apply hwp_bind. eapply hwp_refs_append.
      { rewrite lookup_insert_ne by auto. eassumption. }
      set (h2 := <[groups := _]> _).
      assert (Hitems : forall l v, h !! l = Some (OItems v) ->
                                   h2 !! l = Some (OItems v)).
      { intros l v Hv. unfold h2.
        rewrite lookup_insert_ne
          by (intros <-; rewrite Hgs in Hv; discriminate).
        rewrite lookup_insert_ne; [assumption |].
        intros <-. apply Hfresh. eapply lookup_in_dom; eassumption. }
      eapply hwp_mono.
      { apply (IH group' h2 (gl ++ [group]) (done ++ [cur]) [t]).
        - unfold h2. rewrite lookup_insert_eq, <- app_assoc. reflexivity.
        - unfold h2. rewrite lookup_insert_ne by auto.
          apply lookup_insert_eq.
        - apply Forall2_app.
          + eapply Forall2_impl; [exact Hdone |]. simpl. auto.
          + constructor; [| constructor]. auto.
        - apply NoDup_app. split; [assumption |].
          split; [| apply NoDup_singleton].
          intros l Hl Hl'. apply list_elem_of_singleton in Hl'. subst l.
          apply Hfresh. apply elem_of_app in Hl as [Hl|Hl].
          + destruct (Forall2_elem_l _ _ _ _ Hdone Hl) as [v Hv].
            eapply lookup_in_dom; eassumption.
          + apply list_elem_of_singleton in Hl. subst.
            eapply lookup_in_dom; eassumption. }
      assert (Hf02 : frame_on {[groups; group]} h h2).
      { unfold h2. apply frame_on_step; [| left; set_solver].
        apply frame_on_insert. right. exact Hfresh. }
      intros o h' [Hf Hres]. split.
      * eapply frame_on_trans; [exact Hf02 | exact Hf |].
        intros l Hl Hdom. apply elem_of_union in Hl as [Hl|Hl]; [set_solver |].
        apply elem_of_singleton in Hl. subst. contradiction.
      * destruct (rough_groups (done ++ [cur]) [t] rest); [| exact Hres].
        destruct Hres as (-> & gl' & Hgl' & Hvals & Hnd' & Hnew).
        split; [reflexivity |]. exists gl'. repeat split; auto.
        intros l Hl. destruct (Hnew l Hl) as [Hin|Hout].
        -- apply elem_of_app in Hin as [Hin|Hin]; [auto |].
           apply list_elem_of_singleton in Hin. subst. auto.
        -- right. intros Hdom. apply Hout. apply Hf02. exact Hdom.
    + apply hwp_bind. eapply hwp_items_append; [eassumption |].
      set (h2 := <[group := _]> _).
      eapply hwp_mono.
      { apply (IH group h2 gl done (cur ++ [t])).
        - unfold h2. rewrite lookup_insert_ne by auto. assumption.
        - unfold h2. apply lookup_insert_eq.
        - apply NoDup_app in Hnd as (_ & Hdisj & _).
          eapply Forall2_impl_elem; [exact Hdone |].
          intros l v Hl Hv. simpl in *. unfold h2.
          rewrite lookup_insert_ne; [assumption |].
          intros <-. eapply Hdisj; [exact Hl | apply list_elem_of_singleton; auto].
        - assumption. }
      assert (Hf02 : frame_on {[groups; group]} h h2).
      { apply frame_on_insert. left. set_solver. }
      intros o h' [Hf Hres]. split.
      * eapply frame_on_trans; [exact Hf02 | exact Hf | set_solver].
      * destruct (rough_groups done (cur ++ [t]) rest); [| exact Hres].
        destruct Hres as (-> & gl' & Hgl' & Hvals & Hnd' & Hnew).
        split; [reflexivity |]. exists gl'. repeat split; auto.
        intros l Hl. destruct (Hnew l Hl) as [Hin|Hout]; [auto |].
        right. intros Hdom. apply Hout. apply Hf02. exact Hdom.
Qed.

Lemma cluster_value_frame M h h' c v :
  frame_on M h h' ->
  (forall l ms, l ∈ M -> h !! l <> Some (OMembers ms)) ->
  cluster_value h c = Some v -> cluster_value h' c = Some v.
Proof.
  intros Hf HM. destruct c as [[distinct first_seen] l]. simpl.
  destruct (h !! l) as [[]|] eqn:El; try discriminate.
  intros Hv. rewrite (frame_on_lookup _ _ _ _ _ Hf El); [exact Hv |].
  intros Hl. eapply HM; eauto.
Qed.

Lemma component_value_frame h h' c comp :
  frame_on ∅ h h' ->
  component_value h c = Some comp -> component_value h' c = Some comp.
Proof.
  intros Hf. unfold component_value.
  destruct (h !! c) as [[]|] eqn:Ec; try discriminate.
  rewrite (frame_on_lookup _ _ _ _ _ Hf Ec) by set_solver.
  intros Hcomp. apply mapM_Some in Hcomp. apply mapM_Some.
  eapply Forall2_impl; [exact Hcomp |].
  intros [receiver [variance timestamps]] v. simpl.
  destruct (h !! timestamps) as [[]|] eqn:Ets; try discriminate.
  rewrite (frame_on_lookup _ _ _ _ _ Hf Ets) by set_solver. auto.
Qed.

Section HeapFacts.
Variable Cair : Q.
Variable obj_of : rref -> Receiver.

(** ** Forming one cluster *)

Lemma h_scan_spec last_timestamp group cluster i :
  forall h g cl first_seen distinct,
  h !! group = Some (OItems g) ->
  h !! cluster = Some (OMembers cl) ->
  hwp (h_scan Cair obj_of i last_timestamp group cluster first_seen distinct)
    h (fun o h' =>
    frame_on {[group; cluster]} h h' /\
    match scan Cair obj_of i last_timestamp g
            {| f_cluster := cl; f_first_seen := first_seen;
               f_distinct_receivers := distinct |} with
    | Ok (g', st) =>
        o = Ok (f_first_seen st, f_distinct_receivers st) /\
        h' !! group = Some (OItems g') /\
        h' !! cluster = Some (OMembers (f_cluster st))
    | Stop why => o = Stop why
    end).
Proof.
  induction i as [|i IH]; intros h g cl first_seen distinct Hg Hcl; simpl.
  - apply hwp_ret. split; [apply frame_on_refl | auto].
  - assert (Hne : group <> cluster).
    { intros <-. rewrite Hg in Hcl. discriminate. }
    apply hwp_bind. eapply hwp_get_items; [eassumption |].
    apply hwp_bind, hwp_lift.
    destruct (g !! i) as [[[[receiver timestamp] variance] utc]|]; simpl;
      [| split; [apply frame_on_refl | reflexivity]].
    destruct (Qgtb (last_timestamp - timestamp) 0.002).
    { apply hwp_ret. split; [apply frame_on_refl | auto]. }
    apply hwp_bind. eapply hwp_get_members; [eassumption |].
    apply hwp_bind, hwp_lift.
    destruct (check_against Cair obj_of receiver timestamp cl true)
      as [[can_cluster is_distinct]|why]; simpl;
      [| split; [apply frame_on_refl | reflexivity]].
    destruct can_cluster.
    + apply hwp_bind. eapply hwp_members_append; [eassumption |].
      apply hwp_bind. eapply hwp_get_items.
      { rewrite lookup_insert_ne by auto. eassumption. }
      apply hwp_bind, hwp_put.
      eapply hwp_mono.
      { apply IH.
        - apply lookup_insert_eq.
        - rewrite lookup_insert_ne by auto. apply lookup_insert_eq. }
      intros o h' [Hf Hres]. split; [| exact Hres].
      eapply frame_on_trans; [| exact Hf | set_solver].
      apply frame_on_step; [| left; set_solver].
      apply frame_on_insert. left. set_solver.
    + apply IH; assumption.
Qed.

(** ** Extracting the clusters of a group *)

Lemma h_extract_spec min_receivers group clusters fuel :
  forall h g cls acc,
  h !! group = Some (OItems g) ->
  h !! clusters = Some (OClusters cls) ->
  Forall2 (fun c v => cluster_value h c = Some v) cls acc ->
  hwp (h_extract Cair obj_of fuel min_receivers group clusters) h
    (fun o h' =>
    frame_on {[group; clusters]} h h' /\
    match extract Cair obj_of fuel min_receivers g acc with
    | Ok out =>
        o = Ok tt /\
        exists cls', h' !! clusters = Some (OClusters cls') /\
                     Forall2 (fun c v => cluster_value h' c = Some v) cls' out
    | Stop why => o = Stop why
    end).
Proof.
  induction fuel as [|fuel IH]; intros h g cls acc Hg Hcls Hacc;
    cbn [h_extract extract];
    (apply hwp_bind; eapply hwp_get_items; [eassumption |]);
    destruct (Z.of_nat (length g) <? min_receivers)%Z;
    try (apply hwp_ret; split; [apply frame_on_refl |]; eauto).
  - apply hwp_lift. split; [apply frame_on_refl | reflexivity].
  - assert (Hne : group <> clusters).
    { intros <-. rewrite Hg in Hcls. discriminate. }
    assert (Htypes : forall l ms, l ∈ ({[group; clusters]} : gset nat) ->
                                  h !! l <> Some (OMembers ms)).
    { intros l ms Hl. apply elem_of_union in Hl as [Hl|Hl];
        apply elem_of_singleton in Hl; subst; congruence. }
    apply hwp_bind, hwp_lift.
    destruct (last g) as [[[[receiver timestamp] variance] utc]|]; simpl;
      [| split; [apply frame_on_refl | reflexivity]].
    apply hwp_bind, hwp_put.
    apply hwp_bind, hwp_alloc. intros cluster Hfresh.
    rewrite dom_insert in Hfresh.
    assert (Hcg : cluster <> group) by set_solver.
    assert (Hcd : cluster ∉ dom h) by set_solver.
    assert (Hcc : cluster <> clusters).
    { intros ->. apply Hcd. eapply lookup_in_dom; eassumption. }
    set (h2 := <[cluster := _]> _).
    assert (Hf2 : frame_on {[group; clusters]} h h2).
    { unfold h2. apply frame_on_step; [| right; exact Hcd].
      apply frame_on_insert. left. set_solver. }
    apply hwp_bind. eapply hwp_get_items.
    { unfold h2. rewrite lookup_insert_ne by auto. apply lookup_insert_eq. }
    apply hwp_bind. eapply hwp_mono.
    { apply h_scan_spec.
      - unfold h2. rewrite lookup_insert_ne by auto. apply lookup_insert_eq.
      - unfold h2. apply lookup_insert_eq. }
    intros o h3 [Hf3 Hres].
    destruct (scan Cair obj_of _ timestamp (removelast g) _)
      as [[g' st]|why]; [| subst o; split; [| reflexivity]].
    2: { eapply frame_on_trans; [exact Hf2 | exact Hf3 |].
         intros l Hl Hdom. apply elem_of_union in Hl as [Hl|Hl];
           apply elem_of_singleton in Hl; subst; [set_solver | contradiction]. }
    destruct Hres as (-> & Hg3 & Hc3). cbn [obind].
    assert (Hf03 : frame_on {[group; clusters]} h h3).
    { eapply frame_on_trans; [exact Hf2 | exact Hf3 |].
      intros l Hl Hdom. apply elem_of_union in Hl as [Hl|Hl];
        apply elem_of_singleton in Hl; subst; [set_solver | contradiction]. }
    assert (Hcls3 : h3 !! clusters = Some (OClusters cls)).
    { eapply frame_on_lookup; [exact Hf3 | |].
      2: { intros Hin. apply elem_of_union in Hin as [Hin|Hin];
             apply elem_of_singleton in Hin; congruence. }
      unfold h2. rewrite !lookup_insert_ne by auto. assumption. }
    apply hwp_bind.
    destruct (min_receivers <=? f_distinct_receivers st)%Z.
    + apply hwp_bind. eapply hwp_get_members; [eassumption |].
      apply hwp_bind, hwp_put.
      eapply hwp_clusters_append.
      { rewrite lookup_insert_ne by auto. eassumption. }
      set (h5 := <[clusters := _]> _).
      assert (Hf35 : frame_on {[cluster; clusters]} h3 h5).
      { unfold h5. apply frame_on_step; [| left; set_solver].
        apply frame_on_insert. left. set_solver. }
      assert (Hf05 : frame_on {[group; clusters]} h h5).
      { eapply frame_on_trans; [exact Hf03 | exact Hf35 |].
        intros l Hl Hdom. apply elem_of_union in Hl as [Hl|Hl];
          apply elem_of_singleton in Hl; subst; [contradiction | set_solver]. }
      eapply hwp_mono.
      { eapply (IH h5 g').
        - unfold h5. rewrite !lookup_insert_ne by auto. eassumption.
        - unfold h5. apply lookup_insert_eq.
        - apply Forall2_app.
          + eapply Forall2_impl; [exact Hacc |]. simpl.
            intros c v. eapply cluster_value_frame; eauto.
          + constructor; [| constructor]. simpl. unfold h5.
            rewrite lookup_insert_ne by auto.
            rewrite lookup_insert_eq. reflexivity. }
      intros o h' [Hf Hres]. split; [| exact Hres].
      eapply frame_on_trans; [exact Hf05 | exact Hf | set_solver].
    + apply hwp_ret.
      eapply hwp_mono.
      { eapply (IH h3 g'); [eassumption | eassumption |].
        eapply Forall2_impl; [exact Hacc |]. simpl.
        intros c v. eapply cluster_value_frame; eauto. }
      intros o h' [Hf Hres]. split; [| exact Hres].
      eapply frame_on_trans; [exact Hf03 | exact Hf | set_solver].
Qed.

Lemma h_extract_all_spec min_receivers clusters gl :
  forall h gv cls acc,
  Forall2 (fun l v => h !! l = Some (OItems v)) gl gv ->
  NoDup gl ->
  h !! clusters = Some (OClusters cls) ->
  Forall2 (fun c v => cluster_value h c = Some v) cls acc ->
  hwp (h_extract_all Cair obj_of min_receivers gl clusters) h (fun o h' =>
    frame_on (list_to_set gl ∪ {[clusters]}) h h' /\
    match extract_all Cair obj_of min_receivers gv acc with
    | Ok out =>
        o = Ok tt /\
        exists cls', h' !! clusters = Some (OClusters cls') /\
                     Forall2 (fun c v => cluster_value h' c = Some v) cls' out
    | Stop why => o = Stop why
    end).
Proof.
  induction gl as [|group gl IH]; intros h gv cls acc Hgv Hnd Hcls Hacc;
    inversion Hgv as [|? g ? gv' Hg Hrest]; subst; cbn [h_extract_all extract_all].
  - apply hwp_ret. split; [apply frame_on_refl | eauto].
  - apply NoDup_cons in Hnd as [Hnotin Hnd].
    apply hwp_bind. eapply hwp_get_items; [eassumption |].
    apply hwp_bind. eapply hwp_mono.
    { eapply h_extract_spec; eassumption. }
    intros o h1 [Hf1 Hres].
    assert (Hf01 : frame_on (list_to_set (group :: gl) ∪ {[clusters]}) h h1).
    { eapply frame_on_trans; [apply frame_on_refl | exact Hf1 |].
      intros l Hl _. rewrite list_to_set_cons.
      apply elem_of_union in Hl as [Hl|Hl];
        [apply elem_of_union_l, elem_of_union_l, Hl
        | apply elem_of_union_r, Hl]. }
    destruct (extract Cair obj_of _ min_receivers g acc) as [acc1|why];
      [| subst o; split; [exact Hf01 | reflexivity]].
    destruct Hres as (-> & cls1 & Hcls1 & Hacc1).
    eapply hwp_mono.
    { eapply (IH h1 gv'); [| assumption | eassumption | eassumption].
      eapply Forall2_impl_elem; [exact Hrest |].
      intros l v Hl Hv. simpl in *.
      eapply frame_on_lookup; [exact Hf1 | exact Hv |].
      intros Hin. apply elem_of_union in Hin as [Hin|Hin];
        apply elem_of_singleton in Hin; subst;
        [contradiction | congruence]. }
    intros o h' [Hf Hres]. split; [| exact Hres].
    eapply frame_on_trans; [exact Hf01 | exact Hf |].
    intros l Hl _. rewrite list_to_set_cons.
    apply elem_of_union in Hl as [Hl|Hl];
      [apply elem_of_union_l, elem_of_union_r, Hl
      | apply elem_of_union_r, Hl].
Qed.

(** ** The whole function *)

Lemma h_cluster_timestamps_spec h c comp min_receivers :
  component_value h c = Some comp ->
  hwp (h_cluster_timestamps Cair obj_of c min_receivers) h (fun o h' =>
    frame_on ∅ h h' /\
    match _cluster_timestamps Cair obj_of comp min_receivers with
    | Ok out => exists r, o = Ok r /\ clusters_value h' r = Some out
    | Stop why => o = Stop why
    end).
Proof.
  unfold component_value.
  destruct (h !! c) as [[| | | | |entries]|] eqn:Ec; try discriminate.
  intros Hcomp. apply mapM_Some in Hcomp.
  unfold h_cluster_timestamps, _cluster_timestamps.
  apply hwp_bind, hwp_alloc. intros flat Hflat.
  assert (Hcf : flat <> c).
  { intros ->. apply Hflat. eapply lookup_in_dom; eassumption. }
  apply hwp_bind. eapply hwp_get_dict.
  { rewrite lookup_insert_ne by auto. eassumption. }
  apply hwp_bind. unfold hwp at 1.
  erewrite (h_flatten_spec flat entries _ [] comp);
    [| apply lookup_insert_eq |].
  2: { eapply Forall2_impl; [exact Hcomp |]. intros e v Hv. simpl.
       rewrite entry_value_insert; auto.
       intros ts Hts. apply Hflat. eapply lookup_in_dom; eassumption. }
  cbn [fst snd app]. rewrite insert_insert_eq.
  apply hwp_bind. eapply hwp_get_items; [apply lookup_insert_eq |].
  apply hwp_bind, hwp_put. rewrite insert_insert_eq.
  apply hwp_bind. eapply hwp_get_items; [apply lookup_insert_eq |].
  set (sorted := py_sort ts_leb (flatten comp)).
  set (h1 := <[flat := OItems sorted]> h).
  assert (Hf1 : frame_on ∅ h h1).
  { apply frame_on_insert. right. exact Hflat. }
  apply hwp_bind, hwp_lift.
  destruct (sorted !! 0%nat) as [first|]; cbn [lookup_or obind];
    [| split; [exact Hf1 | reflexivity]].
  apply hwp_bind, hwp_alloc. intros group Hgroup.
  apply hwp_bind, hwp_alloc. intros groups Hgroups.
  rewrite dom_insert in Hgroups.
  assert (Hgg : groups <> group) by set_solver.
  assert (Hgf : group <> flat).
  { intros ->. apply Hgroup. unfold h1. rewrite dom_insert. set_solver. }
  assert (Hgsf : groups <> flat).
  { intros ->. apply Hgroups. unfold h1. rewrite dom_insert. set_solver. }
  set (h2 := <[groups := _]> _).
  assert (Hf12 : frame_on ∅ h1 h2).
  { unfold h2. apply frame_on_step;
      [| right; intros Hin; apply Hgroups, elem_of_union_r, Hin].
    apply frame_on_insert. right. exact Hgroup. }
  apply hwp_bind. eapply hwp_get_items.
  { unfold h2. rewrite !lookup_insert_ne by auto. apply lookup_insert_eq. }
  apply hwp_bind. eapply hwp_mono.
  { apply (h_rough_spec groups (drop 1 sorted) group h2 [] [] [first]).
    - apply lookup_insert_eq.
    - unfold h2. rewrite lookup_insert_ne by auto. apply lookup_insert_eq.
    - constructor.
    - apply NoDup_singleton. }
  intros o h4 [Hf4 Hres].
  assert (Hf02 : frame_on ∅ h h2).
  { eapply frame_on_fresh; [exact Hf1 | exact Hf12 | set_solver]. }
  assert (Hf04 : frame_on ∅ h h4).
  { eapply frame_on_fresh; [exact Hf02 | exact Hf4 |].
    intros l Hl. apply elem_of_union in Hl as [Hl|Hl];
      apply elem_of_singleton in Hl; subst;
      apply (frame_on_dom _ _ _ _ Hf1);
      [intros Hin; apply Hgroups, elem_of_union_r, Hin | exact Hgroup]. }
  destruct (rough_groups [] [first] (drop 1 sorted)) as [gv|why];
    [| subst o; split; [exact Hf04 | reflexivity]].
  destruct Hres as (-> & gl & Hgl & Hgv & Hnd & Hnew). cbn [obind].
  apply hwp_bind, hwp_alloc. intros clusters Hclusters.
  assert (Hcgs : clusters <> groups).
  { intros ->. apply Hclusters. eapply lookup_in_dom; eassumption. }
  apply hwp_bind. eapply hwp_get_refs.
  { rewrite lookup_insert_ne by auto. eassumption. }
  set (h5 := <[clusters := _]> h4).
  apply hwp_bind. eapply hwp_mono.
  { apply (h_extract_all_spec min_receivers clusters gl h5 gv [] []).
    - eapply Forall2_impl_elem; [exact Hgv |].
      intros l v Hl Hv. simpl in *. unfold h5.
      rewrite lookup_insert_ne; [assumption |].
      intros <-. apply Hclusters. eapply lookup_in_dom; eassumption.
    - assumption.
    - apply lookup_insert_eq.
    - constructor. }
  intros o h6 [Hf6 Hres].
  assert (Hf05 : frame_on ∅ h h5).
  { eapply (frame_on_fresh ∅); [exact Hf04 | | set_solver].
    apply frame_on_insert. right. exact Hclusters. }
  assert (Hf06 : frame_on ∅ h h6).
  { eapply frame_on_fresh; [exact Hf05 | exact Hf6 |].
    intros l Hl. apply elem_of_union in Hl as [Hl|Hl].
    - apply elem_of_list_to_set in Hl.
      destruct (Hnew l Hl) as [Hin|Hout].
      + apply list_elem_of_singleton in Hin. subst.
        apply (frame_on_dom _ _ _ _ Hf1). exact Hgroup.
      + apply (frame_on_dom _ _ _ _ Hf02). exact Hout.
    - apply elem_of_singleton in Hl. subst.
      apply (frame_on_dom _ _ _ _ Hf04). exact Hclusters. }
  destruct (extract_all Cair obj_of min_receivers gv []) as [out|why];
    [| subst o; split; [exact Hf06 | reflexivity]].
  destruct Hres as (-> & cls & Hcls & Hout).
  apply hwp_ret. split; [exact Hf06 |].
  exists clusters. split; [reflexivity |].
  unfold clusters_value. rewrite Hcls. apply mapM_Some. exact Hout.
Qed.

Lemma h_cluster_timestamps_value h c comp min_receivers :
  component_value h c = Some comp ->
  exists o h',
    h_cluster_timestamps Cair obj_of c min_receivers h = (o, h') /\
    frame_on ∅ h h' /\
    result_value o h' =
    Some (_cluster_timestamps Cair obj_of comp min_receivers).
Proof.
  intros Hcomp.
  pose proof (h_cluster_timestamps_spec h c comp min_receivers Hcomp) as Hwp.
  unfold hwp in Hwp.
  destruct (h_cluster_timestamps Cair obj_of c min_receivers h) as [o h'].
  simpl in Hwp. destruct Hwp as [Hf Hres].
  exists o, h'. split; [reflexivity |]. split; [exact Hf |].
  destruct (_cluster_timestamps Cair obj_of comp min_receivers) as [out|why].
  - destruct Hres as (r & -> & Hr). simpl. rewrite Hr. reflexivity.
  - subst o. reflexivity.
Qed.

(** C8.  [_cluster_timestamps] is pure.  On a heap [h] that holds a
    component at [c] (a dictionary whose values refer to timestamp
    lists), the call leaves every object of [h] as it was, so the
    component reads the same before and after; what the call returns
    (the clusters, or the exception) is the value of the function
    [_cluster_timestamps] at the component; and a call on any heap and
    location that hold an equal component, the heap the first call left
    included, returns an equal value.  (Receiver objects and their
    [distance] tables are only read; they are the parameter [obj_of].) *)
Theorem cluster_timestamps_is_pure h c comp min_receivers :
  component_value h c = Some comp ->
  exists o h',
    h_cluster_timestamps Cair obj_of c min_receivers h = (o, h') /\
    (forall l, l ∈ dom h -> h' !! l = h !! l) /\
    component_value h' c = Some comp /\
    result_value o h' =
    Some (_cluster_timestamps Cair obj_of comp min_receivers) /\
    (forall hb cb,
        component_value hb cb = Some comp ->
        exists ob hb',
          h_cluster_timestamps Cair obj_of cb min_receivers hb = (ob, hb') /\
          result_value ob hb' = result_value o h').
Proof.
  intros Hcomp.
  destruct (h_cluster_timestamps_value h c comp min_receivers Hcomp)
    as (o & h' & Hrun & Hf & Hval).
  exists o, h'. split; [exact Hrun |]. split; [| split; [| split]].
  - intros l Hl. apply Hf; [exact Hl | set_solver].
  - eapply component_value_frame; eassumption.
  - exact Hval.
  - intros hb cb Hb.
    destruct (h_cluster_timestamps_value hb cb comp min_receivers Hb)
      as (ob & hb' & Hrunb & _ & Hvalb).
    exists ob, hb'. split; [exact Hrunb |]. congruence.
Qed.

End HeapFacts.
End HeapFacts.

(** * The blacklist file *)

Lemma rev_app_snoc (s acc : string) (c : Ascii.ascii) :
  String.rev_app (s ++ String c EmptyString) acc =
  String c (String.rev_app s acc).
Proof.
  revert acc. induction s as [|a s IH]; intros acc; simpl; [reflexivity |].
  apply IH.
Qed.

Lemma rev_snoc (s : string) (c : Ascii.ascii) :
  String.rev (s ++ String c EmptyString) = String c (String.rev s).
Proof. apply rev_app_snoc. Qed.

Lemma lstrip_snoc_space (s : string) (c : Ascii.ascii) :
  py_isspace c = true ->
  lstrip (s ++ String c EmptyString) = EmptyString /\ lstrip s = EmptyString \/
  lstrip (s ++ String c EmptyString) = (lstrip s ++ String c EmptyString)%string.
Proof.
  intros Hc. induction s as [|a s IH]; simpl.
  - rewrite Hc. auto.
  - destruct (py_isspace a); [exact IH | auto].
Qed.

(** Stripping removes a trailing white character, the newline of a line in
    particular. *)
Lemma strip_snoc_space (s : string) (c : Ascii.ascii) :
  py_isspace c = true -> strip (s ++ String c EmptyString) = strip s.
Proof.
  intros Hc. unfold strip.
  destruct (lstrip_snoc_space s c Hc) as [[-> ->] | ->]; [reflexivity |].
  unfold rstrip. rewrite rev_snoc. simpl. rewrite Hc. reflexivity.
Qed.

(** [readline] returns the first of the lines of the text, with its
    newline when it has one. *)
Lemma readline_split_lines (s : string) :
  exists line rest,
    split_lines s = line :: rest /\
    (readline s = line \/
     readline s = (line ++ String (Ascii.ascii_of_N 10) EmptyString)%string).
Proof.
  induction s as [|c s (line & rest & Hs & Hline)];
    cbn [split_lines readline]; [eauto |].
  destruct (Ascii.eqb c (Ascii.ascii_of_N 10)) eqn:Ec.
  - apply Ascii.eqb_eq in Ec. subst c. eexists _, _. split; [reflexivity |].
    right. reflexivity.
  - rewrite Hs. eexists _, _. split; [reflexivity |].
    destruct Hline as [-> | ->]; [left | right]; reflexivity.
Qed.

Lemma readline_first_line (s : string) :
  exists line rest,
    split_lines s = line :: rest /\ strip (readline s) = strip line.
Proof.
  destruct (readline_split_lines s) as (line & rest & Hs & [-> | ->]);
    exists line, rest; (split; [exact Hs |]); [reflexivity |].
  apply strip_snoc_space. reflexivity.
Qed.

(** A first line that is not blank is the entry the specification
    names. *)
Lemma first_line_is_spec (content : string) :
  String.eqb (strip (readline content)) EmptyString = false ->
  spec_first_nonempty_line content = Some (strip (readline content)).
Proof.
  destruct (readline_first_line content) as (line & rest & Hs & ->).
  unfold spec_first_nonempty_line. rewrite Hs. simpl. intros ->. reflexivity.
Qed.

Section BlacklistFacts.

Variable E : Env.

(** C9, as the code has it.  [read_blacklist] reads one line, the first
    of the file.  With no file name configured, or no such file, the
    blacklist becomes the empty set.  With a file, the blacklist becomes
    the set of the first line stripped, or the empty set when that line is
    blank, whatever the lines after it; when the first line is not blank
    this is the set of the first non-empty line of the file.  The new set
    does not depend on the old one.  Any other error of [open] is
    raised, and leaves the blacklist as it was. *)
Theorem read_blacklist_reads_first_line w :
  wp (read_blacklist E) w (fun o w' =>
    match blacklist_filename E with
    | None | Some EmptyString => o = Ok tt /\ blacklist w' = ∅
    | Some name =>
        match open_file E name with
        | NoSuchFile => o = Ok tt /\ blacklist w' = ∅
        | Unreadable => o = Stop (Raise OtherError) /\ w' = w
        | Text content =>
            let user := strip (readline content) in
            o = Ok tt /\
            blacklist w' =
              (if String.eqb user EmptyString then ∅ else {[user]}) /\
            (String.eqb user EmptyString = false ->
             blacklist w' = spec_blacklist content)
        end
    end).
Proof.
  unfold wp, read_blacklist, call, mbind, modify, log, emit, ret, raise.
  destruct (blacklist_filename E) as [[|c name]|]; simpl; auto.
  destruct (open_file E (String c name)) as [| |content]; simpl; auto.
  split; [reflexivity |]. split; [reflexivity |].
  intros Huser. unfold spec_blacklist.
  rewrite (first_line_is_spec content Huser), Huser. reflexivity.
Qed.

End BlacklistFacts.

(** * The theorems on the sample data *)

(** The sample component has one cluster of three receivers, and it
    satisfies what C1 states. *)
Lemma cluster_timestamps_emitted_ok_sample :
  Engine._cluster_timestamps 299702547 sample_obj sample_component 3
    = Ok sample_clusters /\
  Forall (Engine.cluster_ok 299702547 sample_obj 3) sample_clusters.
Proof.
  split; [vm_compute; reflexivity |].
  apply (EngineFacts.cluster_timestamps_emitted_ok 299702547 sample_obj
           sample_component 3 sample_clusters).
  vm_compute. reflexivity.
Defined.

(** Twenty-seven messages after [__init__]: the 27th opens the second
    cohort. *)
Lemma cohort_rolls_over_after_26_sample :
  exists w26 w27,
    feed sample_E (sample_obs 26) sample_start = (Ok tt, w26) /\
    feed sample_E
      [(1%nat, 10%Q, String (Ascii.ascii_of_nat 91) EmptyString, 1000.01%Q)]
      w26 = (Ok tt, w27) /\
    cohort w26 = cohort sample_start /\
    cohort w27 <> cohort sample_start.
Proof.
  destruct (cohort_rolls_over_after_26 sample_E sample_start
              {| c_creationTime := 1000; c_len := 0; c_groups := [];
                 c_handle := 0%nat |}
              (sample_obs 26)
              (1%nat, 10%Q, String (Ascii.ascii_of_nat 91) EmptyString,
               1000.01%Q))
    as (w26 & w27 & H1 & H2 & H3 & _ & H4 & _).
  - vm_compute. reflexivity.
  - reflexivity.
  - reflexivity.
  - reflexivity.
  - apply (bool_decide_unpack _). vm_compute. exact I.
  - unfold sample_obs. simpl seq. simpl fmap. simpl app.
    repeat (constructor;
            [split; [vm_compute; reflexivity | vm_compute; discriminate] |]).
    constructor.
  - exists w26, w27. auto.
Defined.

(** C2 as stated fails: of 26 messages, the 26th ("Z") is placed in the
    cohort that [__init__] created, and no second cohort exists. *)
Lemma twenty_sixth_group_stays :
  (feed sample_E (sample_obs 26) sample_start).1 = Ok tt /\
  cohort (feed sample_E (sample_obs 26) sample_start).2
    = cohort sample_start /\
  dom (cohort_store (feed sample_E (sample_obs 26) sample_start).2)
    = {[cohort sample_start]} /\
  placed_in (feed sample_E (sample_obs 26) sample_start).2 "Z"
    (cohort sample_start).
Proof.
  split; [vm_compute; reflexivity |]. split; [vm_compute; reflexivity |].
  split; [vm_compute; reflexivity |].
  eexists 25%nat, _. split; [vm_compute; reflexivity |].
  split; [vm_compute; reflexivity |].
  apply (list_elem_of_lookup_2 _ 25%nat). reflexivity.
Qed.

(** C3 as stated fails: the sample solver reports a covariance of trace
    100010000, whose square root is above 10 km, and 25 seconds after the
    last result [_resolve] accepts it. *)
Lemma accepted_error_above_10km :
  (_resolve sample_E 0%nat sample_world).1 = Ok tt /\
  (exists ac',
      aircraft (_resolve sample_E 0%nat sample_world).2 !! 1%Z = Some ac' /\
      last_result_time sample_aircraft = 975%Q /\
      last_result_time ac' = 1000%Q /\
      last_result_var ac' = cov_trace sample_cov) /\
  (10000 < sqrt (Q2R (cov_trace sample_cov)))%R.
Proof.
  split; [vm_compute; reflexivity |]. split.
  - eexists. split; [vm_compute; reflexivity |]. repeat split.
  - change (cov_trace sample_cov) with 100010000%Q.
    replace (Q2R 100010000) with 100010000%R by (unfold Q2R; simpl; lra).
    rewrite <- (sqrt_square 10000) at 1 by lra.
    apply sqrt_lt_1; lra.
Qed.

(** The result that [_resolve] accepts in the sample world is 25 seconds
    newer than the last one. *)
Lemma last_result_time_monotone_sample :
  exists ac',
    aircraft (_resolve sample_E 0%nat sample_world).2 !! 1%Z = Some ac' /\
    is_Some (last_result_position ac') /\
    (last_result_time sample_aircraft <= last_result_time ac')%Q.
Proof.
  apply (last_result_time_monotone sample_E 0%nat [] sample_world
           (_resolve sample_E 0%nat sample_world).1
           (_resolve sample_E 0%nat sample_world).2 1%Z sample_aircraft).
  - reflexivity.
  - eexists. reflexivity.
  - left. apply surjective_pairing.
Defined.

(** One second after a result with one degree of freedom, a cluster of
    four receivers without altitude has none: the loop returns. *)
Lemma freshness_gate_returns_sample :
  mbind (select_cluster sample_E sample_decoded sample_aircraft None 0
           sample_prior
           [(4%Z, 976%Q, [(1%nat, 10%Q, 1%Q)]); (5%Z, 999%Q, [])])
        (fun _ => ret tt) sample_world
    = (Stop Return, sample_world).
Proof.
  apply (freshness_gate_returns sample_E sample_decoded sample_aircraft None 0
           sample_prior 4 976 [(1%nat, 10%Q, 1%Q)] [(5%Z, 999%Q, [])]
           (fun _ => ret tt) sample_group 1%Z sample_world).
  vm_compute. reflexivity.
Defined.

(** With MAX_GROUP = 1, a fifth copy of the sample message is dropped and
    its receiver is recorded. *)
Lemma copies_capped_receivers_kept_sample :
  exists w' g',
    receiver_mlat (sample_env 1 None no_files) 5%nat 10 "A" 1000.02
      sample_world = (Ok tt, w') /\
    group_store w' !! 0%nat = Some g' /\
    g_copies g' = g_copies sample_group /\
    g_receivers g' = {[5%nat]} ∪ g_receivers sample_group.
Proof.
  apply (proj1 (copies_capped_receivers_kept (sample_env 1 None no_files)
                  ltac:(simpl; lia))).
  - reflexivity.
  - reflexivity.
  - simpl. lia.
Defined.

(** [_resolve] removes the sample message from the pending map. *)
Lemma resolve_deletes_pending_key_sample :
  pending (_resolve sample_E 0%nat sample_world).2
    = delete "A" (pending sample_world).
Proof.
  apply (proj2 (resolve_deletes_pending_key sample_E sample_world 0%nat
                  sample_group ltac:(reflexivity))
           ltac:(eexists; reflexivity)
           (_resolve sample_E 0%nat sample_world).1).
  apply surjective_pairing.
Defined.

(** C7 as stated fails: [_resolve] on the world that a first [_resolve]
    of the same group left raises KeyError, and so does [_resolve] on a
    world whose pending map is empty. *)
Lemma resolve_twice_raises :
  (_resolve sample_E 0%nat sample_world).1 = Ok tt /\
  (_resolve sample_E 0%nat (_resolve sample_E 0%nat sample_world).2).1
    = Stop (Raise KeyError) /\
  (_resolve sample_E 0%nat (set_pending ∅ sample_world)).1
    = Stop (Raise KeyError).
Proof. repeat split; vm_compute; reflexivity. Qed.

(** The engine on the sample heap: its five objects are as they were,
    and the result is the sample clusters. *)
Lemma cluster_timestamps_is_pure_sample :
  exists o h',
    HeapEngine.h_cluster_timestamps 299702547 sample_obj 0%nat 3 sample_heap
      = (o, h') /\
    (forall l, l ∈ dom sample_heap -> h' !! l = sample_heap !! l) /\
    HeapEngine.component_value h' 0%nat = Some sample_component /\
    HeapEngine.result_value o h' = Some (Ok sample_clusters).
Proof.
  destruct (HeapFacts.cluster_timestamps_is_pure 299702547 sample_obj
              sample_heap 0%nat sample_component 3)
    as (o & h' & Hrun & Hframe & Hcomp & Hval & _).
  - vm_compute. reflexivity.
  - exists o, h'. split; [exact Hrun |]. split; [exact Hframe |].
    split; [exact Hcomp |]. rewrite Hval. vm_compute. reflexivity.
Defined.

(** C9 as stated fails: the first line of the sample file is empty and
    its second line is "alice"; the specification's blacklist is
    {"alice"}, the one [read_blacklist] leaves is empty. *)
Lemma blacklist_second_line_not_read :
  spec_blacklist sample_text = {["alice"]} /\
  blacklist (read_blacklist (sample_env 20 (Some "blacklist.txt") sample_files)
               sample_world).2 = ∅ /\
  blacklist (read_blacklist (sample_env 20 (Some "blacklist.txt") sample_files)
               sample_world).2 <> spec_blacklist sample_text.
Proof.
  split; [vm_compute; reflexivity |]. split; [vm_compute; reflexivity |].
  vm_compute. discriminate.
Qed.

(** An altitude 30 seconds after the only sample of the history: the
    pruned history is empty, and the vertical rate is left alone. *)
Lemma new_hist_head_is_safe_sample :
  exists ac',
    (accept_altitude 1 1020 31000 sample_aircraft sample_world).1 = Ok ac' /\
    vrate ac' = vrate sample_aircraft /\
    vrate_time ac' = vrate_time sample_aircraft.
Proof.
  destruct (new_hist_head_is_safe 1 1020 31000 sample_aircraft
              [(990%Q, 30000%Z)] sample_world ltac:(reflexivity))
    as [_ (ac' & Ho & Hv)].
  exists ac'. split; [exact Ho |]. apply Hv. vm_compute. reflexivity.
Defined.

(** * Part III: further properties of the code *)

(** ** The cluster engine: how it ends *)

Module EngineOutcome.
Import Engine EngineProps.

Lemma scan_sublist Cair obj last_timestamp i :
  forall group st group' st',
  scan Cair obj i last_timestamp group st = Ok (group', st') ->
  group' `sublist_of` group.
Proof.
  induction i as [|i IH]; intros group st group' st' H; simpl in H.
  - injection H as <- <-. reflexivity.
  - inv_bind H. destruct a as [[[receiver timestamp] variance] utc].
    destruct (Qgtb _ _); [injection H as <- <-; reflexivity |].
    inv_bind H. destruct a as [[] is_distinct]; apply IH in H; [| exact H].
    etrans; [exact H | apply sublist_delete].
Qed.

Lemma rough_groups_returns done group rest :
  group <> [] -> exists groups, rough_groups done group rest = Ok groups.
Proof.
  revert done group. induction rest as [|t rest IH]; intros done group Hne;
    simpl; [eauto |].
  destruct group as [|x group _] using rev_ind; [done |].
  rewrite last_snoc. simpl.
  destruct (Qgtb _ _); apply IH; [discriminate |].
  intros Heq. apply app_eq_nil in Heq as [Heq _].
  apply app_eq_nil in Heq as [_ Heq]. discriminate.
Qed.

Section EngineOutcome.
Local Open Scope Q_scope.

Variable Cair : Q.
Variable obj : rref -> Receiver.
Variable min_receivers : Z.
Variable allowed : exn -> Prop.
(** The receivers at hand. *)
Variable known : rref -> Prop.

Hypothesis allowed_key :
  forall r r', known r -> known r' -> r <> r' ->
    distance (obj r) !! uid (obj r') = None -> allowed KeyError.
Hypothesis allowed_div : Cair == 0 -> allowed ZeroDivisionError.
Hypothesis allowed_index : (min_receivers <= 0)%Z -> allowed IndexError.

Lemma check_against_ends receiver timestamp cl :
  forall d0,
  known receiver -> Forall (fun m => known (m_recv m)) cl ->
  ends_in allowed (check_against Cair obj receiver timestamp cl d0).
Proof using allowed_key allowed_div.
  induction cl as [|[[r' t'] v'] cl IH]; intros d0 Hr Hcl; simpl; [done |].
  apply Forall_cons in Hcl as [Hr' Hcl]. simpl in Hr'.
  destruct (decide (r' = receiver)) as [|Hne]; [done |].
  destruct (distance (obj receiver) !! uid (obj r')) as [d|] eqn:Ed; simpl.
  2: { eapply allowed_key; [exact Hr | exact Hr' | | exact Ed]. congruence. }
  unfold py_div. destruct (Qeq_bool Cair 0) eqn:Ec; simpl.
  { apply allowed_div. by apply Qeq_bool_iff. }
  destruct (Qgtb _ _); [done |]. by apply IH.
Qed.

Lemma scan_ends last_timestamp i :
  forall group st,
  (i <= length group)%nat ->
  Forall (fun t => known (item_recv t)) group ->
  Forall (fun m => known (m_recv m)) (f_cluster st) ->
  ends_in allowed (scan Cair obj i last_timestamp group st).
Proof using allowed_key allowed_div.
  induction i as [|i IH]; intros group st Hi Hg Hcl; cbn [scan]; [exact I |].
  destruct (group !! i) as [[[[receiver timestamp] variance] utc]|] eqn:Hx;
    cbn [lookup_or obind].
  2: { apply lookup_ge_None in Hx. unfold item in *. lia. }
  destruct (Qgtb _ _); [done |].
  assert (Hr : known receiver).
  { rewrite Forall_forall in Hg.
    apply (Hg (receiver, timestamp, variance, utc)).
    eapply list_elem_of_lookup_2, Hx. }
  pose proof (check_against_ends receiver timestamp (f_cluster st) true Hr Hcl)
    as Hc.
  destruct (check_against Cair obj receiver timestamp (f_cluster st) true)
    as [[[] is_distinct]|why]; simpl; [| | exact Hc].
  - apply IH; simpl.
    + rewrite length_delete by eauto. lia.
    + eapply Forall_sublist_of; [apply sublist_delete | exact Hg].
    + apply Forall_app. split; [exact Hcl |]. by repeat constructor.
  - apply IH; [lia | exact Hg | exact Hcl].
Qed.

Lemma extract_ends fuel :
  forall group clusters,
  (length group < fuel)%nat ->
  Forall (fun t => known (item_recv t)) group ->
  ends_in allowed (extract Cair obj fuel min_receivers group clusters).
Proof using allowed_key allowed_div allowed_index.
  induction fuel as [|fuel IH]; intros group clusters Hlt Hg; [lia |].
  simpl. destruct (_ <? _)%Z eqn:Etest; [done |].
  apply Z.ltb_ge in Etest.
  destruct (last group) as [[[[receiver timestamp] variance] utc]|] eqn:El;
    simpl.
  2: { apply allowed_index. apply last_None in El. subst group.
       simpl in Etest. lia. }
  pose proof (removelast_length _ _ El) as Hlen.
  apply last_Some_snoc in El.
  assert (Hg' : Forall (fun t => known (item_recv t)) (removelast group) /\
                known receiver).
  { rewrite El in Hg. apply Forall_app in Hg as [Hg Hx]. split; [exact Hg |].
    apply Forall_cons in Hx as [Hx _]. exact Hx. }
  destruct Hg' as [Hg' Hr].
  pose proof (scan_ends timestamp (length (removelast group)) (removelast group)
                {| f_cluster := [(receiver, timestamp, variance)];
                   f_first_seen := utc; f_distinct_receivers := 1 |}
                ltac:(lia) Hg' ltac:(by repeat constructor)) as Hs.
  destruct (scan Cair obj _ _ _ _) as [[group' st]|why] eqn:Es; simpl;
    [| exact Hs].
  pose proof (scan_sublist _ _ _ _ _ _ _ _ Es) as Hsub.
  apply IH.
  - apply sublist_length in Hsub. lia.
  - eapply Forall_sublist_of; [exact Hsub | exact Hg'].
Qed.

Lemma extract_all_ends groups :
  forall clusters,
  Forall (Forall (fun t => known (item_recv t))) groups ->
  ends_in allowed (extract_all Cair obj min_receivers groups clusters).
Proof using allowed_key allowed_div allowed_index.
  induction groups as [|group groups IH]; intros clusters Hg;
    cbn [extract_all]; [done |].
  apply Forall_cons in Hg as [Hg Hgs].
  pose proof (extract_ends (S (length group)) group clusters ltac:(lia) Hg)
    as He.
  destruct (extract Cair obj (S (length group)) min_receivers group clusters)
    as [cs|why]; cbn [obind]; [by apply IH | exact He].
Qed.

Lemma cluster_timestamps_ends component :
  (forall t, t ∈ flatten component -> known (item_recv t)) ->
  flatten component <> [] ->
  ends_in allowed (_cluster_timestamps Cair obj component min_receivers).
Proof using allowed_key allowed_div allowed_index.
  intros Hknown Hne. unfold _cluster_timestamps.
  pose proof (py_sort_perm ts_leb (flatten component)) as Hperm.
  destruct (py_sort ts_leb (flatten component)) as [|first sorted] eqn:Es.
  { apply Permutation_nil_l in Hperm. congruence. }
  simpl. rewrite drop_0.
  destruct (rough_groups_returns [] [first] sorted ltac:(done))
    as [groups Hgroups].
  rewrite Hgroups. simpl.
  apply extract_all_ends.
  apply EngineFacts.rough_groups_concat in Hgroups. simpl in Hgroups.
  assert (Hall : Forall (fun t => known (item_recv t)) (concat groups)).
  { rewrite Hgroups. apply Forall_forall. intros t Ht. apply Hknown.
    by rewrite <- Hperm. }
  clear -Hall. induction groups as [|g groups IH]; [constructor |].
  simpl in Hall. apply Forall_app in Hall as [? ?]. constructor; auto.
Qed.

End EngineOutcome.

Lemma extract_never_returns Cair obj min_receivers fuel :
  (min_receivers <= 0)%Z ->
  forall group clusters out,
  extract Cair obj fuel min_receivers group clusters <> Ok out.
Proof.
  intros Hmin. induction fuel as [|fuel IH]; intros group clusters out; simpl;
    (destruct (_ <? _)%Z eqn:Etest; [apply Z.ltb_lt in Etest; lia |]);
    [discriminate |].
  destruct (last group) as [[[[receiver timestamp] variance] utc]|]; simpl;
    [| discriminate].
  destruct (scan Cair obj _ _ _ _) as [[group' st]|why]; simpl;
    [apply IH | discriminate].
Qed.

Section Outcome.
Local Open Scope Q_scope.

Variable Cair : Q.
Variable obj : rref -> Receiver.

(** The exceptions of the engine and what each one tells. *)
Lemma cluster_timestamps_reasons component min_receivers :
  flatten component <> [] ->
  ends_in (fun e =>
             match e with
             | KeyError => ~ tables_total obj component
             | ZeroDivisionError => Cair == 0
             | IndexError => (min_receivers <= 0)%Z
             | _ => False
             end)
          (_cluster_timestamps Cair obj component min_receivers).
Proof.
  intros Hne.
  apply (cluster_timestamps_ends Cair obj min_receivers _
           (fun r => exists t, t ∈ flatten component /\ item_recv t = r));
    [| auto | auto | eauto | exact Hne].
  intros r r' (t & Ht & <-) (t' & Ht' & <-) Hrr Hnone Htot.
  destruct (Htot t t' Ht Ht' Hrr) as [d Hd]. congruence.
Qed.

(** X1.  How [_cluster_timestamps] ends when at least one receiver is
    asked for.  It raises IndexError exactly on a component without any
    timestamp ([flat_component[0]] of the empty list).  On any other
    component it returns its clusters, unless a receiver lacks the
    distance to another receiver of the component (KeyError) or
    [constants.Cair] is zero (ZeroDivisionError); the loops always come
    to an end. *)
Theorem cluster_timestamps_outcome component min_receivers :
  (1 <= min_receivers)%Z ->
  match _cluster_timestamps Cair obj component min_receivers with
  | Ok _ => flatten component <> []
  | Stop (Raise IndexError) => flatten component = []
  | Stop (Raise KeyError) => ~ tables_total obj component
  | Stop (Raise ZeroDivisionError) => Cair == 0
  | Stop _ => False
  end.
Proof.
  intros Hmin. destruct (flatten component) as [|t flat] eqn:Eflat.
  - unfold _cluster_timestamps. rewrite Eflat. reflexivity.
  - pose proof (cluster_timestamps_reasons component min_receivers
                  ltac:(rewrite Eflat; discriminate)) as Hends.
    destruct (_cluster_timestamps Cair obj component min_receivers)
      as [clusters|[|[]| |]]; simpl in Hends; try done. lia.
Qed.

(** X2.  With zero or fewer receivers asked for, [_cluster_timestamps]
    never returns: [while len(group) >= min_receivers] goes on on the
    empty group, and [group.pop()] raises IndexError (unless a KeyError or
    a ZeroDivisionError of the range test comes first). *)
Theorem cluster_timestamps_nonpositive_min component min_receivers :
  (min_receivers <= 0)%Z ->
  match _cluster_timestamps Cair obj component min_receivers with
  | Ok _ => False
  | Stop (Raise IndexError) => True
  | Stop (Raise KeyError) => ~ tables_total obj component
  | Stop (Raise ZeroDivisionError) => Cair == 0
  | Stop _ => False
  end.
Proof.
  intros Hmin. destruct (flatten component) as [|t flat] eqn:Eflat.
  - unfold _cluster_timestamps. rewrite Eflat. exact I.
  - pose proof (cluster_timestamps_reasons component min_receivers
                  ltac:(rewrite Eflat; discriminate)) as Hends.
    destruct (_cluster_timestamps Cair obj component min_receivers)
      as [clusters|[|[]| |]] eqn:Erun; simpl in Hends; try done.
    unfold _cluster_timestamps in Erun.
    destruct (py_sort ts_leb (flatten component) !! 0%nat) as [first|];
      [| discriminate].
    simpl in Erun.
    destruct (rough_groups_returns [] [first]
                (drop 1 (py_sort ts_leb (flatten component))) ltac:(done))
      as [groups Hgroups].
    rewrite Hgroups in Erun. simpl in Erun.
    destruct groups as [|group groups].
    { apply EngineFacts.rough_groups_concat in Hgroups. discriminate. }
    cbn [extract_all] in Erun.
    destruct (extract Cair obj (S (length group)) min_receivers group [])
      as [cs|why] eqn:Ee; [| discriminate].
    by apply extract_never_returns in Ee.
Qed.

End Outcome.
End EngineOutcome.
(** ** The cluster engine: what its clusters are made of *)

Module EngineShape.
Import Engine EngineProps.

Lemma py_min_le_l a b : (py_min a b <= a)%Q.
Proof.
  unfold py_min. destruct (Qltb b a) eqn:E.
  - apply Qlt_le_weak, Qltb_lt, E.
  - apply Qle_refl.
Qed.

Lemma py_min_le_r a b : (py_min a b <= b)%Q.
Proof.
  unfold py_min. destruct (Qltb b a) eqn:E.
  - apply Qle_refl.
  - apply Qltb_ge, E.
Qed.

Lemma py_min_cases a b : py_min a b = a \/ py_min a b = b.
Proof. unfold py_min. destruct (Qltb b a); auto. Qed.

(** A sorted list is left as it is by a stable sort. *)
Lemma py_sort_sorted_id {A} (leb : A -> A -> bool) (R : relation A) l :
  (forall x y, R x y -> leb x y = true) ->
  StronglySorted R l -> py_sort leb l = l.
Proof.
  intros Hleb. induction 1 as [|x l Hl IH Hx]; simpl; [reflexivity |].
  rewrite IH. destruct l as [|y l]; simpl; [reflexivity |].
  apply Forall_cons in Hx as [Hxy _]. by rewrite (Hleb _ _ Hxy).
Qed.

Section EngineShape.
Local Open Scope Q_scope.

Variable Cair : Q.
Variable obj : rref -> Receiver.

(** What [scan] moves from the group to the cluster. *)
Lemma scan_moves last_timestamp i :
  forall group st group' st',
  scan Cair obj i last_timestamp group st = Ok (group', st') ->
  exists moved,
    f_cluster st' = f_cluster st ++ (item_member <$> moved) /\
    group ≡ₚ group' ++ moved /\
    (f_distinct_receivers st <= f_distinct_receivers st'
       <= f_distinct_receivers st + Z.of_nat (length moved))%Z /\
    f_first_seen st' <= f_first_seen st /\
    Forall (fun t => f_first_seen st' <= item_utc t) moved /\
    (f_first_seen st' = f_first_seen st \/
     Exists (fun t => item_utc t = f_first_seen st') moved).
Proof.
  induction i as [|i IH]; intros group st group' st' H; cbn [scan] in H.
  - injection H as <- <-. exists []. simpl. rewrite !app_nil_r.
    repeat split; auto; try lia; try apply Qle_refl.
  - destruct (group !! i) as [[[[receiver timestamp] variance] utc]|] eqn:Hx;
      cbn [lookup_or obind] in H; [| discriminate].
    destruct (Qgtb _ _).
    { injection H as <- <-. exists []. simpl. rewrite !app_nil_r.
      repeat split; auto; try lia; try apply Qle_refl. }
    inv_bind H. destruct a as [[] is_distinct].
    + apply IH in H as (moved & Hcl & Hperm & Hd & Hfs & Hall & Hex).
      cbn [f_cluster f_first_seen f_distinct_receivers] in *.
      exists ((receiver, timestamp, variance, utc) :: moved).
      split; [| split; [| split; [| split; [| split]]]].
      * rewrite Hcl, <- app_assoc. reflexivity.
      * rewrite <- Permutation_middle, <- Hperm.
        apply delete_Permutation. exact Hx.
      * cbn [length]. destruct is_distinct; lia.
      * eapply Qle_trans; [exact Hfs | apply py_min_le_l].
      * constructor; [| exact Hall]. simpl.
        eapply Qle_trans; [exact Hfs | apply py_min_le_r].
      * destruct Hex as [Heq|Hex]; [| right; by apply Exists_cons_tl].
        rewrite Heq.
        destruct (py_min_cases (f_first_seen st) utc) as [->| Hmin];
          [by left |].
        right. apply Exists_cons_hd. simpl. congruence.
    + by apply IH in H.
Qed.

(** In a group sorted by timestamp, [scan] adds members in descending
    order of timestamp. *)
Lemma scan_descending last_timestamp i :
  forall group st group' st',
  scan Cair obj i last_timestamp group st = Ok (group', st') ->
  StronglySorted ts_le group ->
  StronglySorted (fun a b => m_ts b <= m_ts a) (f_cluster st) ->
  Forall (fun m => Forall (fun t => item_ts t <= m_ts m) (take i group))
         (f_cluster st) ->
  StronglySorted (fun a b => m_ts b <= m_ts a) (f_cluster st').
Proof.
  induction i as [|i IH]; intros group st group' st' H Hg Hcl Hlow;
    cbn [scan] in H.
  - by injection H as <- <-.
  - destruct (group !! i) as [[[[receiver timestamp] variance] utc]|] eqn:Hx;
      cbn [lookup_or obind] in H; [| discriminate].
    destruct (Qgtb _ _); [by injection H as <- <- |].
    inv_bind H.
    unfold item in *. rewrite (take_S_r _ _ _ Hx) in Hlow.
    assert (Hlow' : Forall (fun m => Forall (fun t => item_ts t <= m_ts m)
                                       (take i group)) (f_cluster st)).
    { eapply Forall_impl; [exact Hlow |]. intros m Hlo.
      by apply Forall_app in Hlo as [? _]. }
    destruct a as [[] is_distinct]; [| eapply IH in H; eauto].
    eapply IH in H; [exact H | | |]; cbn [f_cluster].
    + eapply StronglySorted_sublist; [apply sublist_delete | exact Hg].
    + apply StronglySorted_snoc; [exact Hcl |].
      eapply Forall_impl; [exact Hlow |]. intros m Hlo. simpl.
      apply Forall_app in Hlo as [_ Hlo].
      by apply Forall_cons in Hlo as [? _].
    + assert (Htake : take i (delete i group) = take i group).
      { rewrite delete_take_drop. apply take_app_length'.
        rewrite length_take_le; [reflexivity |].
        apply lookup_lt_Some in Hx. lia. }
      rewrite Htake. apply Forall_app. split; [exact Hlow' |].
      constructor; [| constructor]. simpl.
      apply Forall_forall. intros t Ht.
      apply elem_of_take in Ht as (j & Hj & Hji).
      exact (StronglySorted_lookup _ _ _ _ _ _ Hg Hji Hj Hx).
Qed.

Lemma extract_shape min_receivers fuel :
  forall group clusters out,
  extract Cair obj fuel min_receivers group clusters = Ok out ->
  StronglySorted ts_le group ->
  exists useds news,
    out = clusters ++ news /\
    Forall2 made_of useds news /\
    Forall (fun c => ts_ascending c.2) news /\
    concat useds ⊆+ group.
Proof.
  induction fuel as [|fuel IH]; intros group clusters out H Hg; simpl in H.
  - destruct (_ <? _)%Z; [| discriminate]. injection H as <-.
    exists [], []. rewrite app_nil_r. repeat split; try constructor.
    apply submseteq_nil_l.
  - destruct (_ <? _)%Z.
    { injection H as <-. exists [], []. rewrite app_nil_r.
      repeat split; try constructor. apply submseteq_nil_l. }
    inv_bind H. destruct a as [[[receiver timestamp] variance] utc].
    apply lookup_or_Ok in Hm. apply last_Some_snoc in Hm.
    set (x := (receiver, timestamp, variance, utc)) in *.
    pose proof Hg as Hg'. rewrite Hm in Hg'.
    apply StronglySorted_app in Hg' as (Hle & Hrest & _).
    inv_bind H. destruct a as [group' st].
    pose proof (scan_moves _ _ _ _ _ _ Hm0)
      as (moved & Hcl & Hperm & Hd & Hfs & Hall & Hex).
    pose proof (EngineOutcome.scan_sublist _ _ _ _ _ _ _ _ Hm0) as Hsub.
    assert (Hdesc : StronglySorted (fun a b => m_ts b <= m_ts a)
                      (f_cluster st)).
    { eapply scan_descending; [exact Hm0 | exact Hrest | |];
        cbn [f_cluster].
      - repeat constructor.
      - constructor; [| constructor].
        rewrite take_ge by lia. apply Forall_forall. intros t Ht.
        apply (Hle t x Ht). by apply list_elem_of_singleton. }
    cbn [f_cluster f_first_seen f_distinct_receivers] in *.
    apply IH in H as (useds & news & -> & Hmade & Hasc & Hin);
      [| eapply StronglySorted_sublist; eauto].
    assert (Hin' : concat useds ⊆+ group).
    { etrans; [exact Hin |]. apply sublist_submseteq.
      etrans; [exact Hsub |]. rewrite Hm at 2. by apply sublist_inserts_r. }
    destruct (_ <=? _)%Z; [| by exists useds, news].
    exists (reverse (x :: moved) :: useds),
           ((f_distinct_receivers st, f_first_seen st,
             reverse (f_cluster st)) :: news).
    split; [by rewrite <- app_assoc |].
    split; [| split].
    + constructor; [| exact Hmade]. split; [| split; [| split]].
      * rewrite Hcl, fmap_reverse. reflexivity.
      * rewrite length_reverse. cbn [length]. lia.
      * rewrite Forall_reverse. constructor; [exact Hfs | exact Hall].
      * apply Exists_exists. destruct Hex as [Heq|Hex].
        -- exists x. split; [| by rewrite Heq].
           rewrite elem_of_reverse. by left.
        -- apply Exists_exists in Hex as (t & Ht & Hut).
           exists t. split; [| exact Hut].
           rewrite elem_of_reverse. by right.
    + constructor; [| exact Hasc].
      apply (StronglySorted_reverse _ _ Hdesc).
    + cbn [concat]. rewrite reverse_Permutation.
      assert (Hgroup : group ≡ₚ x :: moved ++ group').
      { rewrite Hm at 1. rewrite <- Permutation_cons_append, Hperm.
        constructor. apply Permutation_app_comm. }
      rewrite Hgroup. cbn [app]. constructor.
      apply submseteq_app; [reflexivity | exact Hin].
Qed.

Lemma extract_all_shape min_receivers groups :
  forall clusters out,
  extract_all Cair obj min_receivers groups clusters = Ok out ->
  Forall (StronglySorted ts_le) groups ->
  exists useds news,
    out = clusters ++ news /\
    Forall2 made_of useds news /\
    Forall (fun c => ts_ascending c.2) news /\
    concat useds ⊆+ concat groups.
Proof.
  induction groups as [|group groups IH]; intros clusters out H Hg;
    cbn [extract_all] in H.
  - injection H as <-. exists [], []. rewrite app_nil_r.
    repeat split; try constructor.
  - inv_bind H. apply Forall_cons in Hg as [Hg Hgs].
    apply extract_shape in Hm as (useds1 & news1 & -> & Hmade1 & Hasc1 & Hin1);
      [| exact Hg].
    apply IH in H as (useds2 & news2 & -> & Hmade2 & Hasc2 & Hin2);
      [| exact Hgs].
    exists (useds1 ++ useds2), (news1 ++ news2).
    split; [by rewrite app_assoc |]. split; [by apply Forall2_app |].
    split; [by apply Forall_app |].
    rewrite concat_app. cbn [concat]. by apply submseteq_app.
Qed.

Lemma cluster_timestamps_shape component min_receivers clusters :
  _cluster_timestamps Cair obj component min_receivers = Ok clusters ->
  exists useds,
    Forall2 made_of useds clusters /\
    Forall (fun c => ts_ascending c.2) clusters /\
    concat useds ⊆+ flatten component.
Proof.
  unfold _cluster_timestamps. intros H.
  inv_bind H. apply lookup_or_Ok in Hm. inv_bind H.
  pose proof (EngineFacts.flat_component_sorted (flatten component)) as Hs.
  pose proof (py_sort_perm ts_leb (flatten component)) as Hperm.
  destruct (py_sort ts_leb (flatten component)) as [|t l]; [discriminate |].
  simpl in Hm. injection Hm as ->. change (drop 1 (a :: l)) with l in Hm0.
  apply extract_all_shape in H as (useds & news & -> & Hmade & Hasc & Hin).
  - exists useds. split; [exact Hmade |]. split; [exact Hasc |].
    rewrite (EngineFacts.rough_groups_concat _ _ _ _ Hm0) in Hin.
    simpl in Hin. by rewrite <- Hperm.
  - eapply EngineFacts.rough_groups_sorted; [exact Hm0 | constructor |].
    exact Hs.
Qed.

(** X3.  The clusters that [_cluster_timestamps] returns are made of
    items of the component: there are lists of items
    [(receiver, timestamp, variance, utc)], together a sub-multiset of the
    flattened component (no item serves twice), whose
    [(receiver, timestamp, variance)] are the members of the clusters in
    their order; [first_seen] of a cluster is the earliest [utc] of its
    items; and [distinct] is at least 1 and at most the number of
    members. *)
Theorem clusters_made_of_input component min_receivers clusters :
  _cluster_timestamps Cair obj component min_receivers = Ok clusters ->
  exists useds,
    Forall2 made_of useds clusters /\ concat useds ⊆+ flatten component.
Proof.
  intros H. apply cluster_timestamps_shape in H as (useds & ? & _ & ?).
  eauto.
Qed.

(** X4.  Every cluster that [_cluster_timestamps] returns lists its
    members by ascending timestamp, as the comment on
    [cluster.reverse()] says; sorting it by timestamp, as [_resolve] does
    before it calls the solver, leaves it as it is. *)
Theorem emitted_cluster_ascending component min_receivers clusters :
  _cluster_timestamps Cair obj component min_receivers = Ok clusters ->
  Forall (fun c => ts_ascending c.2 /\ py_sort member_ts_leb c.2 = c.2)
         clusters.
Proof.
  intros H. apply cluster_timestamps_shape in H as (useds & _ & Hasc & _).
  eapply Forall_impl; [exact Hasc |]. intros [[distinct first_seen] members].
  simpl. intros Hs. split; [exact Hs |].
  eapply py_sort_sorted_id; [| exact Hs].
  intros a b Hab. by apply Qle_bool_iff.
Qed.

End EngineShape.
End EngineShape.

(** ** The tracker at work *)

Section RunningFacts.
Local Open Scope Q_scope.
Variable E : Env.

(** What [receiver_mlat] does, in a world where the current cohort and the
    pending group of the message exist. *)
Lemma receiver_mlat_effect receiver timestamp message now w :
  is_Some (cohort_store w !! cohort w) ->
  (forall g, pending w !! message = Some g -> is_Some (group_store w !! g)) ->
  wp (receiver_mlat E receiver timestamp message now) w
     (fun o w' =>
        o = Ok tt /\ (mlat_hit message w w' \/ mlat_miss E message now w w')).
Proof.
  intros [co Hc] Hp. unfold receiver_mlat.
  wp_steps. destruct (pending w !! message) as [g|] eqn:Hm; wp_steps.
  - destruct (Hp g eq_refl) as [G HG].
    rewrite lookup_alter_eq, HG. simpl.
    destruct (MAX_GROUP E <? _)%Z; wp_steps; (split; [done |]); left.
    + exists g, G, (set_g_receivers ({[receiver]} ∪ g_receivers G) G).
      repeat split; try done. by erewrite alter_alt_Some.
    + exists g, G,
        (set_g_copies (g_copies G ++ [(receiver, timestamp, now)])
           (set_g_receivers ({[receiver]} ∪ g_receivers G) G)).
      repeat split; try done.
      erewrite alter_alt_Some;
        [| by erewrite alter_alt_Some, lookup_insert_eq].
      erewrite alter_alt_Some by done. rsimpl.
      by rewrite insert_insert_eq.
  - apply wp_MessageGroup_new. wp_steps. rewrite Hc.
    set (g := fresh (dom (group_store w))).
    destruct (Qgtb _ _ || _) eqn:Hroll; wp_steps.
    + apply wp_Cohort_new. wp_steps.
      rewrite !lookup_alter_eq, lookup_insert_eq. simpl.
      destruct (MAX_GROUP E <? _)%Z; wp_steps; (split; [done |]); right;
        (split; [done |]); eexists co, _; rewrite Hroll;
        (split; [done |]); rewrite !alter_insert_eq; rsimpl;
        repeat split; try reflexivity.
    + rewrite !lookup_alter_eq, lookup_insert_eq. simpl.
      destruct (MAX_GROUP E <? _)%Z; wp_steps; (split; [done |]); right;
        (split; [done |]); eexists co, _; rewrite Hroll;
        (split; [done |]); rewrite !alter_insert_eq; rsimpl;
        repeat split; try reflexivity; by erewrite alter_alt_Some.
Qed.

(** *** The invariants across [receiver_mlat] *)

Lemma same_identity_refl G : same_identity G G.
Proof. by repeat split. Qed.

Lemma groups_extend_insert_same gs g G G' :
  gs !! g = Some G -> same_identity G G' ->
  groups_extend gs (<[g := G']> gs).
Proof.
  intros HG Hid g0 G0 HG0. destruct (decide (g0 = g)) as [->|Hne].
  - rewrite lookup_insert_eq. exists G'. split; [done |]. congruence.
  - rewrite lookup_insert_ne by done. exists G0.
    split; [done | apply same_identity_refl].
Qed.

Lemma groups_extend_insert_fresh gs g G' :
  gs !! g = None -> groups_extend gs (<[g := G']> gs).
Proof.
  intros Hg g0 G0 HG0. rewrite lookup_insert_ne by congruence.
  exists G0. split; [done | apply same_identity_refl].
Qed.

Lemma mlat_hit_extend message w w' :
  mlat_hit message w w' -> groups_extend (group_store w) (group_store w').
Proof.
  intros (g & G & G' & _ & HG & -> & Hid & _).
  by eapply groups_extend_insert_same.
Qed.

Lemma fresh_group_None (w : World) :
  group_store w !! fresh (dom (group_store w)) = None.
Proof. apply not_elem_of_dom, is_fresh. Qed.

Lemma mlat_miss_extend message now w w' :
  mlat_miss E message now w w' ->
  groups_extend (group_store w) (group_store w').
Proof.
  intros (_ & co & G' & _ & -> & _).
  apply groups_extend_insert_fresh, fresh_group_None.
Qed.

(** The members of a cohort stay what they are when groups are added or
    updated. *)
Lemma cohort_members_extend gs gs' co :
  groups_extend gs gs' ->
  (forall g, g ∈ c_groups co ->
     exists G, gs !! g = Some G /\ g_handle G = Some Resolve /\
               g_first_seen G - c_creationTime co <= 0.05) ->
  forall g, g ∈ c_groups co ->
    exists G, gs' !! g = Some G /\ g_handle G = Some Resolve /\
              g_first_seen G - c_creationTime co <= 0.05.
Proof.
  intros Hext Hmem g Hg. destruct (Hmem g Hg) as (G & HG & Hh & Hfs).
  destruct (Hext g G HG) as (G' & HG' & _ & Hf' & Hh').
  exists G'. split; [done |]. by rewrite Hh', Hf'.
Qed.

Lemma cohorts_ok_hit message w w' :
  cohorts_ok w -> mlat_hit message w w' -> cohorts_ok w'.
Proof.
  intros [H0 H1] Hhit. pose proof (mlat_hit_extend _ _ _ Hhit) as Hext.
  destruct Hhit as (g & G & G' & _ & _ & _ & _ & _ & Hc & Hcs & _).
  split; [by rewrite Hc, Hcs |].
  intros c co Hco. rewrite Hcs in Hco.
  destruct (H1 c co Hco) as (Hlen & Hle & Hnd & Hmem).
  repeat split; try done. by eapply cohort_members_extend.
Qed.

Lemma cohorts_ok_miss message now w w' :
  cohorts_ok w -> mlat_miss E message now w w' -> cohorts_ok w'.
Proof.
  intros [H0 H1] Hmiss. pose proof (mlat_miss_extend _ _ _ _ Hmiss) as Hext.
  destruct Hmiss as (_ & co & G' & Hco & Hgs & _ & Hfs & Hh & _ & Hroll).
  cbv zeta in Hroll.
  pose proof (fresh_group_None w) as Hfresh.
  set (g := fresh (dom (group_store w))) in *.
  assert (Hnew : forall creation, now - creation <= 0.05 ->
            exists G, group_store w' !! g = Some G /\
                      g_handle G = Some Resolve /\
                      g_first_seen G - creation <= 0.05).
  { intros creation Hle. exists G'. rewrite Hgs, lookup_insert_eq.
    split; [done |]. split; [done |]. by rewrite Hfs. }
  destruct (Qgtb _ _ || _) eqn:Er; destruct Hroll as (Hc & Hcs & _).
  - split; [rewrite Hc, Hcs, lookup_insert_eq; eauto |].
    intros c1 co1 Hco1. rewrite Hcs in Hco1.
    destruct (decide (c1 = fresh (dom (cohort_store w)))) as [->|Hne].
    + rewrite lookup_insert_eq in Hco1. injection Hco1 as <-. simpl.
      split; [done |]. split; [lia |]. split; [apply NoDup_singleton |].
      intros g0 Hg0. apply list_elem_of_singleton in Hg0 as ->.
      apply Hnew. Lqa.lra.
    + rewrite lookup_insert_ne in Hco1 by done.
      destruct (H1 c1 co1 Hco1) as (Hlen & Hle & Hnd & Hmem).
      repeat split; try done. by eapply cohort_members_extend.
  - apply orb_false_iff in Er as [Eage Efull].
    apply Qgtb_le in Eage. apply Z.ltb_ge in Efull.
    split; [rewrite Hc, Hcs, lookup_insert_eq; eauto |].
    intros c1 co1 Hco1. rewrite Hcs in Hco1.
    destruct (decide (c1 = cohort w)) as [->|Hne].
    + rewrite lookup_insert_eq in Hco1. injection Hco1 as <-. simpl.
      destruct (H1 _ co Hco) as (Hlen & Hle & Hnd & Hmem).
      split; [rewrite length_app; simpl; lia |]. split; [lia |]. split.
      * apply NoDup_app. split; [done |]. split; [| apply NoDup_singleton].
        intros g0 Hg0 Hg0'. apply list_elem_of_singleton in Hg0' as ->.
        destruct (Hmem g Hg0) as (G & HG & _). congruence.
      * intros g0 Hg0. apply elem_of_app in Hg0 as [Hg0|Hg0].
        -- by eapply (cohort_members_extend _ _ co).
        -- apply list_elem_of_singleton in Hg0 as ->. by apply Hnew.
    + rewrite lookup_insert_ne in Hco1 by done.
      destruct (H1 c1 co1 Hco1) as (Hlen & Hle & Hnd & Hmem).
      repeat split; try done. by eapply cohort_members_extend.
Qed.

Lemma pending_ok_hit message w w' :
  pending_ok w -> mlat_hit message w w' -> pending_ok w'.
Proof.
  intros (Hkey & Htim & Hone) Hhit.
  pose proof (mlat_hit_extend _ _ _ Hhit) as Hext.
  destruct Hhit as (g & G & G' & _ & _ & _ & _ & Hp & _ & Hcs & Ht).
  split; [| split].
  - intros m g0 Hm. rewrite Hp in Hm.
    destruct (Hkey m g0 Hm) as (G0 & HG0 & <-).
    destruct (Hext g0 G0 HG0) as (G0' & HG0' & Hmsg & _). eauto.
  - intros t d c Htc. rewrite Ht in Htc.
    destruct (Htim t d c Htc) as (co & Hco & Hh & Hmem).
    exists co. rewrite Hcs. split; [done |]. split; [done |].
    intros g0 Hg0. destruct (Hmem g0 Hg0) as (G0 & HG0 & Hpg).
    destruct (Hext g0 G0 HG0) as (G0' & HG0' & Hmsg & _).
    exists G0'. split; [done |]. by rewrite Hp, Hmsg.
  - intros c c' co co' g0. rewrite Hcs. apply Hone.
Qed.

Lemma pending_ok_miss message now w w' :
  cohorts_ok w -> pending_ok w -> mlat_miss E message now w w' ->
  pending_ok w'.
Proof.
  intros [_ H1] (Hkey & Htim & Hone) Hmiss.
  pose proof (mlat_miss_extend _ _ _ _ Hmiss) as Hext.
  destruct Hmiss as (Hp & co & G' & Hco & Hgs & Hmsg & _ & _ & Hpend & Hroll).
  cbv zeta in Hroll.
  pose proof (fresh_group_None w) as Hfresh.
  set (g := fresh (dom (group_store w))) in *.
  assert (Hnew : group_store w' !! g = Some G' /\
                 pending w' !! g_message G' = Some g).
  { by rewrite Hgs, Hpend, Hmsg, !lookup_insert_eq. }
  assert (Hold : forall g0 G0,
            group_store w !! g0 = Some G0 ->
            pending w !! g_message G0 = Some g0 ->
            exists G0', group_store w' !! g0 = Some G0' /\
                        pending w' !! g_message G0' = Some g0).
  { intros g0 G0 HG0 Hpg. destruct (Hext g0 G0 HG0) as (G0' & HG0' & Hm' & _).
    exists G0'. split; [done |]. rewrite Hm', Hpend.
    rewrite lookup_insert_ne; [done |]. congruence. }
  assert (Hin : forall c1 co1 g0, cohort_store w !! c1 = Some co1 ->
                  g0 ∈ c_groups co1 -> g0 <> g).
  { intros c1 co1 g0 Hco1 Hg0 ->.
    destruct (H1 c1 co1 Hco1) as (_ & _ & _ & Hmem).
    destruct (Hmem g Hg0) as (G & HG & _). congruence. }
  split; [| split].
  - intros m g0 Hm. rewrite Hpend in Hm.
    destruct (decide (m = message)) as [->|Hne].
    + rewrite lookup_insert_eq in Hm. injection Hm as <-.
      exists G'. by rewrite Hgs, lookup_insert_eq.
    + rewrite lookup_insert_ne in Hm by done.
      destruct (Hkey m g0 Hm) as (G0 & HG0 & <-).
      destruct (Hext g0 G0 HG0) as (G0' & HG0' & Hm' & _). eauto.
  - intros t d c Htc.
    destruct (Qgtb _ _ || _); destruct Hroll as (_ & Hcs & Ht);
      rewrite Ht in Htc; rewrite Hcs.
    + destruct (decide (t = fresh (dom (timers w)))) as [->|Hne].
      * rewrite lookup_insert_eq in Htc. injection Htc as <- <-.
        eexists. rewrite lookup_insert_eq. split; [done |]. split; [done |].
        simpl. intros g0 Hg0. apply list_elem_of_singleton in Hg0 as ->.
        exists G'. by destruct Hnew.
      * rewrite lookup_insert_ne in Htc by done.
        destruct (Htim t d c Htc) as (co1 & Hco1 & Hh & Hmem).
        exists co1. rewrite lookup_insert_ne.
        -- split; [done |]. split; [done |]. intros g0 Hg0.
           destruct (Hmem g0 Hg0) as (G0 & HG0 & Hpg). by eapply Hold.
        -- intros <-. apply (is_fresh (dom (cohort_store w))).
           apply elem_of_dom. eauto.
    + destruct (Htim t d c Htc) as (co1 & Hco1 & Hh & Hmem).
      destruct (decide (c = cohort w)) as [->|Hne].
      * rewrite Hco in Hco1. injection Hco1 as <-.
        eexists. rewrite lookup_insert_eq. split; [done |]. split; [done |].
        simpl. intros g0 Hg0. apply elem_of_app in Hg0 as [Hg0|Hg0].
        -- destruct (Hmem g0 Hg0) as (G0 & HG0 & Hpg). by eapply Hold.
        -- apply list_elem_of_singleton in Hg0 as ->.
           exists G'. by destruct Hnew.
      * exists co1. rewrite lookup_insert_ne by done.
        split; [done |]. split; [done |]. intros g0 Hg0.
        destruct (Hmem g0 Hg0) as (G0 & HG0 & Hpg). by eapply Hold.
  - assert (Hfc : cohort_store w !! fresh (dom (cohort_store w)) = None).
    { apply not_elem_of_dom, is_fresh. }
    intros c c' co1 co1' g0.
    destruct (Qgtb _ _ || _); destruct Hroll as (_ & Hcs & _); rewrite Hcs;
      intros Hc1 Hc1' Hg1 Hg1'.
    + destruct (decide (c = fresh (dom (cohort_store w)))) as [->|Hne];
        destruct (decide (c' = fresh (dom (cohort_store w)))) as [->|Hne'];
        [done | | |].
      * rewrite lookup_insert_eq in Hc1. injection Hc1 as <-.
        rewrite lookup_insert_ne in Hc1' by done. simpl in Hg1.
        apply list_elem_of_singleton in Hg1 as ->.
        by destruct (Hin _ _ _ Hc1' Hg1').
      * rewrite lookup_insert_eq in Hc1'. injection Hc1' as <-.
        rewrite lookup_insert_ne in Hc1 by done. simpl in Hg1'.
        apply list_elem_of_singleton in Hg1' as ->.
        by destruct (Hin _ _ _ Hc1 Hg1).
      * rewrite lookup_insert_ne in Hc1, Hc1' by done. eauto.
    + destruct (decide (c = cohort w)) as [->|Hne];
        destruct (decide (c' = cohort w)) as [->|Hne']; [done | | |].
      * rewrite lookup_insert_eq in Hc1. injection Hc1 as <-.
        rewrite lookup_insert_ne in Hc1' by done. simpl in Hg1.
        apply elem_of_app in Hg1 as [Hg1|Hg1]; [eauto |].
        apply list_elem_of_singleton in Hg1 as ->.
        by destruct (Hin _ _ _ Hc1' Hg1').
      * rewrite lookup_insert_eq in Hc1'. injection Hc1' as <-.
        rewrite lookup_insert_ne in Hc1 by done. simpl in Hg1'.
        apply elem_of_app in Hg1' as [Hg1'|Hg1']; [eauto |].
        apply list_elem_of_singleton in Hg1' as ->.
        by destruct (Hin _ _ _ Hc1 Hg1).
      * rewrite lookup_insert_ne in Hc1, Hc1' by done. eauto.
Qed.

(** *** The invariants across a timer *)

(** [_resolve] changes nothing, or removes the key of the group and then
    leaves the tracker's objects alone. *)
Lemma resolve_effect group w :
  wp (_resolve E group) w
     (fun _ w' =>
        w' = w \/
        exists G, group_store w !! group = Some G /\
          is_Some (pending w !! g_message G) /\
          same_objects
            (set_pending (delete (g_message G) (pending w)) w) w').
Proof.
  unfold _resolve. apply wp_call, wp_bind, wp_deref.
  destruct (group_store w !! group) as [G|] eqn:HG; [| by left].
  apply wp_bind, wp_gets, wp_bind.
  destruct (pending w !! g_message G) as [g'|] eqn:Hp;
    [| apply wp_raise; by left].
  apply wp_modify.
  eapply wp_mono; [apply (wp_preserves same_objects); frame |].
  intros o w' Hsame.
  assert (Hr : w' = w \/
               exists G0, Some G = Some G0 /\
                 is_Some (pending w !! g_message G0) /\
                 same_objects
                   (set_pending (delete (g_message G0) (pending w)) w) w').
  { right. exists G. rewrite Hp. eauto. }
  by destruct o as [[]|[]].
Qed.

Lemma tracker_kept_refl w : tracker_kept w w.
Proof. by repeat split. Qed.

Lemma tracker_kept_trans w1 w2 w3 :
  tracker_kept w1 w2 -> tracker_kept w2 w3 -> tracker_kept w1 w3.
Proof.
  intros (? & ? & ? & ? & ? & ? & ?) (? & ? & ? & ? & ? & ? & ?).
  repeat split; try congruence. by etrans.
Qed.

Lemma resolve_kept group : preserves tracker_kept (_resolve E group).
Proof.
  intros w. pose proof (resolve_effect group w) as H. unfold wp in H.
  destruct H as [->|(G & _ & _ & Hg & Hc & Hco & Ht & Hb & Hf & Hp)];
    [apply tracker_kept_refl |].
  rsimpl_in Hg. rsimpl_in Hc. rsimpl_in Hco. rsimpl_in Ht. rsimpl_in Hb.
  rsimpl_in Hf. rsimpl_in Hp.
  repeat split; try done. rewrite Hp. apply delete_subseteq.
Qed.

Lemma process_groups_kept groups :
  preserves tracker_kept (process_groups E groups).
Proof.
  induction groups as [|group groups IH]; simpl.
  - intros w. apply tracker_kept_refl.
  - apply (preserves_bind _ tracker_kept_refl tracker_kept_trans).
    { apply preserves_deref, tracker_kept_refl. }
    intros G. apply (preserves_bind _ tracker_kept_refl tracker_kept_trans);
      [| intros _; exact IH].
    destruct (g_handle G) as [[]|];
      [apply resolve_kept | apply preserves_raise, tracker_kept_refl].
Qed.

(** The keys that a cohort's callbacks remove are the messages of its
    groups. *)
Lemma process_groups_removes groups :
  forall w,
  wp (process_groups E groups) w
     (fun _ w' =>
        forall m, pending w' !! m = pending w !! m \/
                  exists g G, g ∈ groups /\ group_store w !! g = Some G /\
                              g_message G = m).
Proof.
  induction groups as [|group groups IH]; intros w; simpl.
  - apply wp_ret. auto.
  - apply wp_bind, wp_deref.
    destruct (group_store w !! group) as [G|] eqn:HG; [| auto].
    apply wp_bind.
    assert (Hstep : wp (_resolve E group) w (fun _ w1 =>
              group_store w1 = group_store w /\
              forall m, pending w1 !! m = pending w !! m \/ g_message G = m)).
    { eapply wp_mono; [apply resolve_effect |].
      intros _ w1 [->|(G0 & HG0 & _ & Hgs & _ & _ & _ & _ & _ & Hp)];
        [auto |].
      rsimpl_in Hgs. rsimpl_in Hp. split; [done |]. intros m. rewrite Hp.
      rewrite HG in HG0. injection HG0 as <-.
      destruct (decide (g_message G = m)) as [|Hne]; [by right |].
      left. by rewrite lookup_delete_ne. }
    destruct (g_handle G) as [[]|]; [| apply wp_raise; auto].
    eapply wp_mono; [exact Hstep |]. intros o w1 [Hgs Hp1].
    assert (Hhere : forall m,
              pending w1 !! m = pending w !! m \/
              exists g G0, g ∈ group :: groups /\
                group_store w !! g = Some G0 /\ g_message G0 = m).
    { intros m. destruct (Hp1 m) as [?|?]; [by left |].
      right. exists group, G. split; [by left | done]. }
    destruct o as [[]|why]; [| exact Hhere].
    eapply wp_mono; [apply IH |]. intros o2 w' Hp2 m. simpl in Hp2.
    destruct (Hp2 m) as [Heq|(g & G0 & Hg & HG0 & Hm)].
    + rewrite Heq. apply Hhere.
    + right. exists g, G0. rewrite <- Hgs. split; [by right | done].
Qed.

Lemma fire_timer_kept timer :
  forall w,
  wp (fire_timer E timer) w
     (fun _ w' =>
        w' = w \/
        exists d c,
          timers w !! timer = Some (d, c) /\
          group_store w' = group_store w /\
          cohort_store w' = cohort_store w /\ cohort w' = cohort w /\
          timers w' = delete timer (timers w) /\
          pending w' ⊆ pending w /\
          forall co, cohort_store w !! c = Some co ->
            forall m, pending w' !! m = pending w !! m \/
              exists g G, g ∈ c_groups co /\ group_store w !! g = Some G /\
                          g_message G = m).
Proof.
  intros w. unfold fire_timer. apply wp_bind, wp_gets.
  destruct (timers w !! timer) as [[d c]|] eqn:Ht; [| apply wp_ret; by left].
  apply wp_bind, wp_modify.
  set (w1 := set_timers (delete timer (timers w)) w).
  unfold Cohort_process. apply wp_call, wp_bind, wp_deref.
  change (cohort_store w1) with (cohort_store w).
  assert (Hnone : forall w', w' = w1 ->
            exists d0 c0,
              Some (d, c) = Some (d0, c0) /\
              group_store w' = group_store w /\
              cohort_store w' = cohort_store w /\ cohort w' = cohort w /\
              timers w' = delete timer (timers w) /\
              pending w' ⊆ pending w /\
              forall co, cohort_store w !! c0 = Some co ->
                forall m, pending w' !! m = pending w !! m \/
                  exists g G, g ∈ c_groups co /\
                    group_store w !! g = Some G /\ g_message G = m).
  { intros w' ->. exists d, c. repeat split; auto. }
  destruct (cohort_store w !! c) as [co|] eqn:Hco;
    [| right; exact (Hnone w1 eq_refl)].
  pose proof (process_groups_kept (c_groups co) w1) as Hkept.
  pose proof (process_groups_removes (c_groups co) w1) as Hrem.
  unfold wp in *.
  destruct (process_groups E (c_groups co) w1) as [o w']. simpl in *.
  destruct Hkept as (Hg & Hcs & Hc & Htm & _ & _ & Hp).
  assert (Hres : w' = w \/
            exists d0 c0,
              Some (d, c) = Some (d0, c0) /\
              group_store w' = group_store w /\
              cohort_store w' = cohort_store w /\ cohort w' = cohort w /\
              timers w' = delete timer (timers w) /\
              pending w' ⊆ pending w /\
              forall co0, cohort_store w !! c0 = Some co0 ->
                forall m, pending w' !! m = pending w !! m \/
                  exists g G, g ∈ c_groups co0 /\
                    group_store w !! g = Some G /\ g_message G = m).
  { right. exists d, c. repeat split; try done.
    intros co0 Hco0. rewrite Hco in Hco0. injection Hco0 as <-. exact Hrem. }
  by destruct o as [[]|[]].
Qed.

Lemma cohorts_ok_timer timer w :
  cohorts_ok w -> wp (fire_timer E timer) w (fun _ w' => cohorts_ok w').
Proof.
  intros Hok. eapply wp_mono; [apply fire_timer_kept |].
  intros _ w' [->|(d & c & _ & Hg & Hcs & Hc & _)]; [done |].
  unfold cohorts_ok. by rewrite Hg, Hcs, Hc.
Qed.

Lemma pending_ok_timer timer w :
  pending_ok w -> wp (fire_timer E timer) w (fun _ w' => pending_ok w').
Proof.
  intros (Hkey & Htim & Hone). eapply wp_mono; [apply fire_timer_kept |].
  intros _ w' [->|(d & c & Ht & Hg & Hcs & Hc & Htm & Hp & Hrem)]; [done |].
  destruct (Htim _ _ _ Ht) as (co & Hco & Hh & Hmem).
  specialize (Hrem co Hco).
  split; [| split].
  - intros m g Hm. rewrite Hg. apply Hkey.
    eapply lookup_weaken; [exact Hm | exact Hp].
  - intros t' d' c' Ht'. rewrite Htm in Ht'.
    apply lookup_delete_Some in Ht' as [Hne Ht'].
    destruct (Htim _ _ _ Ht') as (co' & Hco' & Hh' & Hmem').
    exists co'. rewrite Hcs, Hg. split; [done |]. split; [done |].
    intros g Hgin. destruct (Hmem' g Hgin) as (G & HG & Hpg).
    exists G. split; [done |].
    destruct (Hrem (g_message G)) as [->|(g0 & G0 & Hg0 & HG0 & Hmsg)];
      [done |].
    destruct (Hmem g0 Hg0) as (G1 & HG1 & Hpg0).
    rewrite HG0 in HG1. injection HG1 as <-.
    rewrite Hmsg, Hpg in Hpg0. injection Hpg0 as ->.
    pose proof (Hone _ _ _ _ _ Hco Hco' Hg0 Hgin) as ->. congruence.
  - intros c1 c2 co1 co2 g. rewrite Hcs. apply Hone.
Qed.

(** *** The invariants across the other events *)

Lemma same_batcher_refl w : same_batcher w w.
Proof. by repeat split. Qed.

Lemma same_batcher_trans w1 w2 w3 :
  same_batcher w1 w2 -> same_batcher w2 w3 -> same_batcher w1 w3.
Proof.
  intros (? & ? & ? & ? & ?) (? & ? & ? & ? & ?). repeat split; congruence.
Qed.

Lemma read_blacklist_batcher : preserves same_batcher (read_blacklist E).
Proof.
  unfold read_blacklist. frame_by same_batcher_refl same_batcher_trans.
Qed.

Lemma reopen_pseudoranges_batcher :
  preserves same_batcher (reopen_pseudoranges E).
Proof.
  unfold reopen_pseudoranges. frame_by same_batcher_refl same_batcher_trans.
Qed.

Lemma same_batcher_ok w w' :
  same_batcher w w' -> cohorts_ok w /\ pending_ok w ->
  cohorts_ok w' /\ pending_ok w'.
Proof.
  intros (Hp & Hc & Hg & Hcs & Ht). unfold cohorts_ok, pending_ok.
  by rewrite Hp, Hc, Hg, Hcs, Ht.
Qed.

(** *** The invariants after [__init__] *)

Lemma call_outcome m w : (call m w).1 <> Stop Return.
Proof. unfold call. by destruct (m w) as [[[]|[]] w']. Qed.

Lemma wp_called (R : World -> World -> Prop) m w :
  preserves R (call m) ->
  wp (call m) w (fun o w' => o <> Stop Return /\ R w w').
Proof. intros HR. split; [apply call_outcome | apply HR]. Qed.

Lemma fresh_start_ok w co t d :
  pending w = ∅ -> group_store w = ∅ ->
  cohort_store w = {[cohort w := co]} ->
  c_len co = 0%Z -> c_groups co = [] -> c_handle co = t ->
  timers w = {[t := (d, cohort w)]} ->
  cohorts_ok w /\ pending_ok w.
Proof.
  intros Hp Hg Hcs Hlen Hgroups Hh Ht.
  assert (Hco : forall c1 co1, cohort_store w !! c1 = Some co1 ->
                               c1 = cohort w /\ co1 = co).
  { intros c1 co1. rewrite Hcs. intros H1.
    by apply lookup_singleton_Some in H1 as [<- <-]. }
  split; [split | split; [| split]].
  - rewrite Hcs, lookup_singleton_eq. eauto.
  - intros c1 co1 H1. destruct (Hco _ _ H1) as [-> ->].
    rewrite Hlen, Hgroups.
    split; [reflexivity |]. split; [lia |]. split; [constructor |].
    intros g Hgin. by apply elem_of_nil in Hgin.
  - intros m g. by rewrite Hp, lookup_empty.
  - intros t1 d1 c1. rewrite Ht. intros H1.
    apply lookup_singleton_Some in H1 as [<- [= <- <-]].
    exists co. rewrite Hcs, lookup_singleton_eq. split; [done |].
    split; [done |]. rewrite Hgroups. intros g Hgin.
    by apply elem_of_nil in Hgin.
  - intros c1 c2 co1 co2 g H1 H2 _ _.
    destruct (Hco _ _ H1) as [-> _]. by destruct (Hco _ _ H2) as [-> _].
Qed.

Lemma init_ok w0 :
  blank w0 ->
  wp (MlatTracker_init E) w0
     (fun o w => o = Ok tt -> cohorts_ok w /\ pending_ok w).
Proof.
  intros (Hg0 & Hc0 & Ht0). unfold MlatTracker_init.
  apply wp_call, wp_bind, wp_modify, wp_bind.
  eapply wp_mono;
    [apply (wp_called same_batcher), read_blacklist_batcher |].
  intros o w1 [Hret (Hp1 & _ & Hg1 & Hc1 & Ht1)].
  rsimpl_in Hp1. rsimpl_in Hg1. rsimpl_in Hc1. rsimpl_in Ht1.
  destruct o as [[]|[]]; try done.
  apply wp_bind, wp_time_now, wp_bind, wp_Cohort_new.
  apply wp_bind, wp_modify, wp_bind, wp_modify. rsimpl.
  set (w2 := set_pseudorange_file None _).
  assert (Hok : cohorts_ok w2 /\ pending_ok w2).
  { eapply (fresh_start_ok w2 _ _ (MLAT_DELAY E)); unfold w2; rsimpl.
    - exact Hp1.
    - congruence.
    - rewrite Hc1, Hc0. apply insert_empty.
    - reflexivity.
    - reflexivity.
    - reflexivity.
    - rewrite Ht1, Ht0. apply insert_empty. }
  destruct (pseudorange_filename E) as [[|]|]; try (apply wp_ret; done).
  eapply wp_mono;
    [apply (wp_called same_batcher), reopen_pseudoranges_batcher |].
  intros o w3 [Hret' Hsame]. destruct o as [[]|[]]; try done.
  intros _. by eapply same_batcher_ok.
Qed.

(** *** The invariants of a running tracker *)

Lemma step_ok w w' :
  tracker_step E w w' -> cohorts_ok w /\ pending_ok w ->
  cohorts_ok w' /\ pending_ok w'.
Proof.
  intros Hstep [Hc Hp].
  destruct Hstep as [w receiver timestamp message now o w' Hrun
                    | w timer o w' Hrun | w o w' Hrun | w o w' Hrun
                    | w w' Hout].
  - assert (Heff := receiver_mlat_effect receiver timestamp message now w
                      (proj1 Hc)).
    eapply wp_run in Heff; [| | exact Hrun].
    + destruct Heff as [_ [Hhit|Hmiss]].
      * split; [by eapply cohorts_ok_hit | by eapply pending_ok_hit].
      * split; [by eapply cohorts_ok_miss | by eapply pending_ok_miss].
    + intros g Hg. destruct (proj1 Hp _ _ Hg) as (G & HG & _). eauto.
  - split.
    + exact (wp_run _ _ _ _ _ (cohorts_ok_timer timer w Hc) Hrun).
    + exact (wp_run _ _ _ _ _ (pending_ok_timer timer w Hp) Hrun).
  - eapply same_batcher_ok; [| done].
    exact (preserves_run _ _ _ _ _ read_blacklist_batcher Hrun).
  - eapply same_batcher_ok; [| done].
    exact (preserves_run _ _ _ _ _ reopen_pseudoranges_batcher Hrun).
  - destruct Hout as (Hp' & Hc' & _ & _ & Hg' & Hcs' & Ht').
    unfold cohorts_ok, pending_ok. by rewrite Hp', Hc', Hg', Hcs', Ht'.
Qed.

Lemma running_ok w : running E w -> cohorts_ok w /\ pending_ok w.
Proof.
  intros (w1 & (w0 & Hblank & Hinit) & Hsteps).
  assert (H1 : cohorts_ok w1 /\ pending_ok w1).
  { by apply (wp_run _ _ _ _ _ (init_ok w0 Hblank) Hinit). }
  clear Hinit. induction Hsteps as [|w1 w2 w3 Hstep _ IH]; [done |].
  apply IH. by eapply step_ok.
Qed.

(** X5.  In every world of a running tracker the current cohort exists,
    and of every cohort: [len] is the number of its groups, which is at
    most 26; no group is listed twice; every group has [_resolve] as its
    callback and was first seen at most 50 ms after the cohort was
    created. *)
Theorem running_cohorts_ok w : running E w -> cohorts_ok w.
Proof. intros H. by apply running_ok. Qed.

(** X6.  In every world of a running tracker the pending map sends a
    message to a group with that message; every group of a cohort whose
    timer has not expired is pending under its message; and no group is
    in two cohorts. *)
Theorem running_pending_ok w : running E w -> pending_ok w.
Proof. intros H. by apply running_ok. Qed.

(** [receiver_mlat] returns in a running tracker, and the tracker goes
    on running. *)
Lemma receiver_mlat_returns w receiver timestamp message now :
  running E w ->
  exists w',
    receiver_mlat E receiver timestamp message now w = (Ok tt, w') /\
    running E w'.
Proof.
  intros Hrun. destruct (running_ok w Hrun) as [Hc Hp].
  destruct (receiver_mlat E receiver timestamp message now w) as [o w']
    eqn:Hcall.
  assert (Heff := receiver_mlat_effect receiver timestamp message now w
                    (proj1 Hc)).
  eapply wp_run in Heff; [| | exact Hcall].
  - destruct Heff as [-> _]. exists w'. split; [done |].
    destruct Hrun as (w1 & Hstart & Hsteps). exists w1. split; [done |].
    eapply rtc_r; [exact Hsteps |]. by eapply step_mlat.
  - intros g Hg. destruct (proj1 Hp _ _ Hg) as (G & HG & _). eauto.
Qed.

(** X7.  When the timer of a cohort expires in a running tracker, every
    call [group.handle(group)] that is reached finds a callback, and its
    [del self.pending[group.message]] finds the key: if the callbacks of
    the groups before [g] returned, [g] has its callback and is still
    pending under its message. *)
Theorem timer_finds_pending_keys w timer d c co done g rest w1 :
  running E w ->
  timers w !! timer = Some (d, c) ->
  cohort_store w !! c = Some co ->
  c_groups co = done ++ g :: rest ->
  process_groups E done (set_timers (delete timer (timers w)) w)
    = (Ok tt, w1) ->
  exists G,
    group_store w1 !! g = Some G /\ g_handle G = Some Resolve /\
    pending w1 !! g_message G = Some g.
Proof.
  intros Hrun Ht Hco Hgroups Hdone.
  destruct (running_ok w Hrun) as [[_ Hc] (_ & Htim & _)].
  destruct (Hc c co Hco) as (_ & _ & Hnd & Hmem).
  destruct (Htim _ _ _ Ht) as (co' & Hco' & _ & Hpend).
  rewrite Hco in Hco'. injection Hco' as <-.
  assert (Hg : g ∈ c_groups co).
  { rewrite Hgroups. apply elem_of_app. right. by left. }
  destruct (Hmem g Hg) as (G & HG & Hh & _).
  destruct (Hpend g Hg) as (G' & HG' & Hpg).
  rewrite HG in HG'. injection HG' as <-.
  pose proof (preserves_run _ _ _ _ _ (process_groups_kept done) Hdone)
    as (Hgs & _).
  pose proof (wp_run _ _ _ _ _ (process_groups_removes done _) Hdone) as Hrem.
  rsimpl_in Hgs. rsimpl_in Hrem.
  exists G. rewrite Hgs. split; [done |]. split; [done |].
  destruct (Hrem (g_message G)) as [->|(g0 & G0 & Hg0 & HG0 & Hmsg)]; [done |].
  assert (Hg0' : g0 ∈ c_groups co).
  { rewrite Hgroups. apply elem_of_app. by left. }
  destruct (Hpend g0 Hg0') as (G1 & HG1 & Hpg0).
  rewrite HG0 in HG1. injection HG1 as <-.
  rewrite Hmsg, Hpg in Hpg0. injection Hpg0 as <-.
  rewrite Hgroups in Hnd. apply NoDup_app in Hnd as (_ & Hdisj & _).
  destruct (Hdisj g Hg0). by left.
Qed.

End RunningFacts.

(** ** What [_resolve] leaves alone *)

(** The goal at the end of a path through [_resolve]: the aircraft map
    is the initial one, but for the aircraft at the decoded address. *)
Ltac kept_leaf :=
  unfold aircraft_kept, decoded_address;
  repeat match goal with
         | H : aircraft _ !! _ = Some _ |- _ => progress rsimpl_in H
         | H : aircraft _ !! _ = None |- _ => progress rsimpl_in H
         end;
  repeat match goal with
         | H : ?x = _ |- context [match ?x with _ => _ end] => rewrite H
         end;
  ac_rewrite;
  split;
  [ rewrite ?dom_insert_lookup_L by eauto; reflexivity
  | let a := fresh "a" in let Hne := fresh "Hne" in
    intros a Hne; rewrite ?lookup_insert_ne by congruence; reflexivity ].

Section ResolveMore.
Local Open Scope Q_scope.
Variable E : Env.

(** X8.  [_resolve], and so the callbacks of a cohort, change no
    MessageGroup and no Cohort, and neither the current cohort, the
    timers, the blacklist nor the pseudorange file; of the pending map
    they only remove keys. *)
Theorem resolve_keeps_tracker group groups w :
  tracker_kept w (_resolve E group w).2 /\
  tracker_kept w (process_groups E groups w).2.
Proof. split; [apply resolve_kept | apply process_groups_kept]. Qed.

(** X9.  When the group has fewer than three copies, or its message
    does not decode, has no address or the address 0, or the aircraft is
    not known, [_resolve] returns after it has removed the group from the
    pending map, and has done nothing else. *)
Theorem resolve_gives_up group G w :
  group_store w !! group = Some G ->
  is_Some (pending w !! g_message G) ->
  nothing_to_resolve E w G ->
  _resolve E group w
    = (Ok tt, set_pending (delete (g_message G) (pending w)) w).
Proof.
  intros HG [g' Hp] Hnothing. apply wp_eq. unfold _resolve.
  apply wp_call, wp_bind, wp_deref. rewrite HG.
  apply wp_bind, wp_gets, wp_bind. rewrite Hp. apply wp_modify.
  apply wp_bind, wp_when.
  destruct (Z.of_nat (length (g_copies G)) <? 3)%Z eqn:Elen;
    [by apply wp_return |].
  apply Z.ltb_ge in Elen.
  destruct Hnothing as [Hlen|Hdec]; [lia |].
  apply wp_bind, wp_or_return.
  destruct (decode E (g_message G)) as [decoded|]; [| done].
  apply wp_bind, wp_or_return.
  destruct (d_address decoded) as [address|]; [| done].
  apply wp_bind, wp_when.
  destruct (address =? 0)%Z eqn:Ezero; [by apply wp_return |].
  apply Z.eqb_neq in Ezero. destruct Hdec as [|Hac]; [done |].
  apply wp_bind, wp_gets. rsimpl. rewrite Hac.
  apply wp_bind, wp_or_return. done.
Qed.

(** X10.  [_resolve] adds no aircraft, removes none, and changes none
    but the one whose address the message decodes to. *)
Theorem resolve_touches_one_aircraft group w :
  aircraft_kept (decoded_address E w group) w (_resolve E group w).2.
Proof.
  change (wp (_resolve E group) w
            (fun _ w' => aircraft_kept (decoded_address E w group) w w')).
  unfold _resolve. wp_go; try solve [kept_leaf].
  eapply wp_mono;
    [apply update_from_message_ac; rsimpl; by rewrite lookup_insert_eq |].
  intros o w2 (ac2 & Hw2 & _ & _ & Hr2).
  rsimpl_in Hw2. rewrite !insert_insert_eq in Hw2.
  destruct o as [a0|why]; [| destruct why; kept_leaf].
  specialize (Hr2 _ eq_refl). subst a0.
  wp_go; try solve [kept_leaf].
  eapply wp_mono;
    [apply (wp_preserves same_aircraft), select_cluster_aircraft |].
  cbv beta. intros o1 w3 Hsame3. unfold same_aircraft in Hsame3.
  rsimpl_in Hsame3.
  destruct o1 as [[s|]|why]; wp_go; try solve [kept_leaf].
  eapply wp_mono; [apply publish_ac |].
  cbv beta. intros o4 w4 (ac4 & Hw4 & _).
  destruct o4 as [[]|[]]; kept_leaf.
Qed.

End ResolveMore.

(** ** The exceptions of [_resolve] *)

Section RaisesFacts.
Context (allowed : exn -> Prop).

Lemma raises_only_bind {A B} (m : M A) (k : A -> M B) :
  raises_only allowed m -> (forall a, raises_only allowed (k a)) ->
  raises_only allowed (mbind m k).
Proof.
  intros Hm Hk w. unfold mbind. specialize (Hm w).
  destruct (m w) as [[a|why] w']; [apply Hk | exact Hm].
Qed.

Lemma raises_only_call m : raises_only allowed m -> raises_only allowed (call m).
Proof.
  intros Hm w. unfold call. specialize (Hm w).
  by destruct (m w) as [[[]|[]] w'].
Qed.

Lemma raises_only_when (b : bool) m :
  raises_only allowed m -> raises_only allowed (when b m).
Proof. by destruct b. Qed.

Lemma raises_only_pure {A} (m : M A) :
  (forall w, exists a, (m w).1 = Ok a) -> raises_only allowed m.
Proof. intros H w. destruct (H w) as [a ->]. exact I. Qed.

Lemma raises_only_deref {A} (store : World -> gmap nat A) r :
  raises_only allowed (deref store r).
Proof. intros w. unfold deref. by destruct (store w !! r). Qed.

Lemma raises_only_number {A} (o : option A) :
  allowed TypeError -> raises_only allowed (number o).
Proof. intros H w. by destruct o. Qed.

Lemma raises_only_or_return {A} (o : option A) :
  raises_only allowed (or_return o).
Proof. intros w. by destruct o. Qed.

Lemma raises_only_ret {A} (a : A) : raises_only allowed (ret a).
Proof. by intros w. Qed.

Lemma raises_only_return {A} : raises_only allowed (@return_ A).
Proof. by intros w. Qed.

Lemma raises_only_raise {A} e : allowed e -> raises_only allowed (@raise A e).
Proof. by intros H w. Qed.

Lemma raises_only_lift {A} (o : outcome A) :
  may_raise allowed o -> raises_only allowed (lift o).
Proof. by intros H w. Qed.

Lemma wp_raises_only {A} (m : M A) w :
  raises_only allowed m -> wp m w (fun o _ => may_raise allowed o).
Proof. intros Hm. apply Hm. Qed.

End RaisesFacts.

Create HintDb raises discriminated.

(** Prove that a computation raises allowed exceptions only, by following
    its structure. *)
Ltac raises :=
  cbv zeta;
  lazymatch goal with
  | |- raises_only _ (mbind _ _) =>
      apply raises_only_bind; [raises | intros ?; raises]
  | |- raises_only _ (call _) => apply raises_only_call; raises
  | |- raises_only _ (when ?b _) =>
      destruct b eqn:?; cbn [when]; [raises | apply raises_only_ret]
  | |- raises_only _ (deref _ _) => apply raises_only_deref
  | |- raises_only _ (number _) =>
      apply raises_only_number; try solve [auto with raises]
  | |- raises_only _ (or_return _) => apply raises_only_or_return
  | |- raises_only _ return_ => apply raises_only_return
  | |- raises_only _ (raise _) =>
      apply raises_only_raise; try solve [auto with raises]
  | |- raises_only _ (match ?x with _ => _ end) => destruct x eqn:?; raises
  | |- raises_only _ _ =>
      first [ solve [auto with raises]
            | solve [apply raises_only_pure; intros ?; eexists; reflexivity]
            | idtac ]
  end.

Section ResolveRaises.
Local Open Scope Q_scope.
Variable E : Env.

Lemma no_math_TypeError : no_math_error E TypeError.
Proof. by split. Qed.
Lemma no_math_IndexError : no_math_error E IndexError.
Proof. by split. Qed.
Lemma no_math_KeyError : no_math_error E KeyError.
Proof. by split. Qed.
Lemma no_math_OtherError : no_math_error E OtherError.
Proof. by split. Qed.

Hint Resolve no_math_TypeError no_math_IndexError no_math_KeyError
  no_math_OtherError : raises.

Lemma hist_new_raises : raises_only (no_math_error E) hist_new.
Proof. by intros w. Qed.

Lemma may_raise_lookup {A} (o : option A) :
  may_raise (no_math_error E) (lookup_or IndexError o).
Proof. destruct o; [exact I | apply no_math_IndexError]. Qed.

Lemma hist_append_raises h x : raises_only (no_math_error E) (hist_append h x).
Proof. unfold hist_append. raises. Qed.

Lemma hist_index_raises h i : raises_only (no_math_error E) (hist_index h i).
Proof.
  unfold hist_index. raises. apply raises_only_lift, may_raise_lookup.
Qed.

Hint Resolve hist_new_raises hist_append_raises hist_index_raises : raises.

Lemma prune_history_raises first_seen new_hist old :
  raises_only (no_math_error E) (prune_history first_seen new_hist old).
Proof. induction old as [|[ts old_alt] old IH]; simpl; raises. Qed.

Lemma altitude_accepted_raises first_seen decoded_altitude ac :
  raises_only (no_math_error E)
    (altitude_accepted first_seen decoded_altitude ac).
Proof. unfold altitude_accepted. raises. Qed.

Hint Resolve prune_history_raises altitude_accepted_raises : raises.

Lemma rebuild_history_raises address first_seen decoded_altitude ac :
  raises_only (no_math_error E)
    (rebuild_history address first_seen decoded_altitude ac).
Proof. unfold rebuild_history. raises. Qed.

(** The division of [update_vrate] is by a time above 10 seconds. *)
Lemma update_vrate_raises address first_seen decoded_altitude new_hist ac :
  raises_only (no_math_error E)
    (update_vrate address first_seen decoded_altitude new_hist ac).
Proof.
  unfold update_vrate. raises.
  apply raises_only_lift. unfold py_div.
  match goal with H : Qgtb _ _ = true |- _ => apply Qgtb_gt in H; rename H into Hgt end.
  destruct (Qeq_bool _ 0) eqn:Ez; [| exact I].
  apply Qeq_bool_iff in Ez. exfalso. revert Hgt Ez. 
  generalize (first_seen - a.1). intros q Hgt Ez. qlra.
Qed.

Hint Resolve rebuild_history_raises update_vrate_raises : raises.

Lemma accept_altitude_raises address first_seen decoded_altitude ac :
  raises_only (no_math_error E)
    (accept_altitude address first_seen decoded_altitude ac).
Proof. unfold accept_altitude. raises. Qed.

Hint Resolve accept_altitude_raises : raises.

Lemma update_from_message_raises address first_seen decoded ac :
  raises_only (no_math_error E)
    (update_from_message address first_seen decoded ac).
Proof. unfold update_from_message. raises. Qed.

Lemma find_altitude_raises first_seen ac :
  raises_only (no_math_error E) (find_altitude E first_seen ac).
Proof. unfold find_altitude. raises. Qed.

Lemma select_cluster_raises decoded ac altitude altitude_dof pr stack :
  raises_only (no_math_error E)
    (select_cluster E decoded ac altitude altitude_dof pr stack).
Proof.
  induction stack as [|[[distinct cluster_utc] cluster] stack IH]; simpl;
    raises; try exact IH.
  apply raises_only_lift, may_raise_lookup.
Qed.

Lemma call_handlers_raises handlers cluster_utc address position position_cov
    receivers distinct dof k error :
  raises_only (no_math_error E)
    (call_handlers handlers cluster_utc address position position_cov
       receivers distinct dof k error).
Proof. induction handlers as [|handler handlers IH]; simpl; raises. Qed.

Lemma write_pseudorange_raises file address altitude ecef s :
  raises_only (no_math_error E)
    (write_pseudorange E file address altitude ecef s).
Proof.
  unfold write_pseudorange. raises.
  apply raises_only_lift, may_raise_lookup.
Qed.

Hint Resolve update_from_message_raises find_altitude_raises
  select_cluster_raises call_handlers_raises write_pseudorange_raises
  : raises.

(** With a degree of freedom that is not negative, [math.sqrt(dof + 1)]
    is defined and not zero. *)
Lemma publish_raises g address ac altitude s :
  (0 <= s_dof s)%Z ->
  raises_only (no_math_error E) (publish E g address ac altitude s).
Proof.
  intros Hdof. unfold publish. raises.
  - exfalso. match goal with H : (_ <? _)%Z = true |- _ =>
                               apply Z.ltb_lt in H; lia end.
  - exfalso. match goal with H : (_ =? _)%Z = true |- _ =>
                               apply Z.eqb_eq in H; lia end.
Qed.

(** The clusters that [_resolve] collects have at least
    [min_component_size] distinct receivers each. *)
Lemma cluster_timestamps_distinct component min_receivers clusters :
  Engine._cluster_timestamps (Cair E) (robj E) component min_receivers
    = Ok clusters ->
  Forall (fun c : Engine.cluster => (min_receivers <= c.1.1)%Z) clusters.
Proof.
  unfold Engine._cluster_timestamps. intros H.
  inv_bind H. apply lookup_or_Ok in Hm. inv_bind H.
  eapply Forall_impl.
  - eapply EngineFacts.extract_all_spec; [exact H | | constructor].
    eapply EngineFacts.rough_groups_sorted; [exact Hm0 | constructor |].
    pose proof (EngineFacts.flat_component_sorted
                  (Engine.flatten component)) as Hs.
    destruct (py_sort Engine.ts_leb (Engine.flatten component)) as [|t l];
      [discriminate |].
    simpl in Hm. injection Hm as ->. exact Hs.
  - intros [[distinct first_seen] members] (_ & _ & _ & Hd). exact Hd.
Qed.

Lemma cluster_timestamps_raises component min_receivers :
  may_raise (no_math_error E)
    (Engine._cluster_timestamps (Cair E) (robj E) component min_receivers).
Proof.
  destruct (Engine.flatten component) as [|t flat] eqn:Eflat.
  - unfold Engine._cluster_timestamps. rewrite Eflat. simpl. by split.
  - pose proof (EngineOutcome.cluster_timestamps_reasons (Cair E) (robj E)
                  component min_receivers
                  ltac:(rewrite Eflat; discriminate)) as Hends.
    destruct (Engine._cluster_timestamps _ _ _ _) as [clusters|[|e| |]];
      try exact I.
    simpl in Hends. destruct e; try done; by split.
Qed.

Lemma cluster_components_outcome min_component_size components :
  forall clusters,
  Forall (fun c : Engine.cluster => (min_component_size <= c.1.1)%Z)
         clusters ->
  match cluster_components E min_component_size components clusters with
  | Ok out =>
      Forall (fun c : Engine.cluster => (min_component_size <= c.1.1)%Z) out
  | Stop why => may_raise (no_math_error E) (@Stop unit why)
  end.
Proof.
  induction components as [|component components IH]; intros clusters Hc;
    simpl; [exact Hc |].
  destruct (_ <=? _)%Z; [| by apply IH].
  pose proof (cluster_timestamps_raises component min_component_size) as Hr.
  destruct (Engine._cluster_timestamps _ _ _ _) as [found|why] eqn:Ef;
    simpl; [| exact Hr].
  apply IH, Forall_app. split; [exact Hc |].
  by eapply cluster_timestamps_distinct.
Qed.

(** The result that the loop accepts comes from a cluster of the
    stack. *)
Lemma select_cluster_dof decoded ac altitude altitude_dof pr stack :
  forall w,
  wp (select_cluster E decoded ac altitude altitude_dof pr stack) w
     (fun o _ =>
        forall s, o = Ok (Some s) ->
          exists c, c ∈ stack /\ s_dof s = (c.1.1 + altitude_dof - 4)%Z).
Proof.
  induction stack as [|[[distinct cluster_utc] cluster] stack IH]; intros w.
  - simpl. apply wp_ret. intros s [=].
  - simpl. wp_auto; try solve [intros res [=]].
    all: try (eapply wp_mono; [apply IH |]; cbv beta;
              let Hs := fresh "Hs" in
              let res := fresh "res" in
              let Hres := fresh "Hres" in
              let c0 := fresh "c0" in
              intros ? ? Hs res Hres;
              destruct (Hs res Hres) as (c0 & ? & ?);
              exists c0; split; [by right | done]).
    all: intros res [= <-]; simpl; eexists; split; [by left | reflexivity].
Qed.


End ResolveRaises.

(** ** The counters of the coordinator and of the aircraft *)

Lemma same_counts_refl w : same_counts w w.
Proof. done. Qed.

Lemma same_counts_trans w1 w2 w3 :
  same_counts w1 w2 -> same_counts w2 w3 -> same_counts w1 w3.
Proof. unfold same_counts. intros [] []. split; congruence. Qed.

Ltac frame_counts := frame_by same_counts_refl same_counts_trans.

Section CountsFrame.
Variable E : Env.

Lemma hist_new_counts : preserves same_counts hist_new.
Proof. by intros w. Qed.

Lemma hist_append_counts h x : preserves same_counts (hist_append h x).
Proof. unfold hist_append. frame_counts. Qed.

Lemma hist_index_counts h i : preserves same_counts (hist_index h i).
Proof. unfold hist_index. frame_counts. Qed.

Hint Resolve hist_append_counts hist_index_counts : frame.

Lemma prune_history_counts first_seen new_hist old :
  preserves same_counts (prune_history first_seen new_hist old).
Proof. induction old as [| [ts old_alt] old IH]; simpl; frame_counts. Qed.

Lemma call_handlers_counts handlers cluster_utc address position
    position_cov receivers distinct dof k error :
  preserves same_counts
    (call_handlers handlers cluster_utc address position position_cov
       receivers distinct dof k error).
Proof. induction handlers as [| handler handlers IH]; simpl; frame_counts. Qed.

Lemma write_pseudorange_counts file address altitude ecef s :
  preserves same_counts (write_pseudorange E file address altitude ecef s).
Proof. unfold write_pseudorange. frame_counts. Qed.

Lemma find_altitude_counts first_seen ac :
  preserves same_counts (find_altitude E first_seen ac).
Proof. unfold find_altitude. frame_counts. Qed.

Lemma altitude_accepted_counts first_seen decoded_altitude ac :
  preserves same_counts (altitude_accepted first_seen decoded_altitude ac).
Proof. unfold altitude_accepted. frame_counts. Qed.

End CountsFrame.

#[global] Hint Resolve hist_new_counts hist_append_counts
  hist_index_counts prune_history_counts call_handlers_counts
  write_pseudorange_counts find_altitude_counts
  altitude_accepted_counts : frame.

Ltac wp_frame_counts :=
  eapply wp_mono;
  [ apply (wp_preserves same_counts); solve [auto with frame]
  | let o := fresh "o" in let w' := fresh "w" in
    let Hs := fresh "Hstats" in let Ha := fresh "Hsame" in
    cbv beta; intros o w' [Hs Ha]; rsimpl_in Hs; rsimpl_in Ha ].

Ltac wp_count := repeat (first [wp_step | wp_case | wp_frame_counts]).

(** A counter that was not named is not in the list of the counted. *)
Ltac not_counted Hn :=
  let H := fresh in
  intros H; apply Hn; rewrite <- H;
  repeat first [apply list_elem_of_here | apply list_elem_of_further].

(** A counter is not one of those in the list. *)
Ltac not_among :=
  rewrite !not_elem_of_cons;
  repeat split; try discriminate; apply not_elem_of_nil.

(** Bring the counters of the current world back to those of the initial
    world. *)
Ltac stat_norm :=
  unfold stat in *;
  repeat match goal with
         | H : context [stats _] |- _ => progress rsimpl_in H
         | H : context [aircraft _] |- _ => progress rsimpl_in H
         end;
  rsimpl;
  repeat match goal with
         | H : stats ?w' = _ |- _ => rewrite H in *; clear H
         end;
  repeat first
    [ rewrite lookup_insert_eq in *
    | rewrite lookup_insert_ne in * by discriminate ];
  cbn [default from_option] in *; unfold Datatypes.id in *.

(** The goal at the end of a path through [_resolve]. *)
Ltac tally_leaf :=
  unfold resolve_counts, decoded_address;
  repeat match goal with
         | H : aircraft _ !! _ = Some _ |- _ => progress rsimpl_in H
         | H : aircraft _ !! _ = None |- _ => progress rsimpl_in H
         end;
  repeat match goal with
         | H : ?x = _ |- context [match ?x with _ => _ end] => rewrite H
         end;
  cbv zeta;
  split;
  [ let name := fresh "name" in let Hn := fresh "Hn" in
    intros name Hn; rsimpl;
    repeat match goal with
           | H : stats ?w' = _ |- context [stats ?w'] => rewrite H
           end;
    rewrite ?lookup_insert_ne by not_counted Hn; reflexivity |];
  stat_norm; ac_rewrite;
  repeat match goal with
         | H : ?x = _ |- context [match ?x with _ => _ end] => rewrite H
         end;
  rewrite ?lookup_insert_eq; rsimpl;
  repeat match goal with
         | |- context [match ?x with _ => _ end] => destruct x
         end;
  repeat split; lia.

Section CountsFacts.
Local Open Scope Q_scope.
Variable E : Env.

Lemma select_cluster_counts decoded ac altitude altitude_dof pr stack :
  forall w,
    wp (select_cluster E decoded ac altitude altitude_dof pr stack) w
       (solve_counts w).
Proof.
  induction stack as [| [[distinct cluster_utc] cluster] stack IH];
    intros w; simpl.
  - apply wp_ret. unfold solve_counts. repeat split; try done; lia.
  - wp_count.
    all: try (eapply wp_mono; [apply IH |]; cbv beta;
              intros ? ? (Ha & Ho & Hu & Hle)).
    all: unfold solve_counts in *; cbv zeta in *.
    all: split; [try rewrite Ha; rsimpl; congruence |].
    all: split;
      [ intros name Hn; try rewrite Ho by exact Hn; rsimpl;
        try rewrite Hstats;
        rewrite ?lookup_insert_ne by not_counted Hn; reflexivity |].
    all: clear IH; stat_norm; lia.
Qed.

(** The goal at the end of a path through a computation that only stores
    the aircraft at [address], its counters untouched. *)
Ltac counts_leaf Hac :=
  unfold counts_updated; rsimpl;
  repeat match goal with
         | H : stats ?w' = _ |- context [stats ?w'] => rewrite H
         end;
  split; [reflexivity |];
  ac_rewrite; eexists;
  split; [first [reflexivity | symmetry; apply insert_id; exact Hac] |];
  rsimpl; repeat (split; [reflexivity |]);
  try (intros ? [= <-]; reflexivity); try (intros ? [=]).

Lemma update_vrate_counts address first_seen decoded_altitude new_hist ac w :
  aircraft w !! address = Some ac ->
  wp (update_vrate address first_seen decoded_altitude new_hist ac) w
     (counts_updated address ac (fun r => r) w).
Proof.
  intros Hac. unfold update_vrate. wp_count; counts_leaf Hac.
Qed.

Lemma rebuild_history_counts address first_seen decoded_altitude ac w :
  aircraft w !! address = Some ac ->
  wp (rebuild_history address first_seen decoded_altitude ac) w
     (counts_updated address ac fst w).
Proof.
  intros Hac. unfold rebuild_history. wp_count; counts_leaf Hac.
Qed.

Lemma counts_updated_bind {A B} address ac (getA : A -> Aircraft)
    (getB : B -> Aircraft) (m : M A) (k : A -> M B) w :
  wp m w (counts_updated address ac getA w) ->
  (forall a w1,
      aircraft w1 !! address = Some (getA a) ->
      wp (k a) w1 (counts_updated address (getA a) getB w1)) ->
  wp (mbind m k) w (counts_updated address ac getB w).
Proof.
  intros Hm Hk. apply wp_bind. eapply wp_mono; [exact Hm |].
  intros o w1 (Hs1 & ac1 & Hw1 & Hm1 & Hr1 & Hk1 & Hr). destruct o as [a | why].
  - specialize (Hr a eq_refl). subst ac1.
    eapply wp_mono; [apply Hk; by rewrite Hw1, lookup_insert_eq |].
    intros o2 w2 (Hs2 & ac2 & Hw2 & Hm2 & Hr2 & Hk2 & Hret).
    split; [congruence |]. exists ac2.
    split; [by rewrite Hw2, Hw1, insert_insert_eq |].
    repeat (split; [congruence |]). done.
  - split; [done |]. exists ac1. repeat (split; [done |]). intros r [=].
Qed.

Lemma counts_updated_ret address ac w :
  aircraft w !! address = Some ac ->
  wp (ret ac) w (counts_updated address ac (fun r => r) w).
Proof. intros Hac. wp_count; counts_leaf Hac. Qed.

Lemma accept_altitude_counts address first_seen decoded_altitude ac w :
  aircraft w !! address = Some ac ->
  wp (accept_altitude address first_seen decoded_altitude ac) w
     (counts_updated address ac (fun r => r) w).
Proof.
  intros Hac. unfold accept_altitude.
  apply (counts_updated_bind address ac fst).
  - by apply rebuild_history_counts.
  - intros [ac1 new_hist] w1 Hac1. by apply update_vrate_counts.
Qed.

Lemma update_from_message_counts address first_seen decoded ac w :
  aircraft w !! address = Some ac ->
  wp (update_from_message address first_seen decoded ac) w
     (counts_updated address ac (fun r => r) w).
Proof.
  intros Hac. unfold update_from_message.
  apply (counts_updated_bind address ac (fun r => r)).
  { destruct (d_altitude decoded) as [a |]; [| by apply counts_updated_ret].
    destruct (_ && _); [| by apply counts_updated_ret].
    wp_count; try solve [counts_leaf Hac].
    eapply wp_mono; [apply accept_altitude_counts; by rewrite Hsame |].
    intros o' w' (Hs' & ac' & Hw' & ?). split; [congruence |].
    exists ac'. by rewrite <- Hsame. }
  intros ac1 w1 Hac1. apply (counts_updated_bind address ac1 (fun r => r)).
  { destruct (d_squawk decoded); wp_count; counts_leaf Hac1. }
  intros ac2 w2 Hac2.
  destruct (d_callsign decoded); wp_count; counts_leaf Hac2.
Qed.

(** Publishing counts the result on the aircraft, and the update of the
    Kalman filter when it succeeds, whatever happens afterwards. *)
Lemma publish_counts g address ac altitude s w :
  wp (publish E g address ac altitude s) w
     (fun o w' =>
        stats w' = stats w /\
        exists ac',
          aircraft w' = <[address := ac']> (aircraft w) /\
          mlat_message_count ac' = mlat_message_count ac /\
          mlat_result_count ac' = (mlat_result_count ac + 1)%Z /\
          (0 <= mlat_kalman_count ac' - mlat_kalman_count ac <= 1)%Z).
Proof.
  unfold publish. wp_count.
  all: repeat match goal with
              | H : stats ?w' = _ |- context [stats ?w'] => rewrite H
              end.
  all: split; [reflexivity |].
  all: ac_rewrite; eexists; (split; [reflexivity |]); rsimpl.
  all: repeat split; lia.
Qed.

(** X12.  What one call of [_resolve] counts.  It touches no counter of
    the coordinator but stats_valid_groups, stats_normalize,
    stats_solve_attempt, stats_solve_success and stats_solve_used, and
    decreases none; it counts at most one valid group, normalizes only a
    group it counted as valid, attempts a solution only after it counted
    the normalization, and uses at most one result, with
    used <= success <= attempt.  On the aircraft of the message,
    mlat_message_count grows by what stats_valid_groups grew,
    mlat_result_count by what stats_solve_used grew, and
    mlat_kalman_count by at most that; this holds also when the call
    ends in an exception. *)
Theorem resolve_counts_ok group w :
  resolve_counts (decoded_address E w group) w (_resolve E group w).2.
Proof.
  change (wp (_resolve E group) w
            (fun _ w' => resolve_counts (decoded_address E w group) w w')).
  unfold _resolve. wp_count; try solve [tally_leaf].
  eapply wp_mono;
    [apply update_from_message_counts; rsimpl; by rewrite lookup_insert_eq |].
  intros o w2 (Hs2 & ac2 & Hw2 & Hm2 & Hr2 & Hk2 & Hret).
  rsimpl_in Hs2. rsimpl_in Hw2. rewrite !insert_insert_eq in Hw2.
  rsimpl_in Hm2. rsimpl_in Hr2. rsimpl_in Hk2.
  destruct o as [a0 | why]; [| destruct why; tally_leaf].
  specialize (Hret _ eq_refl). subst a0.
  wp_count; try solve [tally_leaf].
  eapply wp_mono; [apply select_cluster_counts |].
  intros o1 w3 (Ha3 & Ho3 & Hu3 & Hle3).
  pose proof (Ho3 "stats_valid_groups" ltac:(not_among)) as Hv3.
  pose proof (Ho3 "stats_normalize" ltac:(not_among)) as Hn3.
  assert (Hothers : forall name,
             name ∉ ["stats_valid_groups"; "stats_normalize";
                     "stats_solve_attempt"; "stats_solve_success";
                     "stats_solve_used"] ->
             stats w3 !! name = stats w !! name).
  { intros name Hn. rewrite Ho3; rsimpl.
    - rewrite Hstats, Hs2.
      rewrite !lookup_insert_ne by not_counted Hn. reflexivity.
    - intros Hin. apply Hn. do 2 apply list_elem_of_further. exact Hin. }
  clear Ho3. unfold stat in Hu3, Hle3.
  rsimpl_in Ha3. rsimpl_in Hu3. rsimpl_in Hle3. rsimpl_in Hv3. rsimpl_in Hn3.
  rewrite Hstats, Hs2 in Hu3, Hle3, Hv3, Hn3.
  rewrite ?lookup_insert_ne, ?lookup_insert_eq, ?lookup_insert_ne in Hu3
    by discriminate.
  rewrite ?lookup_insert_ne, ?lookup_insert_eq, ?lookup_insert_ne in Hle3
    by discriminate.
  rewrite ?lookup_insert_ne, ?lookup_insert_eq, ?lookup_insert_ne in Hv3
    by discriminate.
  rewrite ?lookup_insert_ne, ?lookup_insert_eq, ?lookup_insert_ne in Hn3
    by discriminate.
  assert (Hfin : forall w4 ac4 used,
             stats w4 = stats w3 ->
             aircraft w4 = <[z := ac4]> (aircraft w3) ->
             mlat_message_count ac4 = mlat_message_count ac2 ->
             (mlat_result_count ac4 = mlat_result_count ac2 + used)%Z ->
             (0 <= mlat_kalman_count ac4 - mlat_kalman_count ac2 <= used)%Z ->
             (stat w3 "stats_solve_used" - stat w "stats_solve_used")%Z
             = used ->
             resolve_counts (decoded_address E w group) w w4).
  { intros w4 ac4 used Hs4 Hw4 Hm4 Hr4 Hk4 Hused.
    unfold resolve_counts, decoded_address, stat in *.
    rewrite Heqo, Heqo1, Heqo2, Heqo3. cbv zeta.
    rewrite Hs4, Hw4, lookup_insert_eq, Hv3, Hn3.
    cbn [default from_option]. unfold Datatypes.id in *.
    split; [exact Hothers |]. repeat split; destruct o1 as [[? |] | ?]; lia. }
  assert (Hac3 : aircraft w3
                 = <[z := set_last_resolve_attempt
                            (time_time E (time_calls w)) ac2]> (aircraft w3)).
  { by rewrite Ha3, Hsame, insert_insert_eq. }
  destruct o1 as [[s |] | why]; wp_count.
  2-6: apply (Hfin _ (set_last_resolve_attempt
                        (time_time E (time_calls w)) ac2) 0%Z);
    rsimpl; solve [done | lia].
  eapply wp_mono; [apply publish_counts |]. cbv beta.
  intros o4 w4 (Hs4 & ac4 & Hw4 & Hm4 & Hr4 & Hk4).
  rsimpl_in Hm4. rsimpl_in Hr4. rsimpl_in Hk4.
  assert (resolve_counts (decoded_address E w group) w w4);
    [| by destruct o4 as [[] | []]].
  apply (Hfin _ ac4 1%Z); try done.
Qed.

End CountsFacts.

(** ** The map from receivers to timestamps *)

Section TimestampMap.

Lemma timestamp_map_add_keys (r0 : rref) (x : Q * Q) tm :
  (timestamp_map_add r0 x tm).*1
  = if decide (r0 ∈ tm.*1) then tm.*1 else tm.*1 ++ [r0].
Proof.
  induction tm as [| [r l] tm IH]; [done |].
  cbn [timestamp_map_add]. rewrite (fmap_cons fst (r, l) tm). cbn [fst].
  destruct (decide (r = r0)) as [-> | Hne].
  - rewrite decide_True by apply list_elem_of_here. done.
  - rewrite fmap_cons, IH. cbn [fst].
    destruct (decide (r0 ∈ tm.*1)) as [Hin | Hout].
    + rewrite decide_True by (by apply list_elem_of_further). done.
    + rewrite decide_False; [done |].
      rewrite elem_of_cons. intros [-> | Hin]; done.
Qed.

Lemma timestamp_map_add_elem (r0 : rref) (x : Q * Q) tm r l :
  NoDup tm.*1 ->
  (r, l) ∈ timestamp_map_add r0 x tm <->
  if decide (r = r0)
  then exists l0, l = l0 ++ [x] /\
                  ((r0, l0) ∈ tm \/ (l0 = [] /\ r0 ∉ tm.*1))
  else (r, l) ∈ tm.
Proof.
  induction tm as [| [r1 l1] tm IH]; simpl; intros Hnd.
  - rewrite list_elem_of_singleton. destruct (decide (r = r0)) as [-> | Hne].
    + split.
      * intros [= ->]. exists []. split; [done |]. right.
        split; [done | apply not_elem_of_nil].
      * intros (l0 & -> & [Hin | [-> _]]); [by apply elem_of_nil in Hin | done].
    + split; [intros [= -> _]; done | intros Hin; by apply elem_of_nil in Hin].
  - apply NoDup_cons in Hnd as [Hout Hnd]. specialize (IH Hnd).
    destruct (decide (r1 = r0)) as [-> | Hne1].
    + rewrite elem_of_cons. destruct (decide (r = r0)) as [-> | Hne].
      * split.
        -- intros [[= ->] | Hin].
           ++ exists l1. split; [done |]. left. apply list_elem_of_here.
           ++ exfalso. apply Hout. apply list_elem_of_fmap.
              by exists (r0, l).
        -- intros (l0 & -> & [Hin | [-> Hno]]).
           ++ apply elem_of_cons in Hin as [[= ->] | Hin]; [by left |].
              exfalso. apply Hout. apply list_elem_of_fmap.
              by exists (r0, l0).
           ++ exfalso. apply Hno. apply list_elem_of_here.
      * rewrite elem_of_cons. split.
        -- intros [[= -> _] | Hin]; [done | by right].
        -- intros [[= -> _] | Hin]; [done | by right].
    + rewrite elem_of_cons, IH. destruct (decide (r = r0)) as [-> | Hne].
      * split.
        -- intros [[= -> _] | (l0 & -> & [Hin | [-> Hno]])]; [done | |].
           ++ exists l0. split; [done |]. left. by apply list_elem_of_further.
           ++ exists []. split; [done |]. right. split; [done |].
              rewrite elem_of_cons. intros [-> | Hin]; done.
        -- intros (l0 & -> & [Hin | [-> Hno]]).
           ++ apply elem_of_cons in Hin as [[= -> _] | Hin]; [done |].
              right. exists l0. split; [done |]. by left.
           ++ right. exists []. split; [done |]. right. split; [done |].
              intros Hin. apply Hno. by apply list_elem_of_further.
      * rewrite elem_of_cons. done.
Qed.

(** X13.  The timestamp map that [_resolve] builds from the copies of a
    group has one key for each receiver that reported a copy and no other;
    under a receiver are the (timestamp, utc) pairs of its copies, all of
    them and in the order of arrival.  So the map has at most as many
    keys as the group has copies. *)
Theorem timestamp_map_groups (copies : list (rref * Q * Q)) :
  let timestamp_map :=
    foldl (fun tm '(receiver, timestamp, utc) =>
             timestamp_map_add receiver (timestamp, utc) tm)
          [] copies in
  NoDup timestamp_map.*1 /\
  (length timestamp_map <= length copies)%nat /\
  forall receiver l,
    (receiver, l) ∈ timestamp_map <->
    l <> [] /\
    l = (fun c : rref * Q * Q => (c.1.2, c.2))
          <$> filter (fun c : rref * Q * Q => c.1.1 = receiver) copies.
Proof.
  cbv zeta. induction copies as [| [[r0 t] u] copies IH] using rev_ind.
  - cbn [foldl]. split; [apply NoDup_nil_2 |]. split; [done |].
    intros receiver l. split; [by intros Hin%elem_of_nil | by intros [? ->]].
  - rewrite foldl_app. cbn [foldl].
    set (tm := foldl _ [] copies) in *.
    destruct IH as (Hnd & Hlen & Hin).
    assert (Hkey : forall r,
               r ∈ tm.*1 <->
               (fun c : rref * Q * Q => (c.1.2, c.2))
                 <$> filter (fun c : rref * Q * Q => c.1.1 = r) copies
               <> []).
    { intros r. rewrite list_elem_of_fmap. split.
      - intros ([r' l] & -> & Hl). cbn [fst].
        apply Hin in Hl as [Hne Heq]. by rewrite <- Heq.
      - intros Hne. eexists (r, _). split; [done |]. by apply Hin. }
    split; [| split].
    + rewrite timestamp_map_add_keys. destruct (decide _) as [|Hout];
        [done |].
      apply NoDup_app. split; [done |]. split; [| apply NoDup_singleton].
      intros r Hr ->%list_elem_of_singleton. done.
    + rewrite <- (length_fmap fst), timestamp_map_add_keys.
      rewrite length_app. cbn [length].
      destruct (decide _); rewrite ?length_app, length_fmap; cbn [length];
        lia.
    + intros receiver l. rewrite timestamp_map_add_elem by done.
      rewrite filter_app, fmap_app.
      destruct (decide (receiver = r0)) as [-> | Hne].
      * rewrite filter_cons_True, filter_nil by done. cbn [fmap list_fmap].
        cbn [fst snd]. split.
        -- intros (l0 & -> & [Hl0 | [-> Hout]]).
           ++ apply Hin in Hl0 as [_ <-]. split; [| done].
              by destruct l0.
           ++ split; [done |]. f_equal.
              destruct (fmap _ (filter _ copies)) eqn:Hmine; [done |].
              exfalso. apply Hout, Hkey. by rewrite Hmine.
        -- intros [_ ->]. eexists. split; [done |].
           destruct (fmap _ (filter _ copies)) eqn:Hmine.
           ++ right. split; [done |]. rewrite Hkey, Hmine. by intros [].
           ++ left. apply Hin. rewrite Hmine. done.
      * rewrite filter_cons_False, filter_nil by (cbn; congruence).
        cbn [fmap list_fmap]. rewrite app_nil_r. apply Hin.
Qed.

End TimestampMap.

(** ** What [_resolve] hands out *)

Lemma result_calls_app evs1 evs2 :
  result_calls (evs1 ++ evs2) = result_calls evs1 ++ result_calls evs2.
Proof. apply filter_app. Qed.

Lemma quiet_refl w : quiet w w.
Proof. exists []. by rewrite app_nil_r. Qed.

Lemma quiet_trans w1 w2 w3 : quiet w1 w2 -> quiet w2 w3 -> quiet w1 w3.
Proof.
  intros (evs1 & H1 & Hq1) (evs2 & H2 & Hq2). exists (evs1 ++ evs2).
  split; [by rewrite H2, H1, app_assoc |].
  by rewrite result_calls_app, Hq1, Hq2.
Qed.

(** A step that makes no call, or calls that hand out no result. *)
Ltac quiet_prim :=
  let w := fresh "w" in
  intros w; unfold emit, log, store_ac, stats_incr, modify, time_now;
  cbn [fst snd]; rsimpl; eexists;
  split; [first [symmetry; apply app_nil_r | reflexivity] | reflexivity].

#[global] Hint Extern 5 (preserves quiet _) => quiet_prim : frame.

Ltac frame_quiet := frame_by quiet_refl quiet_trans.

Section QuietFrame.
Variable E : Env.

Lemma hist_new_quiet : preserves quiet hist_new.
Proof. intros w. exists []. by rewrite app_nil_r. Qed.

Lemma hist_append_quiet h x : preserves quiet (hist_append h x).
Proof. unfold hist_append. frame_quiet. Qed.

Lemma hist_index_quiet h i : preserves quiet (hist_index h i).
Proof. unfold hist_index. frame_quiet. Qed.

Hint Resolve hist_new_quiet hist_append_quiet hist_index_quiet : frame.

Lemma prune_history_quiet first_seen new_hist old :
  preserves quiet (prune_history first_seen new_hist old).
Proof. induction old as [| [ts old_alt] old IH]; simpl; frame_quiet. Qed.

Hint Resolve prune_history_quiet : frame.

Lemma update_from_message_quiet address first_seen decoded ac :
  preserves quiet (update_from_message address first_seen decoded ac).
Proof.
  unfold update_from_message, accept_altitude, rebuild_history, update_vrate,
    altitude_accepted.
  frame_quiet.
Qed.

Lemma find_altitude_quiet first_seen ac :
  preserves quiet (find_altitude E first_seen ac).
Proof. unfold find_altitude. frame_quiet. Qed.

Lemma select_cluster_quiet decoded ac altitude altitude_dof pr stack :
  preserves quiet (select_cluster E decoded ac altitude altitude_dof pr stack).
Proof.
  induction stack as [| [[distinct cluster_utc] cluster] stack IH]; simpl;
    frame_quiet.
Qed.

Lemma write_pseudorange_quiet file address altitude ecef s :
  preserves quiet (write_pseudorange E file address altitude ecef s).
Proof. unfold write_pseudorange. frame_quiet. Qed.

End QuietFrame.

(** The goal at the end of a path through [_resolve] on which no result
    was handed out. *)
Ltac results_leaf :=
  unfold resolve_results; rsimpl;
  repeat match goal with
         | H : trace ?w' = _ |- context [trace ?w'] => rewrite H
         end;
  rewrite <- ?app_assoc;
  eexists;
  split;
  [ first [reflexivity | symmetry; apply app_nil_r]
  | left; rewrite ?result_calls_app;
    repeat match goal with
           | H : result_calls _ = [] |- _ => rewrite H
           end;
    reflexivity ].

Section ResultFacts.
Local Open Scope Q_scope.
Variable E : Env.

Lemma find_altitude_dof first_seen ac w :
  wp (find_altitude E first_seen ac) w
     (fun o _ => forall a d, o = Ok (a, d) -> d = 0%Z \/ d = 1%Z).
Proof.
  unfold find_altitude. wp_auto; intros ? ? [=]; subst; auto.
Qed.

(** The result that the loop accepts comes from a cluster of the stack,
    with the number of receivers of that cluster. *)
Lemma select_cluster_picked decoded ac altitude altitude_dof pr stack :
  forall w,
  wp (select_cluster E decoded ac altitude altitude_dof pr stack) w
     (fun o _ =>
        forall s, o = Ok (Some s) ->
          exists c, c ∈ stack /\ s_distinct s = c.1.1 /\
                    s_dof s = (c.1.1 + altitude_dof - 4)%Z).
Proof.
  induction stack as [|[[distinct cluster_utc] cluster] stack IH]; intros w.
  - simpl. apply wp_ret. intros s [=].
  - simpl. wp_auto; try solve [intros res [=]].
    all: try (eapply wp_mono; [apply IH |]; cbv beta;
              let Hs := fresh "Hs" in
              let res := fresh "res" in
              let Hres := fresh "Hres" in
              let c0 := fresh "c0" in
              intros ? ? Hs res Hres;
              destruct (Hs res Hres) as (c0 & ? & ?);
              exists c0; split; [by right | done]).
    all: intros res [= <-]; simpl; eexists;
      split; [by left | split; reflexivity].
Qed.

(** Every output handler is called, in the order of the list. *)
Lemma call_handlers_trace handlers cluster_utc address position position_cov
    receivers distinct dof k error :
  forall w,
  wp (call_handlers handlers cluster_utc address position position_cov
        receivers distinct dof k error) w
     (fun o w' =>
        o = Ok tt /\
        trace w' = trace w ++
                   map (fun handler =>
                          EvOutput handler cluster_utc address position
                            position_cov receivers distinct dof k error)
                       handlers).
Proof.
  induction handlers as [| handler handlers IH]; intros w; simpl.
  - apply wp_ret. by rewrite app_nil_r.
  - wp_steps. eapply wp_mono; [apply IH |]. cbv beta.
    intros o w' [-> Ht]. split; [done |]. rewrite Ht. rsimpl.
    by rewrite <- app_assoc.
Qed.

Lemma result_calls_outputs handlers cluster_utc address position
    position_cov receivers distinct dof k error :
  result_calls
    (map (fun handler =>
            EvOutput handler cluster_utc address position position_cov
              receivers distinct dof k error) handlers)
  = map (fun handler =>
           EvOutput handler cluster_utc address position position_cov
             receivers distinct dof k error) handlers.
Proof.
  induction handlers as [| handler handlers IH]; [done |].
  simpl. unfold result_calls in *. rewrite filter_cons_True by done.
  by rewrite IH.
Qed.

(** Publishing calls every output handler and then
    [coordinator.forward_results], all with the same result; it hands out
    nothing if it raises before. *)
Lemma publish_results g address ac altitude s w :
  wp (publish E g address ac altitude s) w
     (fun o w' =>
        exists evs,
          trace w' = trace w ++ evs /\
          (result_calls evs = [] \/
           exists position,
             result_calls evs
             = map (fun handler =>
                      EvOutput handler (s_cluster_utc s) address position
                        (Some (s_ecef_cov s))
                        (map Engine.m_recv (s_cluster s)) (s_distinct s)
                        (s_dof s) (kalman ac) (s_error s))
                   (output_handlers E)
               ++ [EvForward (s_cluster_utc s) address position
                     (Some (s_ecef_cov s)) (elements (g_receivers g))
                     (s_distinct s) (s_dof s) (kalman ac) (s_error s)])).
Proof.
  unfold publish. wp_auto.
  all: try (exists []; split; [rsimpl; by rewrite app_nil_r | by left]).
  all: eapply wp_mono; [apply call_handlers_trace |]; cbv beta.
  all: intros o1 w1 [-> Ht1]; rsimpl_in Ht1; wp_auto.
  all: try (eapply wp_mono;
            [apply (wp_preserves quiet), write_pseudorange_quiet |];
            cbv beta; intros o2 w2 (evs2 & Ht2 & Hq2); rsimpl_in Ht2;
            assert (exists evs,
                       trace w2 = trace w ++ evs /\
                       (result_calls evs = [] \/
                        exists position,
                          result_calls evs
                          = map (fun handler =>
                                   EvOutput handler (s_cluster_utc s) address
                                     position (Some (s_ecef_cov s))
                                     (map Engine.m_recv (s_cluster s))
                                     (s_distinct s) (s_dof s) (kalman ac)
                                     (s_error s))
                                (output_handlers E)
                            ++ [EvForward (s_cluster_utc s) address position
                                  (Some (s_ecef_cov s))
                                  (elements (g_receivers g))
                                  (s_distinct s) (s_dof s) (kalman ac)
                                  (s_error s)]));
            [| by destruct o2 as [[] | []]];
            rewrite Ht2).
  all: rewrite Ht1, <- !app_assoc.
  all: eexists; split; [reflexivity |]; right; eexists.
  all: rewrite !result_calls_app, result_calls_outputs, ?Hq2.
  all: rewrite ?app_nil_r; reflexivity.
Qed.

(** X14.  What one call of [_resolve] hands out.  Either it calls no
    output handler and not [coordinator.forward_results]; or it calls
    every output handler once, in the order of the list, and then
    [forward_results] once, all with the same time, address, position,
    covariance, [distinct], [dof], Kalman state and error, and
    [forward_results] with the receivers of the group.  In that case the
    group has at least three copies, its message decodes to an address
    that is not zero, of an aircraft that the tracker knows and that
    allows mlat; the covariance is not None; [distinct >= 3],
    [dof >= 0], [dof] is [distinct - 4] or [distinct - 3], and
    [0 <= error <= 10000]. *)
Theorem resolve_hands_out group w :
  resolve_results E group w (_resolve E group w).2.
Proof.
  change (wp (_resolve E group) w (fun _ w' => resolve_results E group w w')).
  unfold _resolve. wp_auto; try solve [results_leaf].
  eapply wp_mono; [apply (wp_preserves quiet), update_from_message_quiet |].
  cbv beta. intros o w2 (evs2 & Ht2 & Hq2). rsimpl_in Ht2.
  destruct o as [ac2 | why]; [| destruct why; results_leaf].
  wp_auto; try solve [results_leaf].
  eapply wp_mono;
    [apply wp_conj;
       [apply (wp_preserves quiet), find_altitude_quiet
       | apply find_altitude_dof] |].
  cbv beta. intros o w3 [(evs3 & Ht3 & Hq3) Hdof]. rsimpl_in Ht3.
  destruct o as [[altitude altitude_dof] | why];
    [| destruct why; results_leaf].
  specialize (Hdof _ _ eq_refl).
  wp_auto; try solve [results_leaf].
  match goal with
  | H : cluster_components _ ?mcs ?cs [] = _ |- _ =>
      pose proof (cluster_components_outcome E mcs cs []
                    ltac:(constructor)) as Hcc;
      rewrite H in Hcc
  end.
  eapply wp_mono;
    [apply wp_conj;
       [apply (wp_preserves quiet), select_cluster_quiet
       | apply wp_conj;
           [apply select_cluster_accepted | apply select_cluster_picked]] |].
  cbv beta. intros o w4 [(evs4 & Ht4 & Hq4) [Hacc Hpick]]. rsimpl_in Ht4.
  destruct o as [[s |] | why]; wp_auto; try solve [results_leaf].
  destruct (Hacc s eq_refl) as (_ & Herr & _ & Hmax & _).
  destruct (Hpick s eq_refl) as (c & Hc & Hdistinct & Hsdof).
  rewrite elem_of_reverse in Hc.
  rewrite (py_sort_perm cluster_key_leb) in Hc.
  rewrite Forall_forall in Hcc. specialize (Hcc c Hc).
  eapply wp_mono; [apply publish_results |]. cbv beta.
  intros o5 w5 (evs5 & Ht5 & Hres).
  assert (resolve_results E group w w5); [| by destruct o5 as [[] | []]].
  destruct Hres as [Hq5 | (position & Hres)]; [results_leaf |].
  unfold resolve_results. rewrite Ht5, Ht4, Ht3, Ht2, <- !app_assoc.
  eexists. split; [reflexivity |]. right.
  exists m, z, a. do 8 eexists.
  split; [exact Heqo |].
  split; [apply Z.ltb_ge in Heqb; lia |].
  split; [unfold decoded_address; by rewrite Heqo, Heqo1 |].
  split; [by apply Z.eqb_neq |].
  split; [exact Heqo3 |].
  split; [by apply negb_false_iff |].
  split; [rewrite !result_calls_app, Hq2, Hq3, Hq4, Hres; reflexivity |].
  assert (H0 : (0 <= s_error s)%Z).
  { rewrite Herr. unfold int_sqrt. apply Z.sqrt_nonneg. }
  assert (H1 : (s_error s <= 10000)%Z).
  { rewrite Zle_Qle. exact Hmax. }
  cbn [fst] in Hcc. rewrite Hdistinct, Hsdof. lia.
Qed.

End ResultFacts.

(** ** What the timer of a cohort leaves pending *)

Section TimerFacts.
Variable E : Env.

(** [_resolve] on a group that is pending removes its key from the
    pending map and leaves the tracker's objects alone. *)
Lemma resolve_removes group G w :
  group_store w !! group = Some G ->
  is_Some (pending w !! g_message G) ->
  wp (_resolve E group) w
     (fun _ w' =>
        same_objects (set_pending (delete (g_message G) (pending w)) w) w').
Proof.
  intros HG [g' Hp]. unfold _resolve. apply wp_call, wp_bind, wp_deref.
  rewrite HG. apply wp_bind, wp_gets, wp_bind. rewrite Hp. apply wp_modify.
  eapply wp_mono; [apply (wp_preserves same_objects); frame |].
  intros o w' Hsame. by destruct o as [[] | []].
Qed.

(** The callbacks of the groups are called in order up to the first one
    that does not return; the groups that were called are no longer
    pending, the pending map is otherwise as it was. *)
Lemma process_groups_clears groups :
  forall w,
  NoDup groups ->
  (forall g, g ∈ groups ->
     exists G, group_store w !! g = Some G /\ g_handle G = Some Resolve /\
               pending w !! g_message G = Some g) ->
  wp (process_groups E groups) w
     (fun o w' =>
        o <> Stop Return /\
        group_store w' = group_store w /\
        exists done rest,
          groups = done ++ rest /\
          (o = Ok tt -> rest = []) /\
          forall m, pending w' !! m
                    = if decide (m ∈ messages_of w done) then None
                      else pending w !! m).
Proof.
  induction groups as [| group groups IH]; intros w Hnd Hall; simpl.
  - apply wp_ret. split; [done |]. split; [done |].
    exists [], []. by repeat split.
  - apply NoDup_cons in Hnd as [Hout Hnd].
    destruct (Hall group ltac:(by left)) as (G & HG & Hh & Hp).
    apply wp_bind, wp_deref. rewrite HG. rewrite Hh. apply wp_bind.
    eapply wp_mono.
    { apply wp_conj with (Q2 := fun o _ => o <> Stop Return);
        [by apply (resolve_removes group G) |].
      unfold wp, _resolve. apply call_outcome. }
    cbv beta. intros o w1 [(Hgs & _ & _ & _ & _ & _ & Hp1) Hnr].
    rsimpl_in Hgs. rsimpl_in Hp1.
    assert (Hone : forall m,
               pending w1 !! m
               = if decide (m ∈ messages_of w [group]) then None
                 else pending w !! m).
    { intros m. unfold messages_of. cbn [omap list_omap]. rewrite HG.
      cbn [fmap option_fmap option_map]. rewrite Hp1.
      destruct (decide (m ∈ [g_message G])) as [Hin | Hno].
      - apply list_elem_of_singleton in Hin as ->. apply lookup_delete_eq.
      - rewrite lookup_delete_ne; [done |]. intros <-. apply Hno.
        by apply list_elem_of_singleton. }
    destruct o as [[] | why].
    2: { split; [done |]. split; [done |]. exists [group], groups.
         split; [done |]. split; [intros [=] | exact Hone]. }
    eapply wp_mono.
    { apply IH; [exact Hnd |]. intros g Hg.
      destruct (Hall g ltac:(by right)) as (G' & HG' & Hh' & Hp').
      exists G'. rewrite Hgs. split; [done |]. split; [done |].
      rewrite Hp1, lookup_delete_ne; [done |].
      intros Heq. rewrite Heq in Hp. rewrite Hp in Hp'.
      injection Hp' as <-. done. }
    cbv beta. intros o w2 (Hnr2 & Hgs2 & done & rest & -> & Hok & Hp2).
    split; [done |]. split; [congruence |]. exists (group :: done), rest.
    split; [done |]. split; [exact Hok |].
    intros m. rewrite Hp2, Hone.
    assert (Hm : messages_of w1 done = messages_of w done)
      by (unfold messages_of; by rewrite Hgs).
    rewrite Hm. unfold messages_of. cbn [omap list_omap]. rewrite HG.
    cbn [fmap option_fmap option_map].
    destruct (decide (m ∈ omap _ done)) as [Hin | Hno].
    + rewrite decide_True; [done | by apply list_elem_of_further].
    + destruct (decide (m ∈ [g_message G])) as [Hin1 | Hno1].
      * apply list_elem_of_singleton in Hin1 as ->.
        rewrite decide_True; [done | apply list_elem_of_here].
      * rewrite decide_False; [done |].
        rewrite elem_of_cons. intros [-> | Hin]; [| done].
        apply Hno1. by apply list_elem_of_singleton.
Qed.

(** X15.  When the timer of a cohort expires in a running tracker, the
    timer is forgotten and the callbacks of the groups are called in the
    order of the list, up to the first one that does not return: the
    groups called ([done]) are no longer pending, and nothing else of the
    pending map changes.  If all callbacks return, that is every group of
    the cohort; if one raises, the groups after it ([rest]) stay in the
    pending map although their cohort has no timer any more. *)
Theorem timer_clears_cohort w timer d c co o w' :
  running E w ->
  timers w !! timer = Some (d, c) ->
  cohort_store w !! c = Some co ->
  fire_timer E timer w = (o, w') ->
  timers w' = delete timer (timers w) /\
  exists done rest,
    c_groups co = done ++ rest /\
    (o = Ok tt -> rest = []) /\
    (forall m, pending w' !! m
               = if decide (m ∈ messages_of w done) then None
                 else pending w !! m) /\
    (forall g, g ∈ rest ->
       exists G, group_store w' !! g = Some G /\
                 pending w' !! g_message G = Some g) /\
    (forall t' d', timers w' !! t' <> Some (d', c)).
Proof.
  intros Hrun Ht Hco Hfire.
  destruct (running_ok E w Hrun) as [[_ Hc] (Hkeys & Htim & _)].
  destruct (Hc c co Hco) as (_ & _ & Hnd & Hmem).
  destruct (Htim _ _ _ Ht) as (co' & Hco' & Hhandle & Hpend).
  rewrite Hco in Hco'. injection Hco' as <-.
  set (w1 := set_timers (delete timer (timers w)) w).
  assert (Hall : forall g, g ∈ c_groups co ->
             exists G, group_store w1 !! g = Some G /\
                       g_handle G = Some Resolve /\
                       pending w1 !! g_message G = Some g).
  { intros g Hg. destruct (Hmem g Hg) as (G & HG & Hh & _).
    destruct (Hpend g Hg) as (G' & HG' & Hpg).
    rewrite HG in HG'. injection HG' as <-. by exists G. }
  pose proof (process_groups_clears (c_groups co) w1 Hnd Hall) as Hclear.
  pose proof (process_groups_kept E (c_groups co) w1)
    as (_ & _ & _ & Htimers & _).
  unfold wp in Hclear. unfold fire_timer, mbind, gets in Hfire.
  rewrite Ht in Hfire. unfold modify in Hfire. fold w1 in Hfire.
  unfold Cohort_process, call, mbind, deref in Hfire.
  change (cohort_store w1) with (cohort_store w) in Hfire.
  rewrite Hco in Hfire.
  destruct (process_groups E (c_groups co) w1) as [o1 w2].
  cbn [fst snd] in Hclear, Htimers.
  destruct Hclear as (Hnr & Hgs & done & rest & Hsplit & Hok & Hp).
  assert (Ho : o = o1 /\ w' = w2).
  { destruct o1 as [[] | []]; try done; by injection Hfire as <- <-. }
  destruct Ho as [-> ->]. unfold w1 in Htimers. rsimpl_in Htimers.
  split; [exact Htimers |]. exists done, rest.
  split; [exact Hsplit |]. split; [exact Hok |]. split; [exact Hp |]. split.
  - intros g Hg.
    assert (Hin : g ∈ c_groups co)
      by (rewrite Hsplit; apply elem_of_app; by right).
    destruct (Hall g Hin) as (G & HG & _ & Hpg). exists G.
    rewrite Hgs. split; [exact HG |]. rewrite Hp.
    rewrite decide_False; [exact Hpg |].
    unfold messages_of. rewrite list_elem_of_omap.
    intros (g0 & Hg0 & Hmsg).
    assert (Hin0 : g0 ∈ c_groups co)
      by (rewrite Hsplit; apply elem_of_app; by left).
    destruct (Hall g0 Hin0) as (G0 & HG0 & _ & Hpg0).
    rewrite HG0 in Hmsg. cbn in Hmsg. injection Hmsg as Hmsg.
    rewrite <- Hmsg, Hpg0 in Hpg. injection Hpg as ->.
    rewrite Hsplit in Hnd. apply NoDup_app in Hnd as (_ & Hdisj & _).
    by apply (Hdisj g).
  - intros t' d' Ht'. rewrite Htimers in Ht'.
    destruct (decide (t' = timer)) as [-> | Hne].
    + by rewrite lookup_delete_eq in Ht'.
    + rewrite lookup_delete_ne in Ht' by done.
      destruct (Htim _ _ _ Ht') as (co' & Hco' & Hh' & _).
      rewrite Hco in Hco'. injection Hco' as <-. congruence.
Qed.

End TimerFacts.

(** ** The further properties on the sample data *)

Lemma feed_running E obs :
  forall w, running E w -> running E (feed E obs w).2.
Proof.
  induction obs as [|[[[receiver timestamp] message] now] obs IH];
    intros w Hrun; [exact Hrun |].
  cbn [feed]. unfold mbind.
  destruct (receiver_mlat_returns E w receiver timestamp message now Hrun)
    as (w' & -> & Hrun').
  by apply IH.
Qed.

Lemma sample_started : started sample_E sample_start.
Proof.
  exists empty_world. split; [by repeat split |]. vm_compute. reflexivity.
Qed.

Lemma sample_running n :
  running sample_E (feed sample_E (sample_obs n) sample_start).2.
Proof.
  apply feed_running. exists sample_start.
  split; [apply sample_started | apply rtc_refl].
Qed.

(** The sample component, three receivers asked for: clusters are
    returned, and the component is not empty. *)
Lemma cluster_timestamps_outcome_sample :
  Engine._cluster_timestamps 299702547 sample_obj sample_component 3
    = Ok sample_clusters /\
  Engine.flatten sample_component <> [].
Proof.
  assert (Hrun : Engine._cluster_timestamps 299702547 sample_obj
                   sample_component 3 = Ok sample_clusters)
    by (vm_compute; reflexivity).
  split; [exact Hrun |].
  pose proof (EngineOutcome.cluster_timestamps_outcome 299702547 sample_obj
                sample_component 3 ltac:(lia)) as H.
  rewrite Hrun in H. exact H.
Defined.

(** The sample component, no receiver asked for: IndexError. *)
Lemma cluster_timestamps_nonpositive_min_sample :
  Engine._cluster_timestamps 299702547 sample_obj sample_component 0
    = Stop (Raise IndexError) /\
  match Engine._cluster_timestamps 299702547 sample_obj sample_component 0
  with
  | Stop (Raise IndexError) => True
  | _ => False
  end.
Proof.
  assert (Hrun : Engine._cluster_timestamps 299702547 sample_obj
                   sample_component 0 = Stop (Raise IndexError))
    by (vm_compute; reflexivity).
  split; [exact Hrun |].
  pose proof (EngineOutcome.cluster_timestamps_nonpositive_min 299702547
                sample_obj sample_component 0 ltac:(lia)) as H.
  rewrite Hrun in H. rewrite Hrun. exact H.
Defined.

(** The cluster of the sample component is made of three of its four
    items. *)
Lemma clusters_made_of_input_sample :
  exists useds,
    Forall2 EngineProps.made_of useds sample_clusters /\
    concat useds ⊆+ Engine.flatten sample_component.
Proof.
  apply (EngineShape.clusters_made_of_input 299702547 sample_obj
           sample_component 3 sample_clusters).
  vm_compute. reflexivity.
Defined.

Lemma emitted_cluster_ascending_sample :
  Forall (fun c : Engine.cluster =>
            EngineProps.ts_ascending c.2 /\ py_sort member_ts_leb c.2 = c.2)
         sample_clusters.
Proof.
  apply (EngineShape.emitted_cluster_ascending 299702547 sample_obj
           sample_component 3 sample_clusters).
  vm_compute. reflexivity.
Defined.

(** After 27 messages the tracker has two cohorts, of 26 groups and of
    one. *)
Lemma running_cohorts_ok_sample :
  cohorts_ok (feed sample_E (sample_obs 27) sample_start).2.
Proof. apply (running_cohorts_ok sample_E), sample_running. Defined.

Lemma running_pending_ok_sample :
  pending_ok (feed sample_E (sample_obs 27) sample_start).2.
Proof. apply (running_pending_ok sample_E), sample_running. Defined.

(** Three messages, then the timer of their cohort: the callback of the
    first group returns, and the second group is still pending. *)
Lemma timer_finds_pending_keys_sample :
  exists G,
    group_store
      (process_groups sample_E [0%nat]
         (set_timers
            (delete 0%nat
               (timers (feed sample_E (sample_obs 3) sample_start).2))
            (feed sample_E (sample_obs 3) sample_start).2)).2 !! 1%nat
      = Some G /\
    g_handle G = Some Resolve /\
    pending
      (process_groups sample_E [0%nat]
         (set_timers
            (delete 0%nat
               (timers (feed sample_E (sample_obs 3) sample_start).2))
            (feed sample_E (sample_obs 3) sample_start).2)).2
      !! g_message G = Some 1%nat.
Proof.
  apply (timer_finds_pending_keys sample_E
           (feed sample_E (sample_obs 3) sample_start).2 0%nat 0.2 0%nat
           {| c_creationTime := 1000; c_len := 3;
              c_groups := [0%nat; 1%nat; 2%nat]; c_handle := 0%nat |}
           [0%nat] 1%nat [2%nat]).
  - apply sample_running.
  - vm_compute. reflexivity.
  - vm_compute. reflexivity.
  - reflexivity.
  - vm_compute. reflexivity.
Defined.

(** A group with one copy: [_resolve] removes it from the pending map and
    returns. *)
Lemma resolve_gives_up_sample :
  _resolve sample_E 0%nat (feed sample_E (sample_obs 3) sample_start).2
  = (Ok tt,
     set_pending
       (delete "A" (pending (feed sample_E (sample_obs 3) sample_start).2))
       (feed sample_E (sample_obs 3) sample_start).2).
Proof.
  apply (resolve_gives_up sample_E 0%nat
           {| g_message := "A"; g_first_seen := 1000.01;
              g_copies := [(1%nat, 10%Q, 1000.01%Q)];
              g_receivers := {[1%nat]}; g_handle := Some Resolve |}
           (feed sample_E (sample_obs 3) sample_start).2).
  - vm_compute. reflexivity.
  - eexists. vm_compute. reflexivity.
  - left. simpl. lia.
Defined.

(** In the sample world [_resolve] accepts a result: every counter goes
    up by one. *)
Lemma resolve_counts_ok_sample :
  map_to_list (stats (_resolve sample_E 0%nat sample_world).2)
  = [("stats_solve_success", 1%Z); ("stats_solve_used", 1%Z);
     ("stats_solve_attempt", 1%Z); ("stats_normalize", 1%Z);
     ("stats_valid_groups", 1%Z)] /\
  resolve_counts (decoded_address sample_E sample_world 0%nat) sample_world
    (_resolve sample_E 0%nat sample_world).2.
Proof.
  split; [vm_compute; reflexivity | apply resolve_counts_ok].
Defined.

(** The four copies of the sample group come from four receivers. *)
Lemma timestamp_map_groups_sample :
  foldl (fun tm '(receiver, timestamp, utc) =>
           timestamp_map_add receiver (timestamp, utc) tm)
        [] (g_copies sample_group)
  = [(1%nat, [(10.00001%Q, 1000%Q)]); (2%nat, [(10.00002%Q, 1000%Q)]);
     (3%nat, [(10%Q, 1000%Q)]); (4%nat, [(10.000015%Q, 1000%Q)])] /\
  NoDup (foldl (fun tm '(receiver, timestamp, utc) =>
                  timestamp_map_add receiver (timestamp, utc) tm)
               [] (g_copies sample_group)).*1.
Proof.
  split; [vm_compute; reflexivity |].
  apply (timestamp_map_groups (g_copies sample_group)).
Defined.

(** In the sample world [_resolve] hands its result to the one output
    handler and to [forward_results]. *)
Lemma resolve_hands_out_sample :
  result_calls (trace (_resolve sample_E 0%nat sample_world).2)
  = [EvOutput 0%nat 1000%Q 1%Z (1%Q, 2%Q, 3%Q)
       (Some (100010000%Q, 0%Q, 0%Q, (0%Q, 0%Q, 0%Q), (0%Q, 0%Q, 0%Q)))
       [3%nat; 1%nat; 4%nat; 2%nat] 4%Z 0%Z 0%nat 10000%Z;
     EvForward 1000%Q 1%Z (1%Q, 2%Q, 3%Q)
       (Some (100010000%Q, 0%Q, 0%Q, (0%Q, 0%Q, 0%Q), (0%Q, 0%Q, 0%Q)))
       [4%nat; 2%nat; 3%nat; 1%nat] 4%Z 0%Z 0%nat 10000%Z] /\
  resolve_results sample_E 0%nat sample_world
    (_resolve sample_E 0%nat sample_world).2.
Proof.
  split; [vm_compute; reflexivity | apply resolve_hands_out].
Defined.

Lemma outside_set_aircraft a w : outside w (set_aircraft a w).
Proof. by repeat split. Qed.

Lemma running_set_aircraft E a w :
  running E w -> running E (set_aircraft a w).
Proof.
  intros (w1 & Hstart & Hsteps). exists w1. split; [exact Hstart |].
  eapply rtc_r; [exact Hsteps |]. apply step_outside, outside_set_aircraft.
Qed.

Lemma sample_stuck_running : running sample_E sample_stuck_world.
Proof.
  apply running_set_aircraft, feed_running. exists sample_start.
  split; [apply sample_started | apply rtc_refl].
Qed.

(** The callback of the group of "A" raises TypeError (the altitude of
    the aircraft is set but its time is None): the group of "B", which
    comes after it in the cohort, stays pending, without a timer. *)
Lemma timer_clears_cohort_sample :
  (fire_timer sample_E 0%nat sample_stuck_world).1 = Stop (Raise TypeError) /\
  map_to_list (pending (fire_timer sample_E 0%nat sample_stuck_world).2)
  = [("B", 1%nat)] /\
  timers (fire_timer sample_E 0%nat sample_stuck_world).2
  = delete 0%nat (timers sample_stuck_world) /\
  exists done rest,
    [0%nat; 1%nat] = done ++ rest /\
    ((fire_timer sample_E 0%nat sample_stuck_world).1 = Ok tt -> rest = []) /\
    (forall m,
        pending (fire_timer sample_E 0%nat sample_stuck_world).2 !! m
        = if decide (m ∈ messages_of sample_stuck_world done) then None
          else pending sample_stuck_world !! m) /\
    (forall g, g ∈ rest ->
       exists G,
         group_store (fire_timer sample_E 0%nat sample_stuck_world).2 !! g
         = Some G /\
         pending (fire_timer sample_E 0%nat sample_stuck_world).2
           !! g_message G = Some g) /\
    (forall t' d',
        timers (fire_timer sample_E 0%nat sample_stuck_world).2 !! t'
        <> Some (d', 0%nat)).
Proof.
  split; [vm_compute; reflexivity |]. split; [vm_compute; reflexivity |].
  apply (timer_clears_cohort sample_E sample_stuck_world 0%nat 0.2 0%nat
           {| c_creationTime := 1000; c_len := 2;
              c_groups := [0%nat; 1%nat]; c_handle := 0%nat |}
           (fire_timer sample_E 0%nat sample_stuck_world).1
           (fire_timer sample_E 0%nat sample_stuck_world).2).
  - apply sample_stuck_running.
  - vm_compute. reflexivity.
  - vm_compute. reflexivity.
  - apply surjective_pairing.
Defined.
